(** * neo4j-client: the command-line front end ([src/bin/neo4j-client.c])

    A shallow embedding of [main]: the option loop, the checks that follow
    it, the connection set-up, the choice of execution mode and the clean-up,
    with the results of the C library and of the rest of the shell
    ([getopt_long], [isatty], [db_connect], [interact], [source], ...)
    supplied by an [environment]. *)

From Stdlib Require Import ZArith String Ascii List Bool Lia.
From stdpp Require Import base list strings.
Import ListNotations.

Local Open Scope string_scope.
Local Open Scope list_scope.
Local Open Scope Z_scope.

(** ** Machine integers *)

Module Int.

(** [int] is 32 bits wide, [long] 64 bits, [uint8_t] 8 bits. *)
Definition INT_MIN : Z := - 2 ^ 31.
Definition INT_MAX : Z := 2 ^ 31 - 1.
Definition LONG_MIN : Z := - 2 ^ 63.
Definition LONG_MAX : Z := 2 ^ 63 - 1.

(** Conversion to [int], to [unsigned int] and to [uint8_t], by wrap-around. *)
Definition to_int (z : Z) : Z := (z + 2 ^ 31) mod 2 ^ 32 - 2 ^ 31.
Definition to_unsigned (z : Z) : Z := z mod 2 ^ 32.
Definition to_uint8 (z : Z) : Z := z mod 2 ^ 8.

(** The product of two [int]s, as an [int]. *)
Definition mul (a b : Z) : Z := to_int (a * b).

Definition in_int (z : Z) : Prop := INT_MIN <= z <= INT_MAX.

End Int.

(** ** [atoi]

    The C library's [atoi], as glibc defines it: [(int) strtol (s, NULL, 10)].
    [strtol] skips white space, reads an optional sign and the longest run
    of decimal digits, and clamps the value to the range of [long]; the
    conversion to [int] keeps the low 32 bits. *)

Module Atoi.

Definition isspace (c : ascii) : bool :=
  let n := nat_of_ascii c in
  (n =? 32)%nat || ((9 <=? n)%nat && (n <=? 13)%nat).

Definition isdigit (c : ascii) : bool :=
  let n := nat_of_ascii c in (48 <=? n)%nat && (n <=? 57)%nat.

Definition digit_value (c : ascii) : Z := Z.of_nat (nat_of_ascii c) - 48.

Fixpoint skip_spaces (s : string) : string :=
  match s with
  | String c s' => if isspace c then skip_spaces s' else s
  | EmptyString => s
  end.

(** The value of the longest prefix of [s] made of digits, continuing
    from [acc]. *)
Fixpoint digits_value (acc : Z) (s : string) : Z :=
  match s with
  | String c s' =>
      if isdigit c then digits_value (acc * 10 + digit_value c) s' else acc
  | EmptyString => acc
  end.

Definition clamp_long (z : Z) : Z :=
  if z <? Int.LONG_MIN then Int.LONG_MIN
  else if Int.LONG_MAX <? z then Int.LONG_MAX
  else z.

(** The optional sign: whether it is a minus, and what follows it. *)
Definition split_sign (s : string) : bool * string :=
  match s with
  | String c s' =>
      if (c =? "-")%char then (true, s')
      else if (c =? "+")%char then (false, s')
      else (false, s)
  | EmptyString => (false, s)
  end.

Definition strtol (s : string) : Z :=
  let '(negative, digits) := split_sign (skip_spaces s) in
  clamp_long (if negative then - digits_value 0 digits
              else digits_value 0 digits).

Definition atoi (s : string) : Z := Int.to_int (strtol s).

End Atoi.

(** ** Data of the shell *)

Inductive exit_code := EXIT_SUCCESS | EXIT_FAILURE.

(** The two streams [main] writes to: [state.out] and [state.err], which
    [shell_state_init] receives as [stdout] and [stderr]. *)
Inductive stream := state_out | state_err.

Inductive colorization := no_error_colorization | ansi_error_colorization.

Inductive renderer := render_unset | render_results_table | render_results_csv.

(** Modelled from the spec: the connection configuration of the client
    library ([neo4j_config_t], declared in neo4j-client.h, which is not
    among the sources). It holds what the setters store: the credentials,
    the TLS trust settings, the flow-control hint (an [unsigned int], the
    number of requests allowed in flight) and which callbacks are
    registered. *)
Record neo4j_config := {
  username : option string;
  password : option string;
  TLS_ca_file : option string;
  TLS_ca_dir : option string;
  known_hosts_file : option string;
  trust_known_hosts : bool;
  max_pipelined_requests : Z;
  logger_provider : bool;
  unverified_host_callback : bool;
  authentication_reattempt_callback : bool
}.

(** The fields of [shell_state_t] that [main] reads or writes. *)
Record shell_state := {
  interactive : bool;
  histfile : option string;
  error_colorize : colorization;
  connect_flags : Z;
  password_prompt : bool;
  pipeline_max : Z;
  source_max_depth : Z;
  source_depth : Z;
  render : renderer;
  render_flags : Z;
  infile : option string;
  config : neo4j_config
}.

Record file_io_request := {
  filename : string;
  is_input : bool
}.

Definition NEO4J_MAX_FILE_IO_ARGS : Z := 128.

(** Constants of neo4j-client.h. *)
Definition NEO4J_LOG_WARN : Z := 1.
Definition NEO4J_LOG_DEBUG : Z := 3.
Definition NEO4J_STD_LOGGER_NO_PREFIX : Z := 1.
Definition NEO4J_INSECURE : Z := 1.
Definition NEO4J_RENDER_SHOW_NULLS : Z := 1.

(** What [getopt_long] returns at one call: the option found, with
    [optarg] for the options that take an argument. [OPT_unknown] stands
    for every value that reaches the [default:] label of the switch. *)
Inductive getopt_result :=
| OPT_h
| OPT_v
| HISTFILE_OPT (optarg : string)
| CA_FILE_OPT (optarg : string)
| CA_DIRECTORY_OPT (optarg : string)
| COLORIZE_OPT
| NO_COLORIZE_OPT
| INSECURE_OPT
| NON_INTERACTIVE_OPT
| OPT_u (optarg : string)
| OPT_p (optarg : string)
| OPT_P
| KNOWN_HOSTS_OPT (optarg : string)
| NO_KNOWN_HOSTS_OPT
| NOHIST_OPT
| PIPELINE_MAX_OPT (optarg : string)
| OPT_i (optarg : string)
| SOURCE_MAX_DEPTH_OPT (optarg : string)
| OPT_o (optarg : string)
| VERSION_OPT
| OPT_unknown.

(** The calls [main] makes that can be observed from outside, in the order
    it makes them. The calls that receive [&state] before any other part of
    the shell has run record the state they receive. *)
Inductive event :=
| Perror (msg : string)
| Neo4j_perror (msg : string)
| Usage (s : stream)
| Fprintf (s : stream) (text : string)
| Fclose_tty
| Client_init
| Std_logger_provider (level flags : Z)
| Db_connect (st : shell_state) (target : string)
| Interact (st : shell_state)
| Redirect_output (name : string)
| Source (name : string)
| Batch (st : shell_state)
| Shell_state_destroy
| Logger_provider_free
| Free (name : string)
| Client_cleanup.

(** ** The environment *)

Inductive fopen_result := Opened | Failed_ENOENT | Failed_other.

Inductive config_call :=
| Set_TLS_ca_file (path : string)
| Set_TLS_ca_dir (path : string)
| Set_username (name : string)
| Set_password (pass : string)
| Set_known_hosts_file (path : string)
| Set_trust_known_hosts (enable : bool).

(** What [db_connect] leaves behind: whether it failed, and the
    credentials held by the configuration when it returns (the
    authentication callback stores the password it reads). *)
Record connect_outcome := {
  connect_failed : bool;
  username_after : option string;
  password_after : option string
}.

Record environment := {
  fopen_tty : fopen_result;
  basename_fails : bool;
  shell_state_init_fails : bool;
  default_pipeline_max : Z;
  default_source_max_depth : Z;
  stdin_isatty : bool;
  dot_dir : option string;
  stderr_isatty : bool;
  config_call_fails : config_call -> bool;
  PACKAGE_VERSION : string;
  libneo4j_client_version : string;
  libcypher_parser_version : string;
  logger_provider_fails : bool;
  db_connect : shell_state -> string -> connect_outcome;
  interact : shell_state -> bool;
  redirect_output : string -> bool;
  source : string -> bool;
  batch : shell_state -> bool
}.

(** The local variables of [main] that outlive a statement. The slots of
    [file_io_requests] that were never written hold [None]. *)
Record frame := {
  tty : bool;
  log_level : Z;
  provider : bool;
  file_io_requests : list (option file_io_request);
  nfile_io_requests : Z;
  state : shell_state
}.

(** Where control goes after a statement: on to the next one, to the
    [cleanup] label with the current [result], out of the process through
    [exit], or nowhere defined, when [file_io_requests] is accessed outside
    its bounds or at a slot never written. *)
Inductive control :=
| Next (fr : frame)
| Goto_cleanup (result : exit_code) (fr : frame)
| Exit_now (code : exit_code)
| Fault.

Inductive termination := Exit (code : exit_code) | Undefined.

Definition run : Type := list event * control.

Definition bind (m : run) (k : frame -> run) : run :=
  match m with
  | (ev, Next fr) => let '(ev', c) := k fr in (ev ++ ev', c)
  | other => other
  end.

Infix ";>" := bind (at level 50, left associativity).


(** ** Assignments to one field of a record *)

Definition set_username x (c : neo4j_config) : neo4j_config :=
  {| username := x; password := password c; TLS_ca_file := TLS_ca_file c;
     TLS_ca_dir := TLS_ca_dir c; known_hosts_file := known_hosts_file c;
     trust_known_hosts := trust_known_hosts c;
     max_pipelined_requests := max_pipelined_requests c;
     logger_provider := logger_provider c;
     unverified_host_callback := unverified_host_callback c;
     authentication_reattempt_callback := authentication_reattempt_callback c |}.

Definition set_password x (c : neo4j_config) : neo4j_config :=
  {| username := username c; password := x; TLS_ca_file := TLS_ca_file c;
     TLS_ca_dir := TLS_ca_dir c; known_hosts_file := known_hosts_file c;
     trust_known_hosts := trust_known_hosts c;
     max_pipelined_requests := max_pipelined_requests c;
     logger_provider := logger_provider c;
     unverified_host_callback := unverified_host_callback c;
     authentication_reattempt_callback := authentication_reattempt_callback c |}.

Definition set_TLS_ca_file x (c : neo4j_config) : neo4j_config :=
  {| username := username c; password := password c; TLS_ca_file := x;
     TLS_ca_dir := TLS_ca_dir c; known_hosts_file := known_hosts_file c;
     trust_known_hosts := trust_known_hosts c;
     max_pipelined_requests := max_pipelined_requests c;
     logger_provider := logger_provider c;
     unverified_host_callback := unverified_host_callback c;
     authentication_reattempt_callback := authentication_reattempt_callback c |}.

Definition set_TLS_ca_dir x (c : neo4j_config) : neo4j_config :=
  {| username := username c; password := password c;
     TLS_ca_file := TLS_ca_file c; TLS_ca_dir := x;
     known_hosts_file := known_hosts_file c;
     trust_known_hosts := trust_known_hosts c;
     max_pipelined_requests := max_pipelined_requests c;
     logger_provider := logger_provider c;
     unverified_host_callback := unverified_host_callback c;
     authentication_reattempt_callback := authentication_reattempt_callback c |}.

Definition set_known_hosts_file x (c : neo4j_config) : neo4j_config :=
  {| username := username c; password := password c;
     TLS_ca_file := TLS_ca_file c; TLS_ca_dir := TLS_ca_dir c;
     known_hosts_file := x; trust_known_hosts := trust_known_hosts c;
     max_pipelined_requests := max_pipelined_requests c;
     logger_provider := logger_provider c;
     unverified_host_callback := unverified_host_callback c;
     authentication_reattempt_callback := authentication_reattempt_callback c |}.

Definition set_trust_known_hosts x (c : neo4j_config) : neo4j_config :=
  {| username := username c; password := password c;
     TLS_ca_file := TLS_ca_file c; TLS_ca_dir := TLS_ca_dir c;
     known_hosts_file := known_hosts_file c; trust_known_hosts := x;
     max_pipelined_requests := max_pipelined_requests c;
     logger_provider := logger_provider c;
     unverified_host_callback := unverified_host_callback c;
     authentication_reattempt_callback := authentication_reattempt_callback c |}.

Definition set_max_pipelined_requests x (c : neo4j_config) : neo4j_config :=
  {| username := username c; password := password c;
     TLS_ca_file := TLS_ca_file c; TLS_ca_dir := TLS_ca_dir c;
     known_hosts_file := known_hosts_file c;
     trust_known_hosts := trust_known_hosts c;
     max_pipelined_requests := x; logger_provider := logger_provider c;
     unverified_host_callback := unverified_host_callback c;
     authentication_reattempt_callback := authentication_reattempt_callback c |}.

Definition set_logger_provider x (c : neo4j_config) : neo4j_config :=
  {| username := username c; password := password c;
     TLS_ca_file := TLS_ca_file c; TLS_ca_dir := TLS_ca_dir c;
     known_hosts_file := known_hosts_file c;
     trust_known_hosts := trust_known_hosts c;
     max_pipelined_requests := max_pipelined_requests c;
     logger_provider := x;
     unverified_host_callback := unverified_host_callback c;
     authentication_reattempt_callback := authentication_reattempt_callback c |}.

Definition set_unverified_host_callback x (c : neo4j_config) : neo4j_config :=
  {| username := username c; password := password c;
     TLS_ca_file := TLS_ca_file c; TLS_ca_dir := TLS_ca_dir c;
     known_hosts_file := known_hosts_file c;
     trust_known_hosts := trust_known_hosts c;
     max_pipelined_requests := max_pipelined_requests c;
     logger_provider := logger_provider c; unverified_host_callback := x;
     authentication_reattempt_callback := authentication_reattempt_callback c |}.

Definition set_authentication_reattempt_callback x (c : neo4j_config) : neo4j_config :=
  {| username := username c; password := password c;
     TLS_ca_file := TLS_ca_file c; TLS_ca_dir := TLS_ca_dir c;
     known_hosts_file := known_hosts_file c;
     trust_known_hosts := trust_known_hosts c;
     max_pipelined_requests := max_pipelined_requests c;
     logger_provider := logger_provider c;
     unverified_host_callback := unverified_host_callback c;
     authentication_reattempt_callback := x |}.

Definition set_interactive x (s : shell_state) : shell_state :=
  {| interactive := x; histfile := histfile s;
     error_colorize := error_colorize s; connect_flags := connect_flags s;
     password_prompt := password_prompt s; pipeline_max := pipeline_max s;
     source_max_depth := source_max_depth s;
     source_depth := source_depth s; render := render s;
     render_flags := render_flags s; infile := infile s;
     config := config s |}.

Definition set_histfile x (s : shell_state) : shell_state :=
  {| interactive := interactive s; histfile := x;
     error_colorize := error_colorize s; connect_flags := connect_flags s;
     password_prompt := password_prompt s; pipeline_max := pipeline_max s;
     source_max_depth := source_max_depth s;
     source_depth := source_depth s; render := render s;
     render_flags := render_flags s; infile := infile s;
     config := config s |}.

Definition set_error_colorize x (s : shell_state) : shell_state :=
  {| interactive := interactive s; histfile := histfile s;
     error_colorize := x; connect_flags := connect_flags s;
     password_prompt := password_prompt s; pipeline_max := pipeline_max s;
     source_max_depth := source_max_depth s;
     source_depth := source_depth s; render := render s;
     render_flags := render_flags s; infile := infile s;
     config := config s |}.

Definition set_connect_flags x (s : shell_state) : shell_state :=
  {| interactive := interactive s; histfile := histfile s;
     error_colorize := error_colorize s; connect_flags := x;
     password_prompt := password_prompt s; pipeline_max := pipeline_max s;
     source_max_depth := source_max_depth s;
     source_depth := source_depth s; render := render s;
     render_flags := render_flags s; infile := infile s;
     config := config s |}.

Definition set_password_prompt x (s : shell_state) : shell_state :=
  {| interactive := interactive s; histfile := histfile s;
     error_colorize := error_colorize s; connect_flags := connect_flags s;
     password_prompt := x; pipeline_max := pipeline_max s;
     source_max_depth := source_max_depth s;
     source_depth := source_depth s; render := render s;
     render_flags := render_flags s; infile := infile s;
     config := config s |}.

Definition set_pipeline_max x (s : shell_state) : shell_state :=
  {| interactive := interactive s; histfile := histfile s;
     error_colorize := error_colorize s; connect_flags := connect_flags s;
     password_prompt := password_prompt s; pipeline_max := x;
     source_max_depth := source_max_depth s;
     source_depth := source_depth s; render := render s;
     render_flags := render_flags s; infile := infile s;
     config := config s |}.

Definition set_source_max_depth x (s : shell_state) : shell_state :=
  {| interactive := interactive s; histfile := histfile s;
     error_colorize := error_colorize s; connect_flags := connect_flags s;
     password_prompt := password_prompt s; pipeline_max := pipeline_max s;
     source_max_depth := x; source_depth := source_depth s;
     render := render s; render_flags := render_flags s;
     infile := infile s; config := config s |}.

Definition set_source_depth x (s : shell_state) : shell_state :=
  {| interactive := interactive s; histfile := histfile s;
     error_colorize := error_colorize s; connect_flags := connect_flags s;
     password_prompt := password_prompt s; pipeline_max := pipeline_max s;
     source_max_depth := source_max_depth s; source_depth := x;
     render := render s; render_flags := render_flags s;
     infile := infile s; config := config s |}.

Definition set_render x (s : shell_state) : shell_state :=
  {| interactive := interactive s; histfile := histfile s;
     error_colorize := error_colorize s; connect_flags := connect_flags s;
     password_prompt := password_prompt s; pipeline_max := pipeline_max s;
     source_max_depth := source_max_depth s;
     source_depth := source_depth s; render := x;
     render_flags := render_flags s; infile := infile s;
     config := config s |}.

Definition set_render_flags x (s : shell_state) : shell_state :=
  {| interactive := interactive s; histfile := histfile s;
     error_colorize := error_colorize s; connect_flags := connect_flags s;
     password_prompt := password_prompt s; pipeline_max := pipeline_max s;
     source_max_depth := source_max_depth s;
     source_depth := source_depth s; render := render s;
     render_flags := x; infile := infile s; config := config s |}.

Definition set_infile x (s : shell_state) : shell_state :=
  {| interactive := interactive s; histfile := histfile s;
     error_colorize := error_colorize s; connect_flags := connect_flags s;
     password_prompt := password_prompt s; pipeline_max := pipeline_max s;
     source_max_depth := source_max_depth s;
     source_depth := source_depth s; render := render s;
     render_flags := render_flags s; infile := x; config := config s |}.

Definition set_config x (s : shell_state) : shell_state :=
  {| interactive := interactive s; histfile := histfile s;
     error_colorize := error_colorize s; connect_flags := connect_flags s;
     password_prompt := password_prompt s; pipeline_max := pipeline_max s;
     source_max_depth := source_max_depth s;
     source_depth := source_depth s; render := render s;
     render_flags := render_flags s; infile := infile s; config := x |}.

Definition set_tty x (fr : frame) : frame :=
  {| tty := x; log_level := log_level fr; provider := provider fr;
     file_io_requests := file_io_requests fr;
     nfile_io_requests := nfile_io_requests fr; state := state fr |}.

Definition set_log_level x (fr : frame) : frame :=
  {| tty := tty fr; log_level := x; provider := provider fr;
     file_io_requests := file_io_requests fr;
     nfile_io_requests := nfile_io_requests fr; state := state fr |}.

Definition set_provider x (fr : frame) : frame :=
  {| tty := tty fr; log_level := log_level fr; provider := x;
     file_io_requests := file_io_requests fr;
     nfile_io_requests := nfile_io_requests fr; state := state fr |}.

Definition set_file_io_requests x (fr : frame) : frame :=
  {| tty := tty fr; log_level := log_level fr; provider := provider fr;
     file_io_requests := x; nfile_io_requests := nfile_io_requests fr;
     state := state fr |}.

Definition set_nfile_io_requests x (fr : frame) : frame :=
  {| tty := tty fr; log_level := log_level fr; provider := provider fr;
     file_io_requests := file_io_requests fr; nfile_io_requests := x;
     state := state fr |}.

Definition set_state x (fr : frame) : frame :=
  {| tty := tty fr; log_level := log_level fr; provider := provider fr;
     file_io_requests := file_io_requests fr;
     nfile_io_requests := nfile_io_requests fr; state := x |}.

(** ** The diagnostics *)

Definition nl : string := String (ascii_of_nat 10) EmptyString.

Definition dangling_output_message : string :=
  "--output/-o must be followed by --source/-i" +:+ nl.

Definition invalid_message (what optarg : string) : string :=
  "Invalid " +:+ what +:+ " '" +:+ optarg +:+ "'" +:+ nl.

Definition no_tty_message : string :=
  "Cannot prompt for a password without a tty" +:+ nl.

Definition too_many_message : string :=
  "Too many --source and/or --output args" +:+ nl.

(** ** [main], statement by statement *)

Definition on_state (f : shell_state -> shell_state) (fr : frame) : frame :=
  set_state (f (state fr)) fr.

Definition on_config (f : neo4j_config -> neo4j_config) (fr : frame) : frame :=
  on_state (fun s => set_config (f (config s)) s) fr.

Definition goto_cleanup (ev : list event) (fr : frame) : run :=
  (ev, Goto_cleanup EXIT_FAILURE fr).

Definition continue (fr : frame) : run := ([], Next fr).

(** Modelled from the spec: the setters of the client library, which are
    not among the sources; each stores its argument in the field it names,
    replacing what the field held. *)
Definition apply_config_call (call : config_call) (c : neo4j_config)
  : neo4j_config :=
  match call with
  | Set_TLS_ca_file path => set_TLS_ca_file (Some path) c
  | Set_TLS_ca_dir path => set_TLS_ca_dir (Some path) c
  | Set_username name => set_username (Some name) c
  | Set_password pass => set_password (Some pass) c
  | Set_known_hosts_file path => set_known_hosts_file (Some path) c
  | Set_trust_known_hosts enable => set_trust_known_hosts enable c
  end.

(** [if (neo4j_config_set_...(state.config, ...)) { neo4j_perror (...);
    goto cleanup; } break;] *)
Definition neo4j_config_set (env : environment) (call : config_call)
    (fr : frame) : run :=
  if config_call_fails env call
  then goto_cleanup [Neo4j_perror "unexpected error"] fr
  else continue (on_config (apply_config_call call) fr).

(** [file_io_requests[nfile_io_requests] = r; ++nfile_io_requests;] *)
Definition store_request (r : file_io_request) (fr : frame) : control :=
  let i := Z.to_nat (nfile_io_requests fr) in
  match file_io_requests fr !! i with
  | Some _ =>
      Next (set_nfile_io_requests (Int.to_unsigned (nfile_io_requests fr + 1))
              (set_file_io_requests (<[i := Some r]> (file_io_requests fr)) fr))
  | None => Fault
  end.

(** The part that [case 'i'] and [case 'o'] share: the guard, the store
    and the increment. *)
Definition add_file_io_request (input : bool) (optarg : string) (fr : frame)
  : run :=
  if NEO4J_MAX_FILE_IO_ARGS <=? nfile_io_requests fr
  then goto_cleanup [Fprintf state_err too_many_message] fr
  else ([], store_request {| filename := optarg; is_input := input |} fr).

(** [int arg = atoi (optarg); if (arg < 1) { fprintf (...); goto cleanup; }] *)
Definition positive_arg (what optarg : string) (fr : frame)
    (k : Z -> frame) : run :=
  let arg := Atoi.atoi optarg in
  if arg <? 1
  then goto_cleanup [Fprintf state_err (invalid_message what optarg)] fr
  else continue (k arg).

(** The body of the [switch (c)] of the option loop. *)
Definition handle_option (env : environment) (c : getopt_result) (fr : frame)
  : run :=
  match c with
  | OPT_h => ([Usage state_out], Goto_cleanup EXIT_SUCCESS fr)
  | OPT_v => continue (set_log_level (Int.to_uint8 (log_level fr + 1)) fr)
  | HISTFILE_OPT optarg =>
      continue (on_state (set_histfile
                  match optarg with
                  | EmptyString => None
                  | _ => Some optarg
                  end) fr)
  | CA_FILE_OPT optarg => neo4j_config_set env (Set_TLS_ca_file optarg) fr
  | CA_DIRECTORY_OPT optarg => neo4j_config_set env (Set_TLS_ca_dir optarg) fr
  | COLORIZE_OPT =>
      continue (on_state (set_error_colorize ansi_error_colorization) fr)
  | NO_COLORIZE_OPT =>
      continue (on_state (set_error_colorize no_error_colorization) fr)
  | INSECURE_OPT =>
      continue (on_state (fun s =>
        set_connect_flags (Z.lor (connect_flags s) NEO4J_INSECURE) s) fr)
  | NON_INTERACTIVE_OPT =>
      let fr := on_state (set_interactive false) fr in
      if tty fr then ([Fclose_tty], Next (set_tty false fr)) else continue fr
  | OPT_u optarg => neo4j_config_set env (Set_username optarg) fr
  | OPT_p optarg => neo4j_config_set env (Set_password optarg) fr
  | OPT_P =>
      if negb (tty fr)
      then goto_cleanup [Fprintf state_err no_tty_message] fr
      else continue (on_state (set_password_prompt true) fr)
  | KNOWN_HOSTS_OPT optarg =>
      neo4j_config_set env (Set_known_hosts_file optarg) fr
  | NO_KNOWN_HOSTS_OPT => neo4j_config_set env (Set_trust_known_hosts false) fr
  | NOHIST_OPT => continue (on_state (set_histfile None) fr)
  | PIPELINE_MAX_OPT optarg =>
      positive_arg "pipeline-max" optarg fr (fun arg =>
        on_config (set_max_pipelined_requests
                     (Int.to_unsigned (Int.mul arg 2)))
          (on_state (set_pipeline_max arg) fr))
  | OPT_i optarg =>
      add_file_io_request true optarg (on_state (set_interactive false) fr)
  | SOURCE_MAX_DEPTH_OPT optarg =>
      positive_arg "source-max-depth" optarg fr (fun arg =>
        on_state (set_source_max_depth arg) fr)
  | OPT_o optarg => add_file_io_request false optarg fr
  | VERSION_OPT =>
      ([Fprintf state_out ("neo4j-client: " +:+ PACKAGE_VERSION env +:+ nl);
        Fprintf state_out
          ("libneo4j-client: " +:+ libneo4j_client_version env +:+ nl);
        Fprintf state_out
          ("libcypher-parser: " +:+ libcypher_parser_version env +:+ nl)],
       Goto_cleanup EXIT_SUCCESS fr)
  | OPT_unknown => goto_cleanup [Usage state_err] fr
  end.

(** [while ((c = getopt_long (...)) >= 0) switch (c) ...], over the values
    [getopt_long] returns. *)
Fixpoint getopt_loop (env : environment) (opts : list getopt_result)
    (fr : frame) : run :=
  match opts with
  | [] => continue fr
  | c :: rest => handle_option env c fr ;> getopt_loop env rest
  end.

(** Reading [file_io_requests[i]]. *)
Definition load_request (fr : frame) (i : Z) : option file_io_request :=
  if (0 <=? i) && (i <? NEO4J_MAX_FILE_IO_ARGS)
  then default None (file_io_requests fr !! Z.to_nat i)
  else None.

(** [if (nfile_io_requests > 0 &&
         !file_io_requests[nfile_io_requests-1].is_input) ...] *)
Definition check_last_request (fr : frame) : run :=
  if 0 <? nfile_io_requests fr then
    match load_request fr (nfile_io_requests fr - 1) with
    | Some r =>
        if negb (is_input r)
        then goto_cleanup [Fprintf state_err dangling_output_message] fr
        else continue fr
    | None => ([], Fault)
    end
  else continue fr.

(** [argc -= optind; argv += optind; if (argc > 1) ...]: [positional] is
    what is left of [argv] once the options are taken out. *)
Definition check_positional (positional : list string) (fr : frame) : run :=
  if 1 <? Z.of_nat (length positional)
  then goto_cleanup [Usage state_err] fr
  else continue fr.

Definition logger_flags (fr : frame) : Z :=
  if log_level fr <? NEO4J_LOG_DEBUG then NEO4J_STD_LOGGER_NO_PREFIX else 0.

Definition setup_logger (env : environment) (fr : frame) : run :=
  let call := Std_logger_provider (log_level fr) (logger_flags fr) in
  if logger_provider_fails env
  then goto_cleanup [call; Neo4j_perror "unexpected error"] fr
  else ([call],
        Next (on_config (set_logger_provider true) (set_provider true fr))).

(** [if (state.interactive) state.password_prompt = true;] *)
Definition default_password_prompt (fr : frame) : run :=
  if interactive (state fr)
  then continue (on_state (set_password_prompt true) fr)
  else continue fr.

(** [if (tty != NULL) { ...unverified_host_callback...;
       if (state.password_prompt) ...authentication_reattempt_callback... }] *)
Definition register_callbacks (fr : frame) : run :=
  if tty fr then
    let fr := on_config (set_unverified_host_callback true) fr in
    if password_prompt (state fr)
    then continue (on_config (set_authentication_reattempt_callback true) fr)
    else continue fr
  else continue fr.

(** [if (argc >= 1 && db_connect (&state, argv[0])) goto cleanup;] *)
Definition connect (env : environment) (positional : list string)
    (fr : frame) : run :=
  match positional with
  | [] => continue fr
  | target :: _ =>
      let o := db_connect env (state fr) target in
      let fr' := on_config (fun c =>
                   set_password (password_after o)
                     (set_username (username_after o) c)) fr in
      ([Db_connect (state fr) target],
       if connect_failed o then Goto_cleanup EXIT_FAILURE fr' else Next fr')
  end.

(** [neo4j_config_set_password (state.config, NULL)], which cannot fail. *)
Definition remove_password (fr : frame) : run :=
  continue (on_config (set_password None) fr).

(** The three branches that follow. *)
Inductive mode := Interactive | FileIoPipeline | StdinBatch.

Definition select_mode (fr : frame) : mode :=
  if interactive (state fr) then Interactive
  else if 0 <? nfile_io_requests fr then FileIoPipeline
  else StdinBatch.

Definition run_interactive (env : environment) (fr : frame) : run :=
  let fr := on_state (fun s =>
              set_source_depth 1
                (set_infile (Some "<interactive>")
                   (set_render_flags NEO4J_RENDER_SHOW_NULLS
                      (set_render render_results_table s)))) fr in
  ([Interact (state fr)],
   if interact env (state fr) then Goto_cleanup EXIT_FAILURE fr else Next fr).

(** [for (unsigned int i = 0; i < nfile_io_requests; ++i) ...], with
    [left] iterations to go. *)
Fixpoint replay_requests (env : environment) (i : Z) (left : nat)
    (fr : frame) : run :=
  match left with
  | O => continue fr
  | S left' =>
      match load_request fr i with
      | Some r =>
          (if negb (is_input r)
           then ([Redirect_output (filename r)],
                 if redirect_output env (filename r)
                 then Goto_cleanup EXIT_FAILURE fr else Next fr)
           else ([Source (filename r)],
                 if source env (filename r)
                 then Goto_cleanup EXIT_FAILURE fr else Next fr))
          ;> replay_requests env (Int.to_unsigned (i + 1)) left'
      | None => ([], Fault)
      end
  end.

Definition run_file_io (env : environment) (fr : frame) : run :=
  let fr := on_state (set_render render_results_csv) fr in
  replay_requests env 0 (Z.to_nat (nfile_io_requests fr)) fr.

Definition run_batch (env : environment) (fr : frame) : run :=
  let fr := on_state (fun s =>
              set_source_depth 1
                (set_infile (Some "<stdin>")
                   (set_render render_results_csv s))) fr in
  ([Batch (state fr)],
   if batch env (state fr) then Goto_cleanup EXIT_FAILURE fr else Next fr).

Definition run_mode (env : environment) (fr : frame) : run :=
  match select_mode fr with
  | Interactive => run_interactive env fr
  | FileIoPipeline => run_file_io env fr
  | StdinBatch => run_batch env fr
  end.

(** The statements under the [cleanup:] label. *)
Fixpoint free_filenames (fr : frame) (i : Z) (left : nat)
  : option (list event) :=
  match left with
  | O => Some []
  | S left' =>
      match load_request fr i with
      | Some r =>
          option_map (cons (Free (filename r)))
            (free_filenames fr (Int.to_unsigned (i + 1)) left')
      | None => None
      end
  end.

Definition cleanup (result : exit_code) (ev : list event) (fr : frame)
  : list event * termination :=
  match free_filenames fr 0 (Z.to_nat (nfile_io_requests fr)) with
  | Some frees =>
      (ev ++ [Shell_state_destroy]
          ++ (if provider fr then [Logger_provider_free] else [])
          ++ frees
          ++ (if tty fr then [Fclose_tty] else [])
          ++ [Client_cleanup],
       Exit result)
  | None => (ev ++ [Shell_state_destroy]
                ++ (if provider fr then [Logger_provider_free] else []),
             Undefined)
  end.

(** Modelled from the spec: [neo4j_new_config] and [shell_state_init]
    (state.c is not among the sources). The nesting depth starts at 0, the
    two limits at their defaults, nothing else is set. *)
Definition new_config : neo4j_config :=
  {| username := None; password := None; TLS_ca_file := None;
     TLS_ca_dir := None; known_hosts_file := None; trust_known_hosts := true;
     max_pipelined_requests := 0; logger_provider := false;
     unverified_host_callback := false;
     authentication_reattempt_callback := false |}.

Definition shell_state_init (env : environment) : shell_state :=
  {| interactive := false; histfile := None;
     error_colorize := no_error_colorization; connect_flags := 0;
     password_prompt := false;
     pipeline_max := default_pipeline_max env;
     source_max_depth := default_source_max_depth env;
     source_depth := 0; render := render_unset; render_flags := 0;
     infile := None; config := new_config |}.

(** The locals of [main] as they are declared. *)
Definition initial_frame (env : environment) : frame :=
  {| tty := match fopen_tty env with Opened => true | _ => false end;
     log_level := NEO4J_LOG_WARN;
     provider := false;
     file_io_requests := replicate (Z.to_nat NEO4J_MAX_FILE_IO_ARGS) None;
     nfile_io_requests := 0;
     state := shell_state_init env |}.

(** Lines 137 to 181: /dev/tty, the program name, [shell_state_init],
    [isatty] of the standard input, the history file, the colour of the
    diagnostics. *)
Definition startup (env : environment) : run :=
  match fopen_tty env with
  | Failed_other => ([Perror "can't open /dev/tty"], Exit_now EXIT_FAILURE)
  | _ =>
  if basename_fails env
  then ([Perror "unexpected error"], Exit_now EXIT_FAILURE)
  else
    let fr := initial_frame env in
    if shell_state_init_fails env
    then goto_cleanup [Client_init; Neo4j_perror "unexpected error"] fr
    else
      let fr := on_state (set_interactive (stdin_isatty env)) fr in
      match dot_dir env with
      | None => goto_cleanup [Client_init; Neo4j_perror "unexpected error"] fr
      | Some path =>
          let fr := on_state (set_histfile (Some path)) fr in
          ([Client_init],
           Next (if stderr_isatty env
                 then on_state (set_error_colorize ansi_error_colorization) fr
                 else fr))
      end
  end.

(** The option loop from a fresh start: lines 137 to 326. *)
Definition parse_options (env : environment) (opts : list getopt_result)
  : run :=
  startup env ;> getopt_loop env opts.

(** Lines 328 to 384: what stands between the option loop and the choice
    of the mode. *)
Definition after_options (env : environment) (positional : list string)
    (fr : frame) : run :=
  check_last_request fr
  ;> check_positional positional
  ;> setup_logger env
  ;> default_password_prompt
  ;> register_callbacks
  ;> connect env positional
  ;> remove_password.

(** Everything from the start of [main] up to the choice of the mode. *)
Definition before_mode (env : environment) (opts : list getopt_result)
    (positional : list string) : run :=
  parse_options env opts ;> after_options env positional.

(** [result = EXIT_SUCCESS] when the last statement falls through, then
    the [cleanup:] label. *)
Definition finish (r : run) : list event * termination :=
  match r with
  | (ev, Next fr) => cleanup EXIT_SUCCESS ev fr
  | (ev, Goto_cleanup result fr) => cleanup result ev fr
  | (ev, Exit_now code) => (ev, Exit code)
  | (ev, Fault) => (ev, Undefined)
  end.

Definition main (env : environment) (opts : list getopt_result)
    (positional : list string) : list event * termination :=
  finish (before_mode env opts positional ;> run_mode env).

(** ** Two environments to run [main] in

    [terminal_env]: a terminal on every stream and /dev/tty opened;
    [detached_env]: no terminal at all. Nothing fails in either. *)

Definition quiet_connect (st : shell_state) (target : string)
  : connect_outcome :=
  {| connect_failed := false;
     username_after := username (config st);
     password_after := password (config st) |}.

Definition terminal_env : environment :=
  {| fopen_tty := Opened; basename_fails := false;
     shell_state_init_fails := false;
     default_pipeline_max := 10; default_source_max_depth := 10;
     stdin_isatty := true; dot_dir := Some "/home/u/.neo4j/client-history";
     stderr_isatty := true; config_call_fails := fun _ => false;
     PACKAGE_VERSION := "2.2.0"; libneo4j_client_version := "2.2.0";
     libcypher_parser_version := "0.6.0";
     logger_provider_fails := false; db_connect := quiet_connect;
     interact := fun _ => false; redirect_output := fun _ => false;
     source := fun _ => false; batch := fun _ => false |}.

Definition detached_env : environment :=
  {| fopen_tty := Failed_ENOENT; basename_fails := false;
     shell_state_init_fails := false;
     default_pipeline_max := 10; default_source_max_depth := 10;
     stdin_isatty := false; dot_dir := Some "/home/u/.neo4j/client-history";
     stderr_isatty := false; config_call_fails := fun _ => false;
     PACKAGE_VERSION := "2.2.0"; libneo4j_client_version := "2.2.0";
     libcypher_parser_version := "0.6.0";
     logger_provider_fails := false; db_connect := quiet_connect;
     interact := fun _ => false; redirect_output := fun _ => false;
     source := fun _ => false; batch := fun _ => false |}.

(** ** Further inputs for the examples *)

(** An environment in which [db_connect] leaves a password behind, as
    the authentication callback does when it has prompted for one. *)
Definition prompting_connect (st : shell_state) (target : string)
  : connect_outcome :=
  {| connect_failed := false;
     username_after := username (config st);
     password_after := Some "typed at the prompt" |}.

Definition prompting_env : environment :=
  {| fopen_tty := Opened; basename_fails := false;
     shell_state_init_fails := false;
     default_pipeline_max := 10; default_source_max_depth := 10;
     stdin_isatty := true; dot_dir := Some "/home/u/.neo4j/client-history";
     stderr_isatty := true; config_call_fails := fun _ => false;
     PACKAGE_VERSION := "2.2.0"; libneo4j_client_version := "2.2.0";
     libcypher_parser_version := "0.6.0";
     logger_provider_fails := false; db_connect := prompting_connect;
     interact := fun _ => false; redirect_output := fun _ => false;
     source := fun _ => false; batch := fun _ => false |}.

(** A command line that fills the array: 128 times -o. *)
Definition full_queue : list getopt_result := repeat (OPT_o "out") 128.

Definition full_frame : frame :=
  Eval vm_compute in
    match snd (parse_options detached_env full_queue) with
    | Next fr => fr
    | _ => initial_frame detached_env
    end.

(** The state that [batch] receives under --source-max-depth 2. *)
Definition batch_state (trace : list event) : option shell_state :=
  head (omap (fun e => match e with Batch st => Some st | _ => None end)
          trace).

Definition depth_2_state : shell_state :=
  Eval vm_compute in
    default (shell_state_init detached_env)
      (batch_state
         (fst (main detached_env [SOURCE_MAX_DEPTH_OPT "2"] []))).

Definition prompted_state : shell_state :=
  Eval vm_compute in
    match fst (main prompting_env [OPT_p "secret"] ["localhost"]) with
    | [_; _; _; Interact st; _; _; _; _] => st
    | _ => shell_state_init prompting_env
    end.

(** The state that [db_connect] receives under --pipeline-max 5. *)
Definition connected_state : shell_state :=
  Eval vm_compute in
    match fst (main terminal_env [PIPELINE_MAX_OPT "5"; OPT_v]
                 ["localhost"]) with
    | [_; _; Db_connect st _; _; _; _; _; _] => st
    | _ => shell_state_init terminal_env
    end.

(** ** What a run shows *)

(** The requests that the options [-i] and [-o] stand for, in order. *)
Definition request_of (c : getopt_result) : list file_io_request :=
  match c with
  | OPT_i optarg => [{| filename := optarg; is_input := true |}]
  | OPT_o optarg => [{| filename := optarg; is_input := false |}]
  | _ => []
  end.

Definition requests_of (opts : list getopt_result) : list file_io_request :=
  flat_map request_of opts.

Definition is_non_interactive (c : getopt_result) : bool :=
  match c with NON_INTERACTIVE_OPT => true | _ => false end.

Definition is_source (c : getopt_result) : bool :=
  match c with OPT_i _ => true | _ => false end.

(** The mode an event belongs to: [interact], [redirect_output] and
    [source] from the loop over the requests, [batch]. *)
Definition mode_of_event (e : event) : option mode :=
  match e with
  | Interact _ => Some Interactive
  | Redirect_output _ | Source _ => Some FileIoPipeline
  | Batch _ => Some StdinBatch
  | _ => None
  end.

Definition mode_runs (m : mode) (trace : list event) : Prop :=
  exists e, In e trace /\ mode_of_event e = Some m.

(** An event that neither connects nor enters a mode: no file named on
    the command line is opened by it. *)
Definition quiet (e : event) : bool :=
  match e with
  | Db_connect _ _ | Interact _ | Redirect_output _ | Source _ | Batch _ =>
      false
  | _ => true
  end.

Definition no_requests (queue : list file_io_request) : bool :=
  match queue with [] => true | _ :: _ => false end.

(** The mode selector in the words of the specification (section 4.3):
    Interactive when the standard input is a terminal, no request is
    queued and --non-interactive was not given; else the pipeline when the
    queue is not empty; else the batch on standard input. *)
Definition ModeSelector (stdin_is_terminal : bool)
    (queue : list file_io_request) (non_interactive : bool) : mode :=
  if stdin_is_terminal && no_requests queue && negb non_interactive
  then Interactive
  else if negb (no_requests queue) then FileIoPipeline
  else StdinBatch.

(** The first [nfile_io_requests] slots of the array. *)
Definition queue (fr : frame) : list (option file_io_request) :=
  take (Z.to_nat (nfile_io_requests fr)) (file_io_requests fr).

(** The array holds exactly the requests [reqs]: the invariant of the
    option loop. *)
Definition holds (fr : frame) (reqs : list file_io_request) : Prop :=
  length (file_io_requests fr) = Z.to_nat NEO4J_MAX_FILE_IO_ARGS
  /\ nfile_io_requests fr = Z.of_nat (length reqs)
  /\ nfile_io_requests fr <= NEO4J_MAX_FILE_IO_ARGS
  /\ queue fr = map Some reqs.

(** An event that belongs to no mode. *)
Definition no_mode (e : event) : bool :=
  match mode_of_event e with None => true | Some _ => false end.

(** A run whose events satisfy [P] and which ends, with the array still
    holding [reqs], at the next statement or at [cleanup]. *)
Definition run_ok (P : event -> bool) (reqs : list file_io_request)
    (r : run) : Prop :=
  forallb P (fst r) = true
  /\ match snd r with
     | Next fr | Goto_cleanup _ fr => holds fr reqs
     | Exit_now _ | Fault => False
     end.

(** What the statements under [cleanup:] do when the array holds [reqs]. *)
Definition cleanup_events (fr : frame) (reqs : list file_io_request)
  : list event :=
  [Shell_state_destroy]
  ++ (if provider fr then [Logger_provider_free] else [])
  ++ map (fun r => Free (filename r)) reqs
  ++ (if tty fr then [Fclose_tty] else [])
  ++ [Client_cleanup].

Definition in_pipeline (e : event) : bool :=
  match mode_of_event e with Some FileIoPipeline => true | _ => false end.

(** The exit status that [main] returns from each way of ending. *)
Definition exit_of (k : control) : exit_code :=
  match k with
  | Next _ => EXIT_SUCCESS
  | Goto_cleanup result _ => result
  | Exit_now code => code
  | Fault => EXIT_FAILURE
  end.

Definition is_request (c : getopt_result) : bool :=
  match c with OPT_i _ | OPT_o _ => true | _ => false end.

(** Which of the two callbacks the configuration has registered. *)
Definition callbacks (fr : frame) : bool * bool :=
  (unverified_host_callback (config (state fr)),
   authentication_reattempt_callback (config (state fr))).

(** The two values that --pipeline-max sets. *)
Definition pipeline_settings (st : shell_state) : Z * Z :=
  (pipeline_max st, max_pipelined_requests (config st)).

(** ** Notions of the specification *)

(** The reading of the specification: an argument is numeric when it is
    a decimal numeral, an optional sign followed by digits and nothing
    else, and it denotes the value of that numeral. *)
Fixpoint all_digits (s : string) : bool :=
  match s with
  | String c s' => Atoi.isdigit c && all_digits s'
  | EmptyString => true
  end.

Definition numeral (s : string) : option Z :=
  let '(negative, digits) := Atoi.split_sign s in
  match digits with
  | EmptyString => None
  | _ =>
      if all_digits digits
      then Some (if negative then - Atoi.digits_value 0 digits
                 else Atoi.digits_value 0 digits)
      else None
  end.

Definition positive_numeral (s : string) : bool :=
  match numeral s with Some v => 0 <? v | None => false end.

(** Whether a digit follows the white space and the sign. *)
Definition numeric_prefix (s : string) : bool :=
  match snd (Atoi.split_sign (Atoi.skip_spaces s)) with
  | String c _ => Atoi.isdigit c
  | EmptyString => false
  end.

(** Modelled from the spec: the guard of [source] on the nesting depth
    (batch.c is not among the sources). Section 4.4: "increment the
    nesting-depth counter; if incrementing would exceed source-max-depth,
    abort that nested source attempt". *)
Definition nested_source_permitted (st : shell_state) : bool :=
  source_depth st + 1 <=? source_max_depth st.

(** The settings that an option assigns, as opposed to those it counts
    (-v), accumulates (-i, -o) or only ever switches one way. *)
Inductive setting :=
| Histfile
| Error_colorize
| Ca_file
| Ca_dir
| Username
| Password
| Known_hosts_file
| Trust_known_hosts
| Pipeline_max
| Source_max_depth.

Definition writes (c : getopt_result) : option setting :=
  match c with
  | HISTFILE_OPT _ | NOHIST_OPT => Some Histfile
  | COLORIZE_OPT | NO_COLORIZE_OPT => Some Error_colorize
  | CA_FILE_OPT _ => Some Ca_file
  | CA_DIRECTORY_OPT _ => Some Ca_dir
  | OPT_u _ => Some Username
  | OPT_p _ => Some Password
  | KNOWN_HOSTS_OPT _ => Some Known_hosts_file
  | NO_KNOWN_HOSTS_OPT => Some Trust_known_hosts
  | PIPELINE_MAX_OPT _ => Some Pipeline_max
  | SOURCE_MAX_DEPTH_OPT _ => Some Source_max_depth
  | _ => None
  end.

(** The frame with one setting blanked: two frames are alike but for the
    setting [f] when blanking [f] makes them equal. *)
Definition forget (f : setting) (fr : frame) : frame :=
  match f with
  | Histfile => on_state (set_histfile None) fr
  | Error_colorize => on_state (set_error_colorize no_error_colorization) fr
  | Ca_file => on_config (set_TLS_ca_file None) fr
  | Ca_dir => on_config (set_TLS_ca_dir None) fr
  | Username => on_config (set_username None) fr
  | Password => on_config (set_password None) fr
  | Known_hosts_file => on_config (set_known_hosts_file None) fr
  | Trust_known_hosts => on_config (set_trust_known_hosts true) fr
  | Pipeline_max =>
      on_config (set_max_pipelined_requests 0)
        (on_state (set_pipeline_max 0) fr)
  | Source_max_depth => on_state (set_source_max_depth 0) fr
  end.

Definition same_but (f : setting) (k1 k2 : control) : Prop :=
  match k1, k2 with
  | Next a, Next b => forget f a = forget f b
  | Goto_cleanup r a, Goto_cleanup r' b => r = r' /\ forget f a = forget f b
  | Exit_now c, Exit_now c' => c = c'
  | Fault, Fault => True
  | _, _ => False
  end.

(** ** The option tables *)

(** The second field of a [struct option]. *)
Inductive argument_kind := no_argument | required_argument.

Record long_option := {
  option_name : string;
  has_arg : argument_kind;
  val : Z
}.

Definition char_code (c : ascii) : Z := Z.of_nat (nat_of_ascii c).

(** The values of the [..._OPT] macros. *)
Module Code.
Definition HISTFILE_OPT : Z := 1000.
Definition CA_FILE_OPT : Z := 1001.
Definition CA_DIRECTORY_OPT : Z := 1002.
Definition INSECURE_OPT : Z := 1003.
Definition NON_INTERACTIVE_OPT : Z := 1004.
Definition KNOWN_HOSTS_OPT : Z := 1005.
Definition NO_KNOWN_HOSTS_OPT : Z := 1006.
Definition NOHIST_OPT : Z := 1007.
Definition VERSION_OPT : Z := 1008.
Definition PIPELINE_MAX_OPT : Z := 1009.
Definition SOURCE_MAX_DEPTH_OPT : Z := 1010.
Definition COLORIZE_OPT : Z := 1011.
Definition NO_COLORIZE_OPT : Z := 1012.
End Code.

Definition shortopts : string := "hi:o:p:Pu:v".

Definition longopts : list long_option :=
  [ {| option_name := "help"; has_arg := no_argument; val := char_code "h" |};
    {| option_name := "history-file"; has_arg := required_argument;
       val := Code.HISTFILE_OPT |};
    {| option_name := "no-history"; has_arg := no_argument;
       val := Code.NOHIST_OPT |};
    {| option_name := "ca-file"; has_arg := required_argument;
       val := Code.CA_FILE_OPT |};
    {| option_name := "ca-directory"; has_arg := required_argument;
       val := Code.CA_DIRECTORY_OPT |};
    {| option_name := "colorize"; has_arg := no_argument;
       val := Code.COLORIZE_OPT |};
    {| option_name := "colourise"; has_arg := no_argument;
       val := Code.COLORIZE_OPT |};
    {| option_name := "no-colorize"; has_arg := no_argument;
       val := Code.NO_COLORIZE_OPT |};
    {| option_name := "no-colourise"; has_arg := no_argument;
       val := Code.NO_COLORIZE_OPT |};
    {| option_name := "insecure"; has_arg := no_argument;
       val := Code.INSECURE_OPT |};
    {| option_name := "non-interactive"; has_arg := no_argument;
       val := Code.NON_INTERACTIVE_OPT |};
    {| option_name := "username"; has_arg := required_argument;
       val := char_code "u" |};
    {| option_name := "password"; has_arg := required_argument;
       val := char_code "p" |};
    {| option_name := "known-hosts"; has_arg := required_argument;
       val := Code.KNOWN_HOSTS_OPT |};
    {| option_name := "no-known-hosts"; has_arg := no_argument;
       val := Code.NO_KNOWN_HOSTS_OPT |};
    {| option_name := "pipeline-max"; has_arg := required_argument;
       val := Code.PIPELINE_MAX_OPT |};
    {| option_name := "source"; has_arg := required_argument;
       val := char_code "i" |};
    {| option_name := "source-max-depth"; has_arg := required_argument;
       val := Code.SOURCE_MAX_DEPTH_OPT |};
    {| option_name := "output"; has_arg := required_argument;
       val := char_code "o" |};
    {| option_name := "verbose"; has_arg := no_argument;
       val := char_code "v" |};
    {| option_name := "version"; has_arg := no_argument;
       val := Code.VERSION_OPT |} ].

(** The short options that a [getopt] string declares: a character
    followed by a colon takes an argument. *)
Fixpoint short_options (s : string) : list (ascii * argument_kind) :=
  match s with
  | String c rest =>
      match rest with
      | String d s' =>
          if (d =? ":")%char
          then (c, required_argument) :: short_options s'
          else (c, no_argument) :: short_options rest
      | EmptyString => [(c, no_argument)]
      end
  | EmptyString => []
  end.

(** The labels of [switch (c)]: which case a value returned by
    [getopt_long] selects. *)
Definition switch_label (c : Z) (optarg : string) : getopt_result :=
  if c =? char_code "h" then OPT_h
  else if c =? char_code "v" then OPT_v
  else if c =? Code.HISTFILE_OPT then HISTFILE_OPT optarg
  else if c =? Code.CA_FILE_OPT then CA_FILE_OPT optarg
  else if c =? Code.CA_DIRECTORY_OPT then CA_DIRECTORY_OPT optarg
  else if c =? Code.COLORIZE_OPT then COLORIZE_OPT
  else if c =? Code.NO_COLORIZE_OPT then NO_COLORIZE_OPT
  else if c =? Code.INSECURE_OPT then INSECURE_OPT
  else if c =? Code.NON_INTERACTIVE_OPT then NON_INTERACTIVE_OPT
  else if c =? char_code "u" then OPT_u optarg
  else if c =? char_code "p" then OPT_p optarg
  else if c =? char_code "P" then OPT_P
  else if c =? Code.KNOWN_HOSTS_OPT then KNOWN_HOSTS_OPT optarg
  else if c =? Code.NO_KNOWN_HOSTS_OPT then NO_KNOWN_HOSTS_OPT
  else if c =? Code.NOHIST_OPT then NOHIST_OPT
  else if c =? Code.PIPELINE_MAX_OPT then PIPELINE_MAX_OPT optarg
  else if c =? char_code "i" then OPT_i optarg
  else if c =? Code.SOURCE_MAX_DEPTH_OPT then SOURCE_MAX_DEPTH_OPT optarg
  else if c =? char_code "o" then OPT_o optarg
  else if c =? Code.VERSION_OPT then VERSION_OPT
  else OPT_unknown.

(** The cases of the switch that read [optarg]. *)
Definition reads_optarg (c : getopt_result) : bool :=
  match c with
  | HISTFILE_OPT _ | CA_FILE_OPT _ | CA_DIRECTORY_OPT _ | OPT_u _ | OPT_p _
  | KNOWN_HOSTS_OPT _ | PIPELINE_MAX_OPT _ | OPT_i _
  | SOURCE_MAX_DEPTH_OPT _ | OPT_o _ => true
  | _ => false
  end.

Definition takes_argument (k : argument_kind) : bool :=
  match k with required_argument => true | no_argument => false end.

(** ** Kinds of events *)

Fixpoint count_events (p : event -> bool) (ev : list event) : nat :=
  match ev with
  | [] => O
  | e :: ev' => ((if p e then 1 else 0) + count_events p ev')%nat
  end.

Definition is_fclose_tty (e : event) : bool :=
  match e with Fclose_tty => true | _ => false end.

Definition is_free (e : event) : bool :=
  match e with Free _ => true | _ => false end.

(** What [main] itself writes about an error: [perror], [neo4j_perror],
    the usage text or a message on the error stream. *)
Definition is_diagnostic (e : event) : bool :=
  match e with
  | Perror _ | Neo4j_perror _ | Usage state_err | Fprintf state_err _ => true
  | _ => false
  end.

(** The events of the option loop. *)
Definition option_event (e : event) : bool :=
  match e with
  | Usage _ | Fprintf _ _ | Neo4j_perror _ | Fclose_tty => true
  | _ => false
  end.

(** The events of the statements between the loop and the modes. *)
Definition after_event (e : event) : bool :=
  match e with
  | Usage state_err | Fprintf state_err _ | Neo4j_perror _
  | Std_logger_provider _ _ | Db_connect _ _ => true
  | _ => false
  end.

Definition mode_event (e : event) : bool :=
  match mode_of_event e with Some _ => true | None => false end.

Definition opened (env : environment) : bool :=
  match fopen_tty env with Opened => true | _ => false end.

(** ** The requests as a list *)

Definition event_of_request (r : file_io_request) : event :=
  if is_input r then Source (filename r) else Redirect_output (filename r).

Definition request_fails (env : environment) (r : file_io_request) : bool :=
  if is_input r then source env (filename r)
  else redirect_output env (filename r).

(** The requests taken in order up to and including the first that
    fails, and whether one failed. *)
Fixpoint replay (env : environment) (reqs : list file_io_request)
  : list file_io_request * bool :=
  match reqs with
  | [] => ([], false)
  | r :: rest =>
      if request_fails env r then ([r], true)
      else let '(done, failed) := replay env rest in (r :: done, failed)
  end.

(** ** What the options ask for *)

Definition is_verbose (c : getopt_result) : bool :=
  match c with OPT_v => true | _ => false end.

Definition is_password_prompt (c : getopt_result) : bool :=
  match c with OPT_P => true | _ => false end.

Definition is_insecure (c : getopt_result) : bool :=
  match c with INSECURE_OPT => true | _ => false end.

Definition colour_flag (c : getopt_result) : option colorization :=
  match c with
  | COLORIZE_OPT => Some ansi_error_colorization
  | NO_COLORIZE_OPT => Some no_error_colorization
  | _ => None
  end.

Definition history_flag (c : getopt_result) : option (option string) :=
  match c with
  | HISTFILE_OPT EmptyString | NOHIST_OPT => Some None
  | HISTFILE_OPT path => Some (Some path)
  | _ => None
  end.

(** An environment without a terminal in which reading b.cyp fails. *)
Definition failing_source_env : environment :=
  {| fopen_tty := Failed_ENOENT; basename_fails := false;
     shell_state_init_fails := false;
     default_pipeline_max := 10; default_source_max_depth := 10;
     stdin_isatty := false; dot_dir := Some "/home/u/.neo4j/client-history";
     stderr_isatty := false; config_call_fails := fun _ => false;
     PACKAGE_VERSION := "2.2.0"; libneo4j_client_version := "2.2.0";
     libcypher_parser_version := "0.6.0";
     logger_provider_fails := false; db_connect := quiet_connect;
     interact := fun _ => false; redirect_output := fun _ => false;
     source := fun name => String.eqb name "b.cyp";
     batch := fun _ => false |}.

Definition replayed_options : list getopt_result :=
  [OPT_i "a.cyp"; OPT_o "b.csv"; OPT_i "b.cyp"; OPT_i "c.cyp"].

Definition replayed_frame : frame :=
  Eval vm_compute in
    match snd (before_mode failing_source_env replayed_options []) with
    | Next fr => fr
    | _ => initial_frame failing_source_env
    end.

(** ** The states handed to the shell *)

(** The state that [db_connect], [interact] or [batch] is called with. *)
Definition state_of_event (e : event) : option shell_state :=
  match e with
  | Db_connect st _ | Interact st | Batch st => Some st
  | _ => None
  end.

(** The fields of the state that only the option loop writes. *)
Definition option_fields (st : shell_state)
  : bool * option string * colorization * Z * Z * Z * Z :=
  (interactive st, histfile st, error_colorize st, connect_flags st,
   pipeline_max st, source_max_depth st, max_pipelined_requests (config st)).

(** /dev/tty was opened and no --non-interactive closed it. *)
Definition terminal_kept (env : environment) (opts : list getopt_result)
  : bool :=
  opened env && negb (existsb is_non_interactive opts).

(** The standard input is a terminal and neither --non-interactive nor -i
    was given. *)
Definition stays_interactive (env : environment) (opts : list getopt_result)
  : bool :=
  stdin_isatty env && negb (existsb is_non_interactive opts)
  && negb (existsb is_source opts).

(** -P was given, or the shell stays interactive. *)
Definition prompt_wanted (env : environment) (opts : list getopt_result)
  : bool :=
  password_prompt (shell_state_init env)
  || existsb is_password_prompt opts
  || stays_interactive env opts.

(** Both limits of the state lie between 1 and INT_MAX. *)
Definition limits_in_range (st : shell_state) : Prop :=
  1 <= pipeline_max st <= Int.INT_MAX
  /\ 1 <= source_max_depth st <= Int.INT_MAX.

(** The state that [db_connect] receives under -P and -i on a terminal. *)
Definition asked_options : list getopt_result := [OPT_P; OPT_i "a.cyp"].

Definition asked_state : shell_state :=
  Eval vm_compute in
    match fst (main terminal_env asked_options ["localhost"]) with
    | [_; _; Db_connect st _; _; _; _; _; _; _] => st
    | _ => shell_state_init terminal_env
    end.

(** 255 times -v: the level, an uint8_t that starts at 1, comes back to 0. *)
Definition wrapping_verbosity : list getopt_result := repeat OPT_v 255.

(** The state that [interact] receives when the colour and the history
    file are both set and then unset. *)
Definition display_options : list getopt_result :=
  [COLORIZE_OPT; HISTFILE_OPT "h.txt"; NO_COLORIZE_OPT; HISTFILE_OPT ""].

Definition display_state : shell_state :=
  Eval vm_compute in
    match fst (main terminal_env display_options []) with
    | [_; _; Interact st; _; _; _; _] => st
    | _ => shell_state_init terminal_env
    end.

(** The state that [db_connect] receives under --insecure. *)
Definition insecure_state : shell_state :=
  Eval vm_compute in
    match fst (main detached_env [INSECURE_OPT] ["localhost"]) with
    | [_; _; Db_connect st _; _; _; _; _] => st
    | _ => shell_state_init detached_env
    end.

(** The state that [batch] receives under --pipeline-max 2147483647. *)
Definition widest_state : shell_state :=
  Eval vm_compute in
    match fst (main detached_env [PIPELINE_MAX_OPT "2147483647"] []) with
    | [_; _; Batch st; _; _; _] => st
    | _ => shell_state_init detached_env
    end.

(** An environment without a terminal in which [db_connect] fails. *)
Definition refused_connect (st : shell_state) (target : string)
  : connect_outcome :=
  {| connect_failed := true;
     username_after := username (config st);
     password_after := password (config st) |}.

Definition refusing_env : environment :=
  {| fopen_tty := Failed_ENOENT; basename_fails := false;
     shell_state_init_fails := false;
     default_pipeline_max := 10; default_source_max_depth := 10;
     stdin_isatty := false; dot_dir := Some "/home/u/.neo4j/client-history";
     stderr_isatty := false; config_call_fails := fun _ => false;
     PACKAGE_VERSION := "2.2.0"; libneo4j_client_version := "2.2.0";
     libcypher_parser_version := "0.6.0";
     logger_provider_fails := false; db_connect := refused_connect;
     interact := fun _ => false; redirect_output := fun _ => false;
     source := fun _ => false; batch := fun _ => false |}.

Definition refused_state : shell_state :=
  Eval vm_compute in
    match fst (main refusing_env [OPT_i "a.cyp"] ["localhost"]) with
    | [_; _; Db_connect st _; _; _; _; _] => st
    | _ => shell_state_init refusing_env
    end.

(** The setter of the client library that the case of an option calls. *)
Definition config_call_of (c : getopt_result) : option config_call :=
  match c with
  | CA_FILE_OPT optarg => Some (Set_TLS_ca_file optarg)
  | CA_DIRECTORY_OPT optarg => Some (Set_TLS_ca_dir optarg)
  | OPT_u optarg => Some (Set_username optarg)
  | OPT_p optarg => Some (Set_password optarg)
  | KNOWN_HOSTS_OPT optarg => Some (Set_known_hosts_file optarg)
  | NO_KNOWN_HOSTS_OPT => Some (Set_trust_known_hosts false)
  | _ => None
  end.

(** An environment on a terminal in which the library refuses the
    known-hosts file. *)
Definition strict_env : environment :=
  {| fopen_tty := Opened; basename_fails := false;
     shell_state_init_fails := false;
     default_pipeline_max := 10; default_source_max_depth := 10;
     stdin_isatty := true; dot_dir := Some "/home/u/.neo4j/client-history";
     stderr_isatty := true;
     config_call_fails := fun call =>
       match call with Set_known_hosts_file _ => true | _ => false end;
     PACKAGE_VERSION := "2.2.0"; libneo4j_client_version := "2.2.0";
     libcypher_parser_version := "0.6.0";
     logger_provider_fails := false; db_connect := quiet_connect;
     interact := fun _ => false; redirect_output := fun _ => false;
     source := fun _ => false; batch := fun _ => false |}.

(** An environment in which /dev/tty is there and [neo4j_dot_dir] fails. *)
Definition homeless_env : environment :=
  {| fopen_tty := Opened; basename_fails := false;
     shell_state_init_fails := false;
     default_pipeline_max := 10; default_source_max_depth := 10;
     stdin_isatty := true; dot_dir := None;
     stderr_isatty := true; config_call_fails := fun _ => false;
     PACKAGE_VERSION := "2.2.0"; libneo4j_client_version := "2.2.0";
     libcypher_parser_version := "0.6.0";
     logger_provider_fails := false; db_connect := quiet_connect;
     interact := fun _ => false; redirect_output := fun _ => false;
     source := fun _ => false; batch := fun _ => false |}.

(** ** Options that write different things *)

(** What an option writes when it does nothing else: one of the settings,
    the level of the logger, or the connect flags. *)
Inductive slot :=
| Setting (f : setting)
| Log_level
| Connect_flags.

Definition slot_of (c : getopt_result) : option slot :=
  match c with
  | OPT_v => Some Log_level
  | INSECURE_OPT => Some Connect_flags
  | _ => option_map Setting (writes c)
  end.

(** The condition under which the case of such an option goes to
    [cleanup]: a numeric argument below 1, or a setter that fails. *)
Definition setter_rejected (env : environment) (c : getopt_result) : bool :=
  match c with
  | PIPELINE_MAX_OPT optarg | SOURCE_MAX_DEPTH_OPT optarg =>
      Atoi.atoi optarg <? 1
  | _ =>
      match config_call_of c with
      | Some call => config_call_fails env call
      | None => false
      end
  end.

(** An environment on a terminal in which no logger provider can be
    created. *)
Definition mute_env : environment :=
  {| fopen_tty := Opened; basename_fails := false;
     shell_state_init_fails := false;
     default_pipeline_max := 10; default_source_max_depth := 10;
     stdin_isatty := true; dot_dir := Some "/home/u/.neo4j/client-history";
     stderr_isatty := true; config_call_fails := fun _ => false;
     PACKAGE_VERSION := "2.2.0"; libneo4j_client_version := "2.2.0";
     libcypher_parser_version := "0.6.0";
     logger_provider_fails := true; db_connect := quiet_connect;
     interact := fun _ => false; redirect_output := fun _ => false;
     source := fun _ => false; batch := fun _ => false |}.

(** The state that [interact] receives on a terminal, and the state that
    [batch] receives without one. *)
Definition interactive_state : shell_state :=
  Eval vm_compute in
    match fst (main terminal_env [] ["localhost"]) with
    | [_; _; _; Interact st; _; _; _; _] => st
    | _ => shell_state_init terminal_env
    end.

(** ** Measures on a trace and on a state *)

(** A boolean as a count: 1 for [true]. *)
Definition b2n (b : bool) : nat := if b then 1%nat else O.

(** The values of an [uint8_t]. *)
Definition uint8 (z : Z) : Prop := 0 <= z < 256.

(** The number of -v among the options. *)
Definition count_verbose (opts : list getopt_result) : nat :=
  length (List.filter is_verbose opts).

(** The calls of [db_connect] and of [neo4j_std_logger_provider]. *)
Definition is_db_connect (e : event) : bool :=
  match e with Db_connect _ _ => true | _ => false end.

Definition is_logger (e : event) : bool :=
  match e with Std_logger_provider _ _ => true | _ => false end.

(** The fields of the state that the statements after the loop leave as
    they found them. *)
Definition kept_fields (st : shell_state)
  : bool * option string * colorization * Z * Z * Z * Z * Z :=
  (interactive st, histfile st, error_colorize st, connect_flags st,
   pipeline_max st, source_max_depth st, source_depth st,
   max_pipelined_requests (config st)).

(** The password prompt and the two callbacks, as lines 358 to 373 set
    them from the flags and the terminal handle. *)
Definition prompts_after (fr : frame) (st : shell_state) : Prop :=
  password_prompt st = password_prompt (state fr) || interactive (state fr)
  /\ unverified_host_callback (config st)
     = unverified_host_callback (config (state fr)) || tty fr
  /\ authentication_reattempt_callback (config st)
     = authentication_reattempt_callback (config (state fr))
       || tty fr && (password_prompt (state fr) || interactive (state fr)).

(** The three lines that --version prints. *)
Definition version_lines (env : environment) : list event :=
  [Fprintf state_out ("neo4j-client: " +:+ PACKAGE_VERSION env +:+ nl);
   Fprintf state_out
     ("libneo4j-client: " +:+ libneo4j_client_version env +:+ nl);
   Fprintf state_out
     ("libcypher-parser: " +:+ libcypher_parser_version env +:+ nl)].

(** The names passed to [free], in the order of the calls. *)
Definition freed (trace : list event) : list string :=
  omap (fun e => match e with Free name => Some name | _ => None end) trace.

(** The calls that open and close the client library, and the two that
    release the state and the logger provider. *)
Definition is_client_call (e : event) : bool :=
  match e with Client_init | Client_cleanup => true | _ => false end.

Definition is_destroy (e : event) : bool :=
  match e with Shell_state_destroy => true | _ => false end.

Definition is_provider_free (e : event) : bool :=
  match e with Logger_provider_free => true | _ => false end.

(** The statements under [cleanup:] but the last. *)
Definition cleanup_body (fr : frame) (reqs : list file_io_request)
  : list event :=
  [Shell_state_destroy]
  ++ (if provider fr then [Logger_provider_free] else [])
  ++ map (fun r => Free (filename r)) reqs
  ++ (if tty fr then [Fclose_tty] else []).

(** ** Facts on machine integers *)

Lemma to_int_range z : Int.in_int (Int.to_int z).
Proof.
  unfold Int.in_int, Int.to_int, Int.INT_MIN, Int.INT_MAX.
  pose proof (Z.mod_pos_bound (z + 2 ^ 31) (2 ^ 32) ltac:(lia)). lia.
Qed.

Lemma to_int_id z : Int.in_int z -> Int.to_int z = z.
Proof.
  unfold Int.in_int, Int.to_int, Int.INT_MIN, Int.INT_MAX. intros H.
  rewrite Z.mod_small; lia.
Qed.

Lemma to_unsigned_id z : 0 <= z < 2 ^ 32 -> Int.to_unsigned z = z.
Proof. intros H. unfold Int.to_unsigned. apply Z.mod_small. exact H. Qed.

(** Doubling a positive [int] and passing it as an [unsigned int] gives
    the exact double, whether or not the [int] product wraps. *)
Lemma to_unsigned_double n :
  1 <= n <= Int.INT_MAX -> Int.to_unsigned (Int.mul n 2) = 2 * n.
Proof.
  unfold Int.to_unsigned, Int.mul, Int.to_int, Int.INT_MAX. intros H.
  destruct (Z_lt_ge_dec n (2 ^ 30)) as [Hs | Hb].
  - rewrite (Z.mod_small (n * 2 + 2 ^ 31)) by lia.
    rewrite Z.mod_small; lia.
  - replace (n * 2 + 2 ^ 31) with ((n * 2 - 2 ^ 31) + 1 * 2 ^ 32) by lia.
    rewrite Z.mod_add by lia.
    rewrite (Z.mod_small (n * 2 - 2 ^ 31)) by lia.
    replace (n * 2 - 2 ^ 31 - 2 ^ 31) with (n * 2 + (-1) * 2 ^ 32) by lia.
    rewrite Z.mod_add by lia.
    rewrite Z.mod_small; lia.
Qed.

Lemma atoi_range s : Int.in_int (Atoi.atoi s).
Proof. apply to_int_range. Qed.

Example atoi_digits : Atoi.atoi "5" = 5.
Proof. reflexivity. Qed.

Example atoi_prefix : Atoi.atoi "5abc" = 5.
Proof. reflexivity. Qed.

Example atoi_no_digits : Atoi.atoi "abc" = 0.
Proof. reflexivity. Qed.

Example atoi_space_and_sign : Atoi.atoi "  -12x" = -12.
Proof. reflexivity. Qed.

Example atoi_wraps : Atoi.atoi "4294967297" = 1.
Proof. reflexivity. Qed.

(** ** Sequencing *)

Lemma bind_next m k ev fr :
  m ;> k = (ev, Next fr) ->
  exists ev1 fr1 ev2,
    m = (ev1, Next fr1) /\ k fr1 = (ev2, Next fr) /\ ev = ev1 ++ ev2.
Proof.
  destruct m as [ev1 [fr1 | r fr1 | code | ]]; simpl; try discriminate.
  destruct (k fr1) as [ev2 c] eqn:Hk. intros [= <- ->].
  exists ev1, fr1, ev2. auto.
Qed.

Lemma bind_of_next ev1 fr1 k :
  (ev1, Next fr1) ;> k = (ev1 ++ fst (k fr1), snd (k fr1)).
Proof. simpl. destruct (k fr1); reflexivity. Qed.

Lemma bind_stop_cleanup ev r fr k :
  (ev, Goto_cleanup r fr) ;> k = (ev, Goto_cleanup r fr).
Proof. reflexivity. Qed.

Lemma bind_assoc m k1 k2 :
  m ;> k1 ;> k2 = m ;> (fun fr => k1 fr ;> k2).
Proof.
  destruct m as [ev [fr | r fr | code | ]]; simpl; try reflexivity.
  destruct (k1 fr) as [ev1 [fr1 | r1 fr1 | code1 | ]]; simpl; try reflexivity.
  destruct (k2 fr1) as [ev2 c2]. rewrite app_assoc. reflexivity.
Qed.

Lemma getopt_loop_app env pre post fr :
  getopt_loop env (pre ++ post) fr
  = getopt_loop env pre fr ;> getopt_loop env post.
Proof.
  revert fr. induction pre as [| c pre IH]; intros fr; simpl.
  - destruct (getopt_loop env post fr); reflexivity.
  - rewrite bind_assoc.
    destruct (handle_option env c fr) as [ev [fr1 | r fr1 | code | ]];
      simpl; try reflexivity.
    rewrite IH. reflexivity.
Qed.

Lemma parse_options_app env pre post :
  parse_options env (pre ++ post)
  = parse_options env pre ;> getopt_loop env post.
Proof.
  unfold parse_options. rewrite bind_assoc.
  destruct (startup env) as [ev [fr | r fr | code | ]]; simpl; try reflexivity.
  rewrite getopt_loop_app. reflexivity.
Qed.

(** ** The invariant of the request array *)

Lemma holds_frame fr fr' reqs :
  file_io_requests fr' = file_io_requests fr ->
  nfile_io_requests fr' = nfile_io_requests fr ->
  holds fr reqs -> holds fr' reqs.
Proof. unfold holds, queue. intros -> ->. auto. Qed.

Lemma holds_initial env : holds (initial_frame env) [].
Proof. unfold holds, queue. simpl. repeat split; try reflexivity. discriminate. Qed.

Lemma holds_load fr reqs (n : nat) r :
  holds fr reqs -> reqs !! n = Some r ->
  load_request fr (Z.of_nat n) = Some r.
Proof.
  intros (Hlen & Hn & Hmax & Hq) Hr.
  pose proof (lookup_lt_Some _ _ _ Hr) as Hlt.
  unfold load_request.
  replace (0 <=? Z.of_nat n) with true by (symmetry; apply Z.leb_le; lia).
  replace (Z.of_nat n <? NEO4J_MAX_FILE_IO_ARGS) with true
    by (symmetry; apply Z.ltb_lt; lia).
  simpl. rewrite Nat2Z.id.
  assert (Hk : queue fr !! n = Some (Some r)).
  { rewrite Hq, list_lookup_fmap, Hr. reflexivity. }
  unfold queue in Hk. rewrite lookup_take_lt in Hk by lia.
  rewrite Hk. reflexivity.
Qed.

Lemma store_request_holds fr reqs r :
  holds fr reqs -> nfile_io_requests fr < NEO4J_MAX_FILE_IO_ARGS ->
  exists fr',
    store_request r fr = Next fr'
    /\ state fr' = state fr /\ tty fr' = tty fr
    /\ log_level fr' = log_level fr /\ provider fr' = provider fr
    /\ holds fr' (reqs ++ [r]).
Proof.
  intros (Hlen & Hn & Hmax & Hq) Hlt. unfold store_request.
  assert (Hi : (Z.to_nat (nfile_io_requests fr) < length (file_io_requests fr))%nat).
  { rewrite Hlen. unfold NEO4J_MAX_FILE_IO_ARGS in *. lia. }
  destruct (lookup_lt_is_Some_2 _ _ Hi) as [x Hx]. rewrite Hx.
  eexists. split; [reflexivity |]. simpl. repeat split; try reflexivity;
    unfold queue; cbn [file_io_requests nfile_io_requests
                       set_nfile_io_requests set_file_io_requests].
  - rewrite length_insert. exact Hlen.
  - rewrite to_unsigned_id by (unfold NEO4J_MAX_FILE_IO_ARGS in *; lia).
    rewrite length_app. simpl. lia.
  - rewrite to_unsigned_id by (unfold NEO4J_MAX_FILE_IO_ARGS in *; lia). lia.
  - unfold queue in Hq.
    rewrite to_unsigned_id by (unfold NEO4J_MAX_FILE_IO_ARGS in *; lia).
    replace (Z.to_nat (nfile_io_requests fr + 1))
      with (S (Z.to_nat (nfile_io_requests fr))) by lia.
    rewrite (take_S_r _ _ (Some r)).
    + rewrite take_insert_ge by lia. rewrite Hq, map_app. reflexivity.
    + apply list_lookup_insert_eq. exact Hi.
Qed.

(** ** One turn of the option loop *)

Ltac unfold_step :=
  unfold neo4j_config_set, positive_arg, add_file_io_request,
    goto_cleanup, continue in *.

Lemma add_file_io_request_holds input optarg fr reqs ev k :
  holds fr reqs ->
  add_file_io_request input optarg fr = (ev, k) ->
  (NEO4J_MAX_FILE_IO_ARGS <= nfile_io_requests fr
   /\ ev = [Fprintf state_err too_many_message]
   /\ k = Goto_cleanup EXIT_FAILURE fr)
  \/ (nfile_io_requests fr < NEO4J_MAX_FILE_IO_ARGS /\ ev = []
      /\ exists fr', k = Next fr'
         /\ state fr' = state fr /\ tty fr' = tty fr
         /\ log_level fr' = log_level fr /\ provider fr' = provider fr
         /\ holds fr'
              (reqs ++ [{| filename := optarg; is_input := input |}])).
Proof.
  intros Hh. unfold add_file_io_request, goto_cleanup.
  destruct (NEO4J_MAX_FILE_IO_ARGS <=? nfile_io_requests fr) eqn:Hg.
  - apply Z.leb_le in Hg. intros [= <- <-]. left. auto.
  - apply Z.leb_gt in Hg. intros [= <- <-]. right.
    destruct (store_request_holds fr reqs
                {| filename := optarg; is_input := input |} Hh Hg)
      as (fr' & -> & Hrest).
    repeat split; try assumption. exists fr'. auto.
Qed.

(** A turn that falls through keeps the invariant, with the request of
    the option added; the terminal handle and the interactive flag can
    only be cleared. *)
Lemma handle_option_next env c fr reqs ev fr' :
  holds fr reqs ->
  handle_option env c fr = (ev, Next fr') ->
  holds fr' (reqs ++ request_of c)
  /\ tty fr' = tty fr && negb (is_non_interactive c)
  /\ interactive (state fr')
     = interactive (state fr) && negb (is_non_interactive c)
       && negb (is_source c)
  /\ provider fr' = provider fr.
Proof.
  intros Hh H.
  destruct c; simpl in H;
    try (apply add_file_io_request_holds with (reqs := reqs) in H;
         [ destruct H as [(_ & _ & [=]) | (_ & _ & fr1 & [= <-] & Hs & Ht & _ & Hp & Hh1)];
           rewrite Hs, Ht, Hp; simpl;
           rewrite ?andb_true_r, ?andb_false_r; auto
         | eapply holds_frame; [ | | exact Hh]; reflexivity ]);
    unfold_step; repeat case_match; simplify_eq; simpl;
    rewrite ?app_nil_r, ?andb_true_r, ?andb_false_r;
    repeat split; try reflexivity; try assumption;
    try (eapply holds_frame; [ | | exact Hh]; reflexivity).
  all: try (destruct (tty fr); try discriminate; reflexivity).
Qed.

(** Whatever a turn does, it neither connects nor enters a mode, it
    accesses the array within bounds, and it leaves through [cleanup]
    with the invariant intact. *)
Lemma handle_option_sound env c fr reqs ev k :
  holds fr reqs ->
  handle_option env c fr = (ev, k) ->
  forallb quiet ev = true
  /\ match k with
     | Next _ => True
     | Goto_cleanup _ fr' => holds fr' reqs /\ provider fr' = provider fr
     | Exit_now _ | Fault => False
     end.
Proof.
  intros Hh H.
  destruct c; simpl in H;
    try (apply add_file_io_request_holds with (reqs := reqs) in H;
         [ destruct H as [(_ & -> & ->) | (_ & -> & fr1 & -> & _)];
           simpl; auto
         | eapply holds_frame; [ | | exact Hh]; reflexivity ]);
    unfold_step; repeat case_match; simplify_eq; simpl; auto.
Qed.

Lemma getopt_loop_next env opts : forall fr reqs ev fr',
  holds fr reqs ->
  getopt_loop env opts fr = (ev, Next fr') ->
  holds fr' (reqs ++ requests_of opts)
  /\ tty fr' = tty fr && negb (existsb is_non_interactive opts)
  /\ interactive (state fr')
     = interactive (state fr) && negb (existsb is_non_interactive opts)
       && negb (existsb is_source opts)
  /\ provider fr' = provider fr.
Proof.
  induction opts as [| c opts IH]; intros fr reqs ev fr' Hh H.
  - injection H as <- <-. simpl. rewrite app_nil_r, !andb_true_r. auto.
  - simpl in H. apply bind_next in H as (ev1 & fr1 & ev2 & H1 & H2 & ->).
    destruct (handle_option_next _ _ _ _ _ _ Hh H1) as (Hh1 & Ht & Hi & Hp).
    destruct (IH _ _ _ _ Hh1 H2) as (Hh2 & Ht2 & Hi2 & Hp2).
    simpl. rewrite app_assoc. split; [exact Hh2 |].
    rewrite Ht2, Hi2, Hp2, Ht, Hi, Hp, !negb_orb.
    repeat split.
    + rewrite andb_assoc. reflexivity.
    + destruct (interactive (state fr)), (is_non_interactive c),
        (is_source c), (existsb is_non_interactive opts),
        (existsb is_source opts); reflexivity.
Qed.

Lemma forallb_quiet_app (a b : list event) :
  forallb quiet a = true -> forallb quiet b = true ->
  forallb quiet (a ++ b) = true.
Proof. intros Ha Hb. rewrite forallb_app, Ha, Hb. reflexivity. Qed.

Lemma getopt_loop_sound env opts : forall fr reqs ev k,
  holds fr reqs ->
  getopt_loop env opts fr = (ev, k) ->
  forallb quiet ev = true
  /\ match k with
     | Next _ => True
     | Goto_cleanup _ fr' =>
         (exists reqs', holds fr' reqs') /\ provider fr' = provider fr
     | Exit_now _ | Fault => False
     end.
Proof.
  induction opts as [| c opts IH]; intros fr reqs ev k Hh H.
  - injection H as <- <-. simpl. auto.
  - simpl in H.
    destruct (handle_option env c fr) as [ev1 k1] eqn:H1.
    destruct (handle_option_sound _ _ _ _ _ _ Hh H1) as (Hq1 & Hk1).
    destruct k1 as [fr1 | r fr1 | code | ]; try contradiction.
    + destruct (handle_option_next _ _ _ _ _ _ Hh H1) as (Hh1 & _ & _ & Hp).
      simpl in H. destruct (getopt_loop env opts fr1) as [ev2 k2] eqn:H2.
      injection H as <- <-.
      destruct (IH _ _ _ _ Hh1 H2) as (Hq2 & Hk2).
      split; [apply forallb_quiet_app; assumption |].
      destruct k2; try assumption. rewrite <- Hp. exact Hk2.
    + simpl in H. injection H as <- <-. split; [exact Hq1 |].
      destruct Hk1. split; [eauto | assumption].
Qed.

Lemma startup_sound env ev k :
  startup env = (ev, k) ->
  forallb quiet ev = true
  /\ match k with
     | Next fr =>
         holds fr []
         /\ tty fr = match fopen_tty env with Opened => true | _ => false end
         /\ interactive (state fr) = stdin_isatty env
         /\ provider fr = false
         /\ config (state fr) = new_config
     | Goto_cleanup _ fr => holds fr [] /\ provider fr = false
     | Exit_now _ => True
     | Fault => False
     end.
Proof.
  unfold startup, goto_cleanup. intros H.
  pose proof (holds_initial env) as Hh.
  destruct (fopen_tty env) eqn:Ho;
    repeat case_match; simplify_eq; simpl;
    repeat match goal with |- _ /\ _ => split end; auto;
    try (rewrite Ho; reflexivity);
    (eapply holds_frame; [ | | exact Hh]; reflexivity).
Qed.

Lemma parse_options_next env opts ev fr :
  parse_options env opts = (ev, Next fr) ->
  holds fr (requests_of opts)
  /\ tty fr = match fopen_tty env with Opened => true | _ => false end
              && negb (existsb is_non_interactive opts)
  /\ interactive (state fr)
     = stdin_isatty env && negb (existsb is_non_interactive opts)
       && negb (existsb is_source opts)
  /\ provider fr = false.
Proof.
  unfold parse_options. intros H.
  apply bind_next in H as (ev1 & fr1 & ev2 & H1 & H2 & ->).
  apply startup_sound in H1 as (_ & Hh & Ht & Hi & Hp & _).
  destruct (getopt_loop_next _ _ _ _ _ _ Hh H2) as (Hh2 & Ht2 & Hi2 & Hp2).
  rewrite Ht2, Hi2, Hp2, Ht, Hi, Hp. auto.
Qed.

Lemma parse_options_sound env opts ev k :
  parse_options env opts = (ev, k) ->
  forallb quiet ev = true
  /\ match k with
     | Next _ | Exit_now _ => True
     | Goto_cleanup _ fr =>
         (exists reqs, holds fr reqs) /\ provider fr = false
     | Fault => False
     end.
Proof.
  unfold parse_options. intros H.
  destruct (startup env) as [ev1 k1] eqn:H1.
  destruct (startup_sound _ _ _ H1) as (Hq1 & Hk1).
  destruct k1 as [fr1 | r fr1 | code | ]; try contradiction; simpl in H.
  - destruct Hk1 as (Hh & _ & _ & Hp & _).
    destruct (getopt_loop env opts fr1) as [ev2 k2] eqn:H2.
    injection H as <- <-.
    destruct (getopt_loop_sound _ _ _ _ _ _ Hh H2) as (Hq2 & Hk2).
    split; [apply forallb_quiet_app; assumption |].
    destruct k2; auto. rewrite <- Hp. exact Hk2.
  - injection H as <- <-. destruct Hk1. split; [assumption |]. eauto.
  - injection H as <- <-. auto.
Qed.

(** ** From the option loop to the choice of the mode *)

Lemma holds_last_load fr reqs :
  holds fr reqs -> 0 < nfile_io_requests fr ->
  exists r, last reqs = Some r
            /\ load_request fr (nfile_io_requests fr - 1) = Some r.
Proof.
  intros Hh Hpos. pose proof Hh as (_ & Hn & _ & _).
  destruct (last reqs) as [r |] eqn:Hl.
  - exists r. split; [reflexivity |].
    rewrite last_lookup in Hl.
    replace (nfile_io_requests fr - 1)
      with (Z.of_nat (Nat.pred (length reqs))) by lia.
    eapply holds_load; eassumption.
  - apply last_None in Hl. subst reqs. simpl in Hn. lia.
Qed.

Ltac unfold_after :=
  unfold check_last_request, check_positional, setup_logger,
    default_password_prompt, register_callbacks, connect, remove_password,
    goto_cleanup, continue in *.

Ltac split_binds H :=
  repeat (let ev1 := fresh "ev" in
          let fr1 := fresh "fr" in
          let ev2 := fresh "ev" in
          let Hk := fresh "Hk" in
          let He := fresh "He" in
          apply bind_next in H as (ev1 & fr1 & ev2 & H & Hk & He)).

(** When the statements after the loop all fall through: the request
    array and the terminal handle are as the loop left them, the last
    request (if any) is a source, at most one endpoint was named, the
    logger is in place and the configuration holds no password. *)
Lemma after_options_next env positional fr reqs ev fr' :
  holds fr reqs ->
  after_options env positional fr = (ev, Next fr') ->
  holds fr' reqs
  /\ tty fr' = tty fr
  /\ interactive (state fr') = interactive (state fr)
  /\ provider fr' = true
  /\ password (config (state fr')) = None
  /\ match last reqs with Some r => is_input r = true | None => True end
  /\ (length positional <= 1)%nat.
Proof.
  intros Hh H.
  assert (Hlast : 0 < nfile_io_requests fr ->
                  exists r, last reqs = Some r
                    /\ load_request fr (nfile_io_requests fr - 1) = Some r)
    by (apply holds_last_load; assumption).
  assert (Hnone : nfile_io_requests fr <= 0 -> last reqs = None).
  { destruct Hh as (_ & Hn & _). intros Hle.
    destruct reqs; [reflexivity | simpl in Hn; lia]. }
  unfold after_options in H. split_binds H. unfold_after.
  assert (Hpos1 : (length positional <= 1)%nat).
  { destruct (1 <? Z.of_nat (length positional)) eqn:Hp; [discriminate |].
    apply Z.ltb_ge in Hp. lia. }
  destruct (0 <? nfile_io_requests fr) eqn:Hpos.
  - apply Z.ltb_lt in Hpos. destruct (Hlast Hpos) as (r & Hl & Hld).
    rewrite Hld in H. rewrite Hl. clear Hlast Hnone.
    destruct (is_input r) eqn:Hin; simpl in H; [| discriminate].
    repeat case_match; simplify_eq; simpl;
      repeat match goal with |- _ /\ _ => split end; auto;
      (eapply holds_frame; [ | | exact Hh]; reflexivity).
  - apply Z.ltb_ge in Hpos. rewrite (Hnone Hpos). clear Hlast Hnone.
    repeat case_match; simplify_eq; simpl;
      repeat match goal with |- _ /\ _ => split end; auto;
      (eapply holds_frame; [ | | exact Hh]; reflexivity).
Qed.

(** ** Runs that stay within the array *)

Lemma bind_ok P reqs m k :
  run_ok P reqs m ->
  (forall fr, holds fr reqs -> run_ok P reqs (k fr)) ->
  run_ok P reqs (m ;> k).
Proof.
  destruct m as [ev [fr | r fr | code | ]]; intros [Hev Hk] Hnext;
    simpl in Hev, Hk; try contradiction.
  - destruct (Hnext fr Hk) as [Hev' Hk'].
    rewrite bind_of_next. split; [| exact Hk'].
    simpl. rewrite forallb_app, Hev, Hev'. reflexivity.
  - split; assumption.
Qed.

Lemma quiet_no_mode e : quiet e = true -> no_mode e = true.
Proof. destruct e; simpl; auto; discriminate. Qed.

Lemma after_options_ok env positional fr reqs :
  holds fr reqs -> run_ok no_mode reqs (after_options env positional fr).
Proof.
  intros Hh. unfold after_options.
  repeat apply bind_ok; try clear dependent fr; try intros fr Hh;
    unfold_after; unfold run_ok.
  1: { destruct (0 <? nfile_io_requests fr) eqn:Hpos; [| simpl; auto].
       apply Z.ltb_lt in Hpos.
       destruct (holds_last_load _ _ Hh Hpos) as (r & _ & ->).
       destruct (is_input r); simpl; auto. }
  all: destruct positional as [| target rest];
    repeat match goal with
           | |- context [if ?b then _ else _] => destruct b
           end; simpl;
    (split; [reflexivity
            | first [ exact Hh
                    | eapply holds_frame; [ | | exact Hh]; reflexivity ] ]).
Qed.

Lemma free_filenames_holds fr reqs :
  holds fr reqs ->
  forall (left i : nat),
    (i + left = length reqs)%nat ->
    free_filenames fr (Z.of_nat i) left
    = Some (map (fun r => Free (filename r)) (drop i reqs)).
Proof.
  intros Hh. pose proof Hh as (_ & Hn & Hmax & _).
  induction left as [| left IH]; intros i Hi; simpl.
  - rewrite drop_ge by lia. reflexivity.
  - destruct (lookup_lt_is_Some_2 reqs i ltac:(lia)) as [r Hr].
    rewrite (holds_load _ _ _ _ Hh Hr).
    rewrite to_unsigned_id by (unfold NEO4J_MAX_FILE_IO_ARGS in *; lia).
    replace (Z.of_nat i + 1) with (Z.of_nat (S i)) by lia.
    rewrite IH by lia.
    rewrite (drop_S _ _ _ Hr). reflexivity.
Qed.

Lemma cleanup_holds result ev fr reqs :
  holds fr reqs ->
  cleanup result ev fr = (ev ++ cleanup_events fr reqs, Exit result).
Proof.
  intros Hh. unfold cleanup, cleanup_events.
  pose proof Hh as (_ & Hn & _).
  pose proof (free_filenames_holds fr reqs Hh
                (Z.to_nat (nfile_io_requests fr)) 0 ltac:(lia)) as Hf.
  change (Z.of_nat 0) with 0 in Hf. rewrite Hf, drop_0. reflexivity.
Qed.

Lemma cleanup_events_quiet fr reqs :
  forallb quiet (cleanup_events fr reqs) = true.
Proof.
  unfold cleanup_events. rewrite !forallb_app. simpl.
  destruct (provider fr), (tty fr); simpl; rewrite ?andb_true_r;
    induction reqs; simpl; auto.
Qed.

(** ** The modes *)

Lemma replay_requests_spec env fr reqs :
  holds fr reqs ->
  forall (left i : nat),
    (i + left = length reqs)%nat ->
    exists ev k,
      replay_requests env (Z.of_nat i) left fr = (ev, k)
      /\ (k = Next fr \/ k = Goto_cleanup EXIT_FAILURE fr)
      /\ forallb in_pipeline ev = true
      /\ ((0 < left)%nat -> ev <> []).
Proof.
  intros Hh. pose proof Hh as (_ & Hn & Hmax & _).
  induction left as [| left IH]; intros i Hi; simpl.
  - exists [], (Next fr). repeat split; auto. lia.
  - destruct (lookup_lt_is_Some_2 reqs i ltac:(lia)) as [r Hr].
    rewrite (holds_load _ _ _ _ Hh Hr).
    rewrite to_unsigned_id by (unfold NEO4J_MAX_FILE_IO_ARGS in *; lia).
    replace (Z.of_nat i + 1) with (Z.of_nat (S i)) by lia.
    destruct (IH (S i) ltac:(lia)) as (ev & k & Hrec & Hk & Hev & _).
    destruct (is_input r); simpl;
      [destruct (source env (filename r)) |
       destruct (redirect_output env (filename r))]; simpl;
      rewrite ?Hrec; eexists _, _; (split; [reflexivity |]);
      repeat split; auto; discriminate.
Qed.

(** Running the chosen mode: every event it produces belongs to that
    mode, there is at least one, and [interact] and [batch] receive the
    state with the nesting depth set to 1 and the configuration as it
    stood at the choice. *)
Lemma run_mode_spec env fr reqs :
  holds fr reqs ->
  exists ev k fr',
    run_mode env fr = (ev, k)
    /\ (k = Next fr' \/ k = Goto_cleanup EXIT_FAILURE fr')
    /\ holds fr' reqs /\ tty fr' = tty fr /\ provider fr' = provider fr
    /\ ev <> []
    /\ (forall e, In e ev -> mode_of_event e = Some (select_mode fr))
    /\ (forall st, In (Interact st) ev \/ In (Batch st) ev ->
          source_depth st = 1
          /\ config st = config (state fr)
          /\ source_max_depth st = source_max_depth (state fr)).
Proof.
  intros Hh. unfold run_mode, select_mode.
  destruct (interactive (state fr)) eqn:Hi;
    [| destruct (0 <? nfile_io_requests fr) eqn:Hpos ].
  - unfold run_interactive.
    eexists _, _, _. split; [reflexivity |].
    split; [destruct (interact env _); [right | left]; reflexivity |].
    split; [eapply holds_frame; [ | | exact Hh]; reflexivity |].
    repeat split; try discriminate.
    + intros e [<- | []]. reflexivity.
    + destruct H as [[[= <-] | []] | [[=] | []]]. reflexivity.
    + destruct H as [[[= <-] | []] | [[=] | []]]. reflexivity.
    + destruct H as [[[= <-] | []] | [[=] | []]]. reflexivity.
  - unfold run_file_io. apply Z.ltb_lt in Hpos.
    set (fr1 := on_state (set_render render_results_csv) fr).
    assert (Hh1 : holds fr1 reqs)
      by (eapply holds_frame; [ | | exact Hh]; reflexivity).
    destruct (replay_requests_spec env fr1 reqs Hh1
                (Z.to_nat (nfile_io_requests fr1)) 0)
      as (ev & k & Hrun & Hk & Hev & Hne).
    { destruct Hh1 as (_ & Hn & _). lia. }
    change (Z.of_nat 0) with 0 in Hrun.
    exists ev, k, fr1. split; [exact Hrun |]. split; [exact Hk |].
    split; [exact Hh1 |]. repeat split.
    + apply Hne. change (nfile_io_requests fr1) with (nfile_io_requests fr). lia.
    + intros e He. rewrite forallb_forall in Hev. specialize (Hev e He).
      unfold in_pipeline in Hev.
      destruct (mode_of_event e) as [[] |]; try discriminate. reflexivity.
    + rewrite forallb_forall in Hev.
      destruct H as [H | H]; apply Hev in H; discriminate.
    + rewrite forallb_forall in Hev.
      destruct H as [H | H]; apply Hev in H; discriminate.
    + rewrite forallb_forall in Hev.
      destruct H as [H | H]; apply Hev in H; discriminate.
  - unfold run_batch.
    eexists _, _, _. split; [reflexivity |].
    split; [destruct (batch env _); [right | left]; reflexivity |].
    split; [eapply holds_frame; [ | | exact Hh]; reflexivity |].
    repeat split; try discriminate.
    + intros e [<- | []]. reflexivity.
    + destruct H as [[[=] | []] | [[= <-] | []]]. reflexivity.
    + destruct H as [[[=] | []] | [[= <-] | []]]. reflexivity.
    + destruct H as [[[=] | []] | [[= <-] | []]]. reflexivity.
Qed.

(** ** The whole of [main] *)

Lemma forallb_quiet_no_mode ev :
  forallb quiet ev = true -> forallb no_mode ev = true.
Proof.
  rewrite !forallb_forall. intros H e He. apply quiet_no_mode, H, He.
Qed.

Lemma before_mode_sound env opts positional ev k :
  before_mode env opts positional = (ev, k) ->
  forallb no_mode ev = true
  /\ match k with
     | Next fr => holds fr (requests_of opts)
     | Goto_cleanup _ fr => exists reqs, holds fr reqs
     | Exit_now _ => True
     | Fault => False
     end.
Proof.
  unfold before_mode. intros H.
  destruct (parse_options env opts) as [ev0 k0] eqn:Hp.
  destruct (parse_options_sound _ _ _ _ Hp) as (Hq & Hk0).
  apply forallb_quiet_no_mode in Hq.
  destruct k0 as [fr0 | r fr0 | code | ]; try contradiction.
  - destruct (parse_options_next _ _ _ _ Hp) as (Hh & _).
    rewrite bind_of_next in H. injection H as <- <-.
    destruct (after_options_ok env positional fr0 _ Hh) as (Hev & Hk).
    split; [rewrite forallb_app, Hq, Hev; reflexivity |].
    destruct (snd (after_options env positional fr0)); eauto.
  - simpl in H. injection H as <- <-. split; [exact Hq | apply Hk0].
  - simpl in H. injection H as <- <-. auto.
Qed.

(** When control reaches the choice of the mode, [main] runs the chosen
    mode and then the clean-up. *)
Lemma main_reaches_mode env opts positional ev fr :
  before_mode env opts positional = (ev, Next fr) ->
  exists ev' k fr',
    run_mode env fr = (ev', k)
    /\ (k = Next fr' \/ k = Goto_cleanup EXIT_FAILURE fr')
    /\ main env opts positional
       = (ev ++ ev' ++ cleanup_events fr' (requests_of opts),
          Exit (exit_of k)).
Proof.
  intros H. destruct (before_mode_sound _ _ _ _ _ H) as (_ & Hh).
  destruct (run_mode_spec env fr _ Hh) as (ev' & k & fr' & Hrun & Hk & Hh' & _).
  exists ev', k, fr'. split; [exact Hrun |]. split; [exact Hk |].
  unfold main. rewrite H, bind_of_next, Hrun. simpl.
  destruct Hk as [-> | ->]; simpl;
    rewrite (cleanup_holds _ _ _ _ Hh'), <- app_assoc; reflexivity.
Qed.

(** When it does not, no mode runs. *)
Lemma main_stops_before_mode env opts positional ev k :
  before_mode env opts positional = (ev, k) ->
  (forall fr, k <> Next fr) ->
  main env opts positional = finish (ev, k)
  /\ exists tail,
       main env opts positional = (ev ++ tail, Exit (exit_of k))
       /\ forallb quiet tail = true.
Proof.
  intros H Hk. destruct (before_mode_sound _ _ _ _ _ H) as (_ & Hh).
  unfold main. rewrite H.
  destruct k as [fr | r fr | code | ]; try contradiction.
  - exfalso. eapply Hk. reflexivity.
  - split; [reflexivity |]. destruct Hh as [reqs Hh]. simpl.
    rewrite (cleanup_holds _ _ _ _ Hh). eexists. split; [reflexivity |].
    apply cleanup_events_quiet.
  - split; [reflexivity |]. exists []. simpl. rewrite app_nil_r. auto.
Qed.

(** [main] never accesses [file_io_requests] out of bounds, nor a slot
    that was not written. *)
Lemma main_defined env opts positional :
  exists trace code, main env opts positional = (trace, Exit code).
Proof.
  destruct (before_mode env opts positional) as [ev k] eqn:H.
  destruct k as [fr | r fr | code | ] eqn:Hk.
  - destruct (main_reaches_mode _ _ _ _ _ H) as (? & ? & ? & _ & _ & ->).
    eauto.
  - destruct (main_stops_before_mode _ _ _ _ _ H) as (_ & ? & -> & _);
      [discriminate | eauto].
  - destruct (main_stops_before_mode _ _ _ _ _ H) as (_ & ? & -> & _);
      [discriminate | eauto].
  - apply before_mode_sound in H as (_ & []).
Qed.

(** ** Requests and options *)

Lemma no_source_all_outputs opts :
  existsb is_source opts = false ->
  Forall (fun r => is_input r = false) (requests_of opts).
Proof.
  induction opts as [| c opts IH]; simpl; [constructor |].
  intros H. apply orb_false_iff in H as [Hc Ho].
  unfold requests_of in *. simpl. apply Forall_app. split; [| auto].
  destruct c; simpl; try discriminate; repeat constructor.
Qed.

Lemma source_gives_request opts :
  existsb is_source opts = true -> requests_of opts <> [].
Proof.
  induction opts as [| c opts IH]; simpl; [discriminate |].
  intros H. unfold requests_of in *. simpl.
  destruct c; simpl in *; try discriminate; auto.
Qed.

Lemma last_in {A} (l : list A) x : last l = Some x -> In x l.
Proof.
  rewrite last_lookup. intros H.
  apply list_elem_of_In. eapply list_elem_of_lookup_2. exact H.
Qed.

Lemma mode_runs_app m (a b : list event) :
  mode_runs m (a ++ b) <-> mode_runs m a \/ mode_runs m b.
Proof.
  unfold mode_runs. split.
  - intros (e & He & Hm). apply in_app_or in He as [He | He]; eauto.
  - intros [(e & He & Hm) | (e & He & Hm)]; exists e;
      (split; [apply in_or_app; auto | exact Hm]).
Qed.

Lemma no_mode_runs m ev : forallb no_mode ev = true -> ~ mode_runs m ev.
Proof.
  rewrite forallb_forall. intros H (e & He & Hm). apply H in He.
  unfold no_mode in He. rewrite Hm in He. discriminate.
Qed.

(** ** Leaving through [cleanup] *)

Lemma main_of_before_cleanup env opts positional ev result fr reqs :
  before_mode env opts positional = (ev, Goto_cleanup result fr) ->
  holds fr reqs ->
  main env opts positional = (ev ++ cleanup_events fr reqs, Exit result).
Proof.
  intros H Hh. unfold main. rewrite H. simpl. apply cleanup_holds, Hh.
Qed.

(** What [main] does when the option loop stops at [cleanup] with its
    last turn. *)
Lemma main_of_failed_option env pre c rest positional ev fr msg result fr' reqs :
  parse_options env pre = (ev, Next fr) ->
  handle_option env c fr = (msg, Goto_cleanup result fr') ->
  holds fr' reqs ->
  main env (pre ++ c :: rest) positional
  = (ev ++ msg ++ cleanup_events fr' reqs, Exit result).
Proof.
  intros Hp Hc Hh.
  rewrite app_assoc. eapply main_of_before_cleanup; [| exact Hh].
  unfold before_mode. rewrite parse_options_app, Hp. simpl. rewrite Hc. simpl.
  reflexivity.
Qed.

(** ** An option that stops the loop *)

(** When a turn of the loop goes to [cleanup], [main] prints what that
    turn printed and cleans up: the options after it are never looked at,
    nothing connects and no mode runs. *)
Lemma main_stops_at_option env pre c rest positional ev fr msg result fr' :
  parse_options env pre = (ev, Next fr) ->
  handle_option env c fr = (msg, Goto_cleanup result fr') ->
  main env (pre ++ c :: rest) positional
  = (ev ++ msg ++ cleanup_events fr' (requests_of pre), Exit result)
  /\ forallb quiet (fst (main env (pre ++ c :: rest) positional)) = true.
Proof.
  intros Hp Hc.
  destruct (parse_options_next _ _ _ _ Hp) as (Hh & _).
  destruct (parse_options_sound _ _ _ _ Hp) as (Hq & _).
  destruct (handle_option_sound _ _ _ _ _ _ Hh Hc) as (Hm & Hh' & _).
  rewrite (main_of_failed_option _ _ _ rest positional _ _ _ _ _ _ Hp Hc Hh').
  split; [reflexivity |]. simpl.
  rewrite !forallb_app, Hq, Hm. apply cleanup_events_quiet.
Qed.

Lemma positive_arg_rejects what optarg fr k :
  Atoi.atoi optarg < 1 ->
  positive_arg what optarg fr k
  = ([Fprintf state_err (invalid_message what optarg)],
     Goto_cleanup EXIT_FAILURE fr).
Proof.
  intros H. unfold positive_arg. apply Z.ltb_lt in H. rewrite H. reflexivity.
Qed.

Lemma positive_arg_accepts what optarg fr k :
  1 <= Atoi.atoi optarg ->
  positive_arg what optarg fr k = ([], Next (k (Atoi.atoi optarg))).
Proof.
  intros H. unfold positive_arg. apply Z.ltb_ge in H. rewrite H. reflexivity.
Qed.

(** ** [atoi] and numerals *)

Lemma isspace_no_numeral c :
  Atoi.isspace c = true ->
  (c =? "-")%char = false /\ (c =? "+")%char = false
  /\ Atoi.isdigit c = false.
Proof.
  destruct c as [[] [] [] [] [] [] [] []]; vm_compute; intros H;
    repeat split; congruence.
Qed.

Lemma numeral_skip_spaces s v :
  numeral s = Some v -> Atoi.skip_spaces s = s.
Proof.
  destruct s as [| c s']; [reflexivity |]. simpl.
  destruct (Atoi.isspace c) eqn:Hs; [| reflexivity].
  destruct (isspace_no_numeral c Hs) as (Hm & Hp & Hd).
  unfold numeral. simpl. rewrite Hm, Hp. simpl. rewrite Hd. discriminate.
Qed.

Lemma atoi_numeral s v :
  numeral s = Some v -> Int.in_int v -> Atoi.atoi s = v.
Proof.
  intros Hn Hv. unfold Atoi.atoi, Atoi.strtol.
  rewrite (numeral_skip_spaces s v Hn).
  unfold numeral in Hn.
  destruct (Atoi.split_sign s) as [negative digits].
  assert (Hval : (if negative then - Atoi.digits_value 0 digits
                  else Atoi.digits_value 0 digits) = v).
  { destruct digits; [discriminate |].
    destruct (all_digits _); congruence. }
  rewrite Hval. unfold Atoi.clamp_long.
  unfold Int.in_int, Int.INT_MIN, Int.INT_MAX in Hv.
  replace (v <? Int.LONG_MIN) with false
    by (symmetry; apply Z.ltb_ge; unfold Int.LONG_MIN; lia).
  replace (Int.LONG_MAX <? v) with false
    by (symmetry; apply Z.ltb_ge; unfold Int.LONG_MAX; lia).
  apply to_int_id. exact Hv.
Qed.

Lemma atoi_no_numeric_prefix s :
  numeric_prefix s = false -> Atoi.atoi s = 0.
Proof.
  unfold numeric_prefix, Atoi.atoi, Atoi.strtol.
  destruct (Atoi.split_sign (Atoi.skip_spaces s)) as [negative digits].
  simpl. intros H.
  assert (Hz : Atoi.digits_value 0 digits = 0).
  { destruct digits as [| c d]; [reflexivity |]. simpl. rewrite H.
    reflexivity. }
  rewrite Hz. destruct negative; reflexivity.
Qed.

Example numeral_5 : numeral "5" = Some 5.
Proof. reflexivity. Qed.

Example numeral_minus_12 : numeral "-12" = Some (-12).
Proof. reflexivity. Qed.

Example numeral_5abc : numeral "5abc" = None.
Proof. reflexivity. Qed.

(** ** The terminal handle, -P and --non-interactive *)

Lemma prompt_without_tty env pre rest positional ev fr :
  parse_options env pre = (ev, Next fr) ->
  tty fr = false ->
  main env (pre ++ OPT_P :: rest) positional
  = (ev ++ [Fprintf state_err no_tty_message]
        ++ cleanup_events fr (requests_of pre),
     Exit EXIT_FAILURE)
  /\ forallb quiet (fst (main env (pre ++ OPT_P :: rest) positional)) = true.
Proof.
  intros Hp Ht. apply (main_stops_at_option _ _ _ _ _ _ fr); [exact Hp |].
  simpl. rewrite Ht. reflexivity.
Qed.

Lemma existsb_is_non_interactive opts :
  In NON_INTERACTIVE_OPT opts -> existsb is_non_interactive opts = true.
Proof.
  intros H. apply existsb_exists. exists NON_INTERACTIVE_OPT. auto.
Qed.

Lemma tty_closed_after_non_interactive env opts ev fr :
  In NON_INTERACTIVE_OPT opts ->
  parse_options env opts = (ev, Next fr) ->
  tty fr = false /\ interactive (state fr) = false.
Proof.
  intros Hin Hp. apply existsb_is_non_interactive in Hin.
  destruct (parse_options_next _ _ _ _ Hp) as (_ & Ht & Hi & _).
  rewrite Ht, Hi, Hin. simpl. rewrite !andb_false_r. auto.
Qed.

(** ** A request when the array is full *)

Lemma handle_request_when_full env c fr reqs :
  is_request c = true ->
  holds fr reqs ->
  NEO4J_MAX_FILE_IO_ARGS <= nfile_io_requests fr ->
  exists fr',
    handle_option env c fr
    = ([Fprintf state_err too_many_message], Goto_cleanup EXIT_FAILURE fr')
    /\ file_io_requests fr' = file_io_requests fr
    /\ nfile_io_requests fr' = nfile_io_requests fr
    /\ tty fr' = tty fr /\ provider fr' = provider fr.
Proof.
  intros Hc Hh Hfull. apply Z.leb_le in Hfull.
  destruct c; try discriminate; simpl; unfold add_file_io_request;
    cbn [nfile_io_requests on_state set_state]; rewrite Hfull;
    eexists; (split; [reflexivity |]); auto.
Qed.

(** ** Where the events of a mode come from *)

Lemma in_quiet e ev : forallb quiet ev = true -> In e ev -> quiet e = true.
Proof. rewrite forallb_forall. auto. Qed.

Lemma in_no_mode e ev :
  forallb no_mode ev = true -> In e ev -> mode_of_event e = None.
Proof.
  rewrite forallb_forall. intros H He. apply H in He. unfold no_mode in He.
  destruct (mode_of_event e); [discriminate | reflexivity].
Qed.

(** An event of a mode in the trace of [main] was produced by [run_mode],
    from the frame that [before_mode] handed over. *)
Lemma mode_event_origin env opts positional e :
  In e (fst (main env opts positional)) ->
  mode_of_event e <> None ->
  exists ev fr ev' k,
    before_mode env opts positional = (ev, Next fr)
    /\ run_mode env fr = (ev', k)
    /\ In e ev'.
Proof.
  intros He Hm.
  destruct (before_mode env opts positional) as [ev k] eqn:H.
  destruct (before_mode_sound _ _ _ _ _ H) as (Hev & Hk).
  destruct k as [fr | r fr | code | ]; try contradiction.
  - destruct (main_reaches_mode _ _ _ _ _ H) as (ev' & k & fr' & Hrun & _ & Hmain).
    rewrite Hmain in He. simpl in He.
    apply in_app_or in He as [He | He];
      [exfalso; apply Hm; eapply in_no_mode; eassumption |].
    apply in_app_or in He as [He | He]; [eauto 8 |].
    exfalso. apply Hm. eapply in_no_mode; [| exact He].
    apply forallb_quiet_no_mode, cleanup_events_quiet.
  - destruct (main_stops_before_mode _ _ _ _ _ H ltac:(discriminate))
      as (_ & tail & Hmain & Ht).
    rewrite Hmain in He. simpl in He. exfalso. apply Hm.
    apply in_app_or in He as [He | He]; eapply in_no_mode; try exact He;
      [exact Hev | apply forallb_quiet_no_mode, Ht].
  - destruct (main_stops_before_mode _ _ _ _ _ H ltac:(discriminate))
      as (_ & tail & Hmain & Ht).
    rewrite Hmain in He. simpl in He. exfalso. apply Hm.
    apply in_app_or in He as [He | He]; eapply in_no_mode; try exact He;
      [exact Hev | apply forallb_quiet_no_mode, Ht].
Qed.

Lemma entry_state env opts positional st :
  In (Interact st) (fst (main env opts positional))
  \/ In (Batch st) (fst (main env opts positional)) ->
  exists ev fr,
    before_mode env opts positional = (ev, Next fr)
    /\ source_depth st = 1
    /\ config st = config (state fr)
    /\ source_max_depth st = source_max_depth (state fr).
Proof.
  intros H.
  assert (Ho : exists ev fr ev' k,
             before_mode env opts positional = (ev, Next fr)
             /\ run_mode env fr = (ev', k)
             /\ (In (Interact st) ev' \/ In (Batch st) ev')).
  { destruct H as [H | H];
      apply mode_event_origin in H as (ev & fr & ev' & k & Hb & Hr & Hin);
      try discriminate; eauto 10. }
  destruct Ho as (ev & fr & ev' & k & Hb & Hr & Hin).
  destruct (before_mode_sound _ _ _ _ _ Hb) as (_ & Hh).
  destruct (run_mode_spec env fr _ Hh)
    as (ev2 & k2 & fr2 & Hr2 & _ & _ & _ & _ & _ & _ & Hst).
  rewrite Hr in Hr2. injection Hr2 as <- <-.
  exists ev, fr. split; [exact Hb |]. apply Hst. exact Hin.
Qed.

(** ** The password at the choice of the mode *)

Lemma before_mode_password env opts positional ev fr :
  before_mode env opts positional = (ev, Next fr) ->
  password (config (state fr)) = None.
Proof.
  unfold before_mode. intros H.
  apply bind_next in H as (ev0 & fr0 & ev1 & Hp & Ha & ->).
  destruct (parse_options_next _ _ _ _ Hp) as (Hh & _).
  destruct (after_options_next _ _ _ _ _ _ Hh Ha) as (_ & _ & _ & _ & Hpw & _).
  exact Hpw.
Qed.

(** ** The callbacks *)

Lemma handle_option_keeps_callbacks env c fr ev fr' :
  handle_option env c fr = (ev, Next fr') -> callbacks fr' = callbacks fr.
Proof.
  intros H. destruct c; simpl in H; unfold_step; unfold store_request in H;
    repeat case_match; simplify_eq; reflexivity.
Qed.

Lemma getopt_loop_keeps_callbacks env opts : forall fr ev fr',
  getopt_loop env opts fr = (ev, Next fr') -> callbacks fr' = callbacks fr.
Proof.
  induction opts as [| c opts IH]; intros fr ev fr' H.
  - injection H as <- <-. reflexivity.
  - simpl in H. apply bind_next in H as (ev1 & fr1 & ev2 & H1 & H2 & ->).
    rewrite (IH _ _ _ H2). eapply handle_option_keeps_callbacks. exact H1.
Qed.

Lemma parse_options_no_callbacks env opts ev fr :
  parse_options env opts = (ev, Next fr) -> callbacks fr = (false, false).
Proof.
  unfold parse_options. intros H.
  apply bind_next in H as (ev1 & fr1 & ev2 & H1 & H2 & ->).
  rewrite (getopt_loop_keeps_callbacks _ _ _ _ _ H2).
  apply startup_sound in H1 as (_ & _ & _ & _ & _ & Hc).
  unfold callbacks. rewrite Hc. reflexivity.
Qed.

(** With the terminal handle closed, the statements after the loop
    register no callback: neither in the state that [db_connect] receives
    nor in the one handed to the mode. *)
Lemma after_options_without_tty env positional fr :
  tty fr = false ->
  callbacks fr = (false, false) ->
  (forall st target,
     In (Db_connect st target) (fst (after_options env positional fr)) ->
     unverified_host_callback (config st) = false
     /\ authentication_reattempt_callback (config st) = false)
  /\ (forall fr',
        snd (after_options env positional fr) = Next fr' ->
        callbacks fr' = (false, false)).
Proof.
  intros Ht Hc. unfold callbacks in Hc. injection Hc as Hu Ha.
  unfold after_options. unfold_after. cbn [tty nfile_io_requests].
  destruct (0 <? nfile_io_requests fr);
    [destruct (load_request fr (nfile_io_requests fr - 1)) as [r |];
       [destruct (is_input r) |] |];
    simpl;
    destruct (1 <? Z.of_nat (length positional));
    simpl;
    destruct (logger_provider_fails env);
    simpl;
    destruct (interactive (state fr));
    simpl; rewrite ?Ht; simpl;
    destruct positional as [| target rest]; simpl;
    try match goal with
        | |- context [connect_failed ?o] => destruct (connect_failed o)
        end;
    simpl; unfold callbacks; simpl; rewrite ?Hu, ?Ha;
    (split;
     [ intros st tg Hin;
       repeat match goal with
              | H : _ \/ _ |- _ => destruct H
              | H : False |- _ => contradiction
              end;
       simplify_eq; simpl; auto
     | intros fr' Heq; simplify_eq; simpl; rewrite ?Hu, ?Ha; reflexivity ]).
Qed.

(** A call of [db_connect] in the trace of [main] was made by the
    statements after the option loop. *)
Lemma connect_event_origin env opts positional st target :
  In (Db_connect st target) (fst (main env opts positional)) ->
  exists ev0 fr0,
    parse_options env opts = (ev0, Next fr0)
    /\ In (Db_connect st target) (fst (after_options env positional fr0)).
Proof.
  intros He.
  destruct (parse_options env opts) as [ev0 k0] eqn:Hp.
  destruct (parse_options_sound _ _ _ _ Hp) as (Hq0 & Hk0).
  assert (Hstop : forall ev k, (forall fr, k <> Next fr) ->
            before_mode env opts positional = (ev0 ++ ev, k) ->
            In (Db_connect st target) ev).
  { intros ev k Hk Hb.
    destruct (main_stops_before_mode _ _ _ _ _ Hb Hk) as (_ & tail & Hm & Ht).
    rewrite Hm in He. simpl in He.
    apply in_app_or in He as [He | He];
      [| apply (in_quiet _ _ Ht) in He; discriminate].
    apply in_app_or in He as [He | He]; [| exact He].
    apply (in_quiet _ _ Hq0) in He. discriminate. }
  destruct k0 as [fr0 | r fr0 | code | ]; try contradiction.
  - exists ev0, fr0. split; [reflexivity |].
    destruct (after_options env positional fr0) as [eva ka] eqn:Ha.
    assert (Hb : before_mode env opts positional = (ev0 ++ eva, ka)).
    { unfold before_mode. rewrite Hp, bind_of_next, Ha. reflexivity. }
    simpl. destruct ka as [fr | r fr | code | ];
      try (eapply Hstop; [| exact Hb]; discriminate).
    destruct (before_mode_sound _ _ _ _ _ Hb) as (_ & Hh).
    destruct (run_mode_spec env fr _ Hh)
      as (ev' & k & fr' & Hrun & _ & _ & _ & _ & _ & Hmode & _).
    destruct (main_reaches_mode _ _ _ _ _ Hb) as (ev2 & k2 & fr2 & Hrun2 & _ & Hm).
    rewrite Hrun in Hrun2. injection Hrun2 as <- <-.
    rewrite Hm in He. simpl in He.
    apply in_app_or in He as [He | He].
    + apply in_app_or in He as [He | He]; [| exact He].
      apply (in_quiet _ _ Hq0) in He. discriminate.
    + apply in_app_or in He as [He | He].
      * apply Hmode in He. discriminate.
      * apply (in_quiet _ _ (cleanup_events_quiet _ _)) in He. discriminate.
  - exfalso.
    assert (Hin : In (Db_connect st target) []); [| destruct Hin].
    apply (Hstop [] (Goto_cleanup r fr0)); [discriminate |].
    unfold before_mode. rewrite Hp, app_nil_r. reflexivity.
  - exfalso.
    assert (Hin : In (Db_connect st target) []); [| destruct Hin].
    apply (Hstop [] (Exit_now code)); [discriminate |].
    unfold before_mode. rewrite Hp, app_nil_r. reflexivity.
Qed.

(** ** Frames alike but for one setting *)

Ltac destruct_frame a :=
  let s := fresh "s" in
  let c := fresh "c" in
  destruct a as [? ? ? ? ? s]; destruct s as [? ? ? ? ? ? ? ? ? ? ? c];
  destruct c.

Ltac split_conditions :=
  repeat match goal with
         | |- context [if ?b then _ else _] => destruct b eqn:?
         | |- context [match ?l !! ?i with _ => _ end] => destruct (l !! i) eqn:?
         end.

(** One turn of the loop from two frames that are alike but for [f]:
    the same events, results alike but for [f]; and when the option
    assigns [f] and is accepted, the very same result. *)
Lemma handle_option_forget env c f a b :
  forget f a = forget f b ->
  fst (handle_option env c a) = fst (handle_option env c b)
  /\ same_but f (snd (handle_option env c a)) (snd (handle_option env c b))
  /\ (writes c = Some f ->
      forall a', snd (handle_option env c a) = Next a' ->
                 snd (handle_option env c b) = Next a').
Proof.
  intros Hab. destruct_frame a. destruct_frame b.
  destruct f; cbv in Hab; simplify_eq;
    destruct c; simpl; unfold_step; unfold store_request; simpl;
    split_conditions; simpl;
    (split; [reflexivity |]);
    (split; [try reflexivity; try (split; reflexivity) |]);
    intros Hw a' Ha; simplify_eq; reflexivity.
Qed.

Lemma handle_option_writes env c f fr ev fr' :
  writes c = Some f ->
  handle_option env c fr = (ev, Next fr') ->
  ev = [] /\ forget f fr' = forget f fr.
Proof.
  intros Hw H. destruct_frame fr.
  destruct c; simpl in Hw; simplify_eq; simpl in H; unfold_step;
    repeat case_match; simplify_eq; split; reflexivity.
Qed.

Lemma getopt_loop_forget env f opts : forall a b,
  forget f a = forget f b ->
  fst (getopt_loop env opts a) = fst (getopt_loop env opts b)
  /\ same_but f (snd (getopt_loop env opts a)) (snd (getopt_loop env opts b)).
Proof.
  induction opts as [| c opts IH]; intros a b Hab; simpl.
  - auto.
  - destruct (handle_option_forget env c f a b Hab) as (Hev & Hk & _).
    destruct (handle_option env c a) as [eva ka].
    destruct (handle_option env c b) as [evb kb].
    simpl in Hev, Hk. subst evb.
    destruct ka as [a1 | ra a1 | ca | ], kb as [b1 | rb b1 | cb | ];
      simpl in Hk; try contradiction; simpl; auto.
    destruct (IH a1 b1 Hk) as (Hev' & Hk').
    destruct (getopt_loop env opts a1) as [eva' ka'].
    destruct (getopt_loop env opts b1) as [evb' kb'].
    simpl in *. subst evb'. auto.
Qed.

(** From two frames alike but for [f], a command line on which some
    option assigns [f] ends in the same frame. *)
Lemma getopt_loop_overwrites env f c2 post mid : forall a b ev fr',
  forget f a = forget f b ->
  writes c2 = Some f ->
  getopt_loop env (mid ++ c2 :: post) a = (ev, Next fr') ->
  getopt_loop env (mid ++ c2 :: post) b = (ev, Next fr').
Proof.
  intros a b ev fr' Hab Hw H.
  rewrite getopt_loop_app in *.
  apply bind_next in H as (ev1 & a1 & ev2 & Hmid & Hrest & ->).
  destruct (getopt_loop_forget env f mid a b Hab) as (Hev & Hk).
  rewrite Hmid in Hev, Hk. simpl in Hev, Hk.
  destruct (getopt_loop env mid b) as [evb kb]. simpl in Hev, Hk. subst evb.
  destruct kb as [b1 | | | ]; try contradiction.
  rewrite bind_of_next. simpl in Hrest |- *.
  apply bind_next in Hrest as (ev3 & a2 & ev4 & Hc & Hpost & ->).
  destruct (handle_option_forget env c2 f a1 b1 Hk) as (Hev2 & _ & Hsame).
  rewrite Hc in Hev2, Hsame. simpl in Hev2.
  specialize (Hsame Hw a2 eq_refl).
  destruct (handle_option env c2 b1) as [evb2 kb2]. simpl in Hev2, Hsame.
  subst evb2 kb2. simpl. rewrite Hpost. reflexivity.
Qed.

(** ** The pipeline settings *)

Lemma handle_option_keeps_pipeline env c fr ev fr' :
  writes c <> Some Pipeline_max ->
  handle_option env c fr = (ev, Next fr') ->
  pipeline_settings (state fr') = pipeline_settings (state fr).
Proof.
  intros Hw H. destruct c; simpl in H, Hw; try congruence;
    unfold_step; unfold store_request in H;
    repeat case_match; simplify_eq; reflexivity.
Qed.

Lemma getopt_loop_keeps_pipeline env opts : forall fr ev fr',
  Forall (fun c => writes c <> Some Pipeline_max) opts ->
  getopt_loop env opts fr = (ev, Next fr') ->
  pipeline_settings (state fr') = pipeline_settings (state fr).
Proof.
  induction opts as [| c opts IH]; intros fr ev fr' Hall H.
  - injection H as <- <-. reflexivity.
  - simpl in H. apply bind_next in H as (ev1 & fr1 & ev2 & H1 & H2 & ->).
    apply Forall_cons in Hall as [Hc Hall].
    rewrite (IH _ _ _ Hall H2).
    eapply handle_option_keeps_pipeline; eassumption.
Qed.

(** The state that [db_connect] receives has the pipeline settings the
    option loop left. *)
Lemma after_options_keeps_pipeline env positional fr st target :
  In (Db_connect st target) (fst (after_options env positional fr)) ->
  pipeline_settings st = pipeline_settings (state fr).
Proof.
  unfold after_options. unfold_after.
  destruct (0 <? nfile_io_requests fr);
    [destruct (load_request fr (nfile_io_requests fr - 1)) as [r |];
       [destruct (is_input r) |] |];
    simpl;
    destruct (1 <? Z.of_nat (length positional));
    simpl;
    destruct (logger_provider_fails env);
    simpl;
    destruct (interactive (state fr));
    simpl;
    destruct (tty fr); simpl;
    try destruct (password_prompt (state fr)); simpl;
    destruct positional as [| tg rest]; simpl;
    try match goal with
        | |- context [connect_failed ?o] => destruct (connect_failed o)
        end;
    simpl; intros Hin;
    repeat match goal with
           | H : _ \/ _ |- _ => destruct H
           | H : False |- _ => contradiction
           end;
    simplify_eq; reflexivity.
Qed.

(** ** C1: the choice of the mode *)

(** C1. For every invocation that comes through the option loop and the
    set-up after it, the mode chosen by the code is the one the
    specification's selector names: Interactive exactly when the standard
    input is a terminal, no -i/-o request was queued and --non-interactive
    was not given, otherwise the request pipeline when the queue is not
    empty, otherwise the batch on standard input; and the modes that run
    in [main] are that one and no other. *)
Theorem mode_selection env opts positional ev fr :
  before_mode env opts positional = (ev, Next fr) ->
  select_mode fr
  = ModeSelector (stdin_isatty env) (requests_of opts)
      (existsb is_non_interactive opts)
  /\ (select_mode fr = Interactive <->
      stdin_isatty env = true /\ requests_of opts = []
      /\ existsb is_non_interactive opts = false)
  /\ (select_mode fr = FileIoPipeline <->
      select_mode fr <> Interactive /\ requests_of opts <> [])
  /\ (select_mode fr = StdinBatch <->
      select_mode fr <> Interactive /\ requests_of opts = [])
  /\ forall m,
       mode_runs m (fst (main env opts positional)) <-> m = select_mode fr.
Proof.
  intros H.
  assert (Hsel : select_mode fr
                 = ModeSelector (stdin_isatty env) (requests_of opts)
                     (existsb is_non_interactive opts)).
  { pose proof H as H'. unfold before_mode in H'.
    apply bind_next in H' as (ev0 & fr0 & ev1 & Hp & Ha & ->).
    destruct (parse_options_next _ _ _ _ Hp) as (Hh & _ & Hi & _).
    destruct (after_options_next _ _ _ _ _ _ Hh Ha)
      as (Hh' & _ & Hi' & _ & _ & Hlast & _).
    unfold select_mode, ModeSelector. rewrite Hi', Hi.
    destruct Hh' as (_ & Hn & _). rewrite Hn.
    destruct (existsb is_source opts) eqn:Hs.
    - apply source_gives_request in Hs.
      destruct (requests_of opts) as [| r reqs]; [contradiction |].
      rewrite !andb_false_r. reflexivity.
    - apply no_source_all_outputs in Hs.
      destruct (last (requests_of opts)) as [r |] eqn:Hl.
      + apply last_in, list_elem_of_In in Hl. rewrite Forall_forall in Hs.
        specialize (Hs r Hl). congruence.
      + apply last_None in Hl. rewrite Hl. simpl.
        rewrite !andb_true_r. reflexivity. }
  split; [exact Hsel |].
  split.
  { rewrite Hsel. unfold ModeSelector.
    destruct (stdin_isatty env), (requests_of opts),
      (existsb is_non_interactive opts); simpl; split;
      try discriminate; try tauto; intros (? & ? & ?); discriminate. }
  split.
  { rewrite Hsel. unfold ModeSelector.
    destruct (stdin_isatty env), (requests_of opts),
      (existsb is_non_interactive opts); simpl; split;
      try discriminate; try tauto; intros []; auto; discriminate. }
  split.
  { rewrite Hsel. unfold ModeSelector.
    destruct (stdin_isatty env), (requests_of opts),
      (existsb is_non_interactive opts); simpl; split;
      try discriminate; try tauto; intros []; auto; discriminate. }
  intros m.
  destruct (before_mode_sound _ _ _ _ _ H) as (Hev & Hh).
  destruct (run_mode_spec env fr _ Hh)
    as (ev' & k & fr' & Hrun & Hk & _ & _ & _ & Hne & Hmode & _).
  destruct (main_reaches_mode _ _ _ _ _ H) as (ev2 & k2 & fr2 & Hrun2 & _ & ->).
  rewrite Hrun in Hrun2. injection Hrun2 as <- <-. simpl.
  rewrite !mode_runs_app. split.
  - intros [Hm | [(e & He & Hm) | Hm]].
    + exfalso. eapply no_mode_runs; eassumption.
    + rewrite (Hmode e He) in Hm. congruence.
    + exfalso. eapply no_mode_runs; [| exact Hm].
      apply forallb_quiet_no_mode, cleanup_events_quiet.
  - intros ->. right. left. destruct ev' as [| e ev']; [contradiction |].
    exists e. split; [left; reflexivity | apply Hmode; left; reflexivity].
Qed.

Lemma mode_selection_witness :
  mode_runs StdinBatch (fst (main terminal_env [NON_INTERACTIVE_OPT] []))
  /\ ~ mode_runs Interactive (fst (main terminal_env [NON_INTERACTIVE_OPT] []))
  /\ ~ mode_runs FileIoPipeline
        (fst (main terminal_env [NON_INTERACTIVE_OPT] [])).
Proof.
  destruct (mode_selection terminal_env [NON_INTERACTIVE_OPT] [] _ _ eq_refl)
    as (Hs & _ & _ & _ & Hm).
  split; [apply Hm; rewrite Hs; reflexivity |].
  split; intros X; apply Hm in X; rewrite Hs in X; discriminate.
Defined.

(** ** C2: a redirect with nothing to redirect *)

(** C2. When the requests given by -i and -o end with a -o, [main] never
    connects, enters no mode and opens none of the files; and when the
    option loop runs to its end, the very next thing [main] does is to
    print "--output/-o must be followed by --source/-i" on the error stream
    and leave through the clean-up with a failure. *)
Theorem dangling_output_rejected env opts positional r :
  last (requests_of opts) = Some r ->
  is_input r = false ->
  forallb quiet (fst (main env opts positional)) = true
  /\ forall ev fr,
       parse_options env opts = (ev, Next fr) ->
       main env opts positional
       = (ev ++ [Fprintf state_err dangling_output_message]
             ++ cleanup_events fr (requests_of opts),
          Exit EXIT_FAILURE).
Proof.
  intros Hl Hin.
  assert (Hmain : forall ev fr,
    parse_options env opts = (ev, Next fr) ->
    main env opts positional
    = (ev ++ [Fprintf state_err dangling_output_message]
          ++ cleanup_events fr (requests_of opts),
       Exit EXIT_FAILURE)).
  { intros ev fr Hp.
    destruct (parse_options_next _ _ _ _ Hp) as (Hh & _).
    rewrite app_assoc. eapply main_of_before_cleanup; [| exact Hh].
    assert (Hpos : 0 < nfile_io_requests fr).
    { destruct Hh as (_ & Hn & _). rewrite Hn.
      destruct (requests_of opts); [discriminate | simpl; lia]. }
    destruct (holds_last_load _ _ Hh Hpos) as (r' & Hl' & Hld).
    rewrite Hl in Hl'. injection Hl' as <-.
    assert (Hc : check_last_request fr
                 = ([Fprintf state_err dangling_output_message],
                    Goto_cleanup EXIT_FAILURE fr)).
    { unfold check_last_request.
      apply Z.ltb_lt in Hpos. rewrite Hpos, Hld, Hin. reflexivity. }
    unfold before_mode, after_options. rewrite Hp, bind_of_next, Hc.
    reflexivity. }
  split; [| exact Hmain].
  destruct (parse_options env opts) as [ev k] eqn:Hp.
  destruct (parse_options_sound _ _ _ _ Hp) as (Hq & Hk).
  destruct k as [fr | result fr | code | ]; try contradiction.
  - rewrite (Hmain _ _ eq_refl). simpl.
    rewrite forallb_app, Hq. simpl. apply cleanup_events_quiet.
  - destruct (main_stops_before_mode env opts positional ev
                (Goto_cleanup result fr)) as (_ & tail & -> & Ht).
    + unfold before_mode. rewrite Hp. reflexivity.
    + discriminate.
    + simpl. rewrite forallb_app, Hq, Ht. reflexivity.
  - destruct (main_stops_before_mode env opts positional ev (Exit_now code))
      as (_ & tail & -> & Ht).
    + unfold before_mode. rewrite Hp. reflexivity.
    + discriminate.
    + simpl. rewrite forallb_app, Hq, Ht. reflexivity.
Qed.

Lemma dangling_output_rejected_witness :
  main terminal_env [OPT_o "a.csv"] []
  = ([Client_init; Fprintf state_err dangling_output_message;
      Shell_state_destroy; Free "a.csv"; Fclose_tty; Client_cleanup],
     Exit EXIT_FAILURE).
Proof.
  destruct (dangling_output_rejected terminal_env [OPT_o "a.csv"] []
              {| filename := "a.csv"; is_input := false |}
              eq_refl eq_refl) as [_ H].
  exact (H _ _ eq_refl).
Defined.

(** ** C3: --pipeline-max *)

(** C3. When the argument of --pipeline-max parses (by [atoi]) to a
    positive n, the option is accepted without a word, the shell state
    stores n as pipeline_max and the connection configuration receives
    exactly 2 * n as its flow-control hint (the [int] product does not
    even wrap below 2^30); and unless a later --pipeline-max replaces
    them, these are the values in the state that [db_connect] is called
    with. When the argument parses to 0 or to a negative value, [main]
    prints "Invalid pipeline-max '...'" and leaves with a failure at once,
    whatever follows on the command line, without connecting. *)
Theorem pipeline_max_doubled env optarg :
  let n := Atoi.atoi optarg in
  (1 <= n ->
   forall fr, exists fr',
     handle_option env (PIPELINE_MAX_OPT optarg) fr = ([], Next fr')
     /\ pipeline_max (state fr') = n
     /\ max_pipelined_requests (config (state fr')) = 2 * n
     /\ (n < 2 ^ 30 -> Int.mul n 2 = 2 * n))
  /\ (1 <= n ->
      forall pre rest positional st target,
        Forall (fun c => writes c <> Some Pipeline_max) rest ->
        In (Db_connect st target)
           (fst (main env (pre ++ PIPELINE_MAX_OPT optarg :: rest)
                   positional)) ->
        pipeline_max st = n
        /\ max_pipelined_requests (config st) = 2 * n)
  /\ (n <= 0 ->
      forall pre rest positional ev fr,
        parse_options env pre = (ev, Next fr) ->
        main env (pre ++ PIPELINE_MAX_OPT optarg :: rest) positional
        = (ev ++ [Fprintf state_err (invalid_message "pipeline-max" optarg)]
              ++ cleanup_events fr (requests_of pre),
           Exit EXIT_FAILURE)
        /\ forallb quiet
             (fst (main env (pre ++ PIPELINE_MAX_OPT optarg :: rest)
                     positional)) = true).
Proof.
  intros n.
  assert (Hstep : 1 <= n -> forall fr, exists fr',
            handle_option env (PIPELINE_MAX_OPT optarg) fr = ([], Next fr')
            /\ pipeline_max (state fr') = n
            /\ max_pipelined_requests (config (state fr')) = 2 * n
            /\ (n < 2 ^ 30 -> Int.mul n 2 = 2 * n)).
  { intros Hn fr. eexists. simpl.
    rewrite positive_arg_accepts by exact Hn.
    split; [reflexivity |]. simpl. fold n.
    pose proof (atoi_range optarg) as [_ Hmax]. fold n in Hmax.
    repeat split.
    + apply to_unsigned_double. lia.
    + intros Hs. unfold Int.mul. rewrite to_int_id; [lia |].
      unfold Int.in_int, Int.INT_MIN, Int.INT_MAX. lia. }
  split; [exact Hstep |]. split.
  - intros Hn pre rest positional st target Hrest He.
    apply connect_event_origin in He as (ev0 & fr0 & Hp & He).
    apply after_options_keeps_pipeline in He.
    rewrite parse_options_app in Hp.
    apply bind_next in Hp as (ev1 & fr1 & ev2 & _ & Hloop & _).
    simpl in Hloop.
    apply bind_next in Hloop as (ev3 & fr2 & ev4 & Hc & Hloop & _).
    apply (getopt_loop_keeps_pipeline _ _ _ _ _ Hrest) in Hloop.
    destruct (Hstep Hn fr1) as (fr2' & Hc' & Hpm & Hhint & _).
    simpl in Hc, Hc'. rewrite Hc in Hc'. injection Hc' as _ <-.
    rewrite Hloop in He. unfold pipeline_settings in He.
    injection He as -> ->. auto.
  - intros Hn pre rest positional ev fr Hp.
    apply (main_stops_at_option _ _ _ _ _ _ fr); [exact Hp |].
    simpl. apply positive_arg_rejects. fold n. lia.
Qed.

Lemma connected_state_reached :
  In (Db_connect connected_state "localhost")
     (fst (main terminal_env ([] ++ PIPELINE_MAX_OPT "5" :: [OPT_v])
             ["localhost"])).
Proof. vm_compute. right. right. left. reflexivity. Qed.

Lemma pipeline_max_doubled_witness :
  (pipeline_max connected_state = 5
   /\ max_pipelined_requests (config connected_state) = 10)
  /\ snd (main terminal_env [PIPELINE_MAX_OPT "0"] ["localhost"])
     = Exit EXIT_FAILURE.
Proof.
  destruct (pipeline_max_doubled terminal_env "5") as (_ & Hok & _).
  destruct (pipeline_max_doubled terminal_env "0") as (_ & _ & Hbad).
  split.
  - apply (Hok ltac:(vm_compute; discriminate) [] [OPT_v] ["localhost"]
                connected_state "localhost").
    + repeat constructor; discriminate.
    + exact connected_state_reached.
  - destruct (Hbad ltac:(vm_compute; discriminate) [] [] ["localhost"] _ _
                eq_refl) as [H _].
    simpl app in H. rewrite H. reflexivity.
Defined.

(** ** C4: the numeric options *)

(** C4, as amended. For --pipeline-max and for --source-max-depth alike,
    the argument is judged by [atoi]: when [atoi] gives less than 1 the
    diagnostic "Invalid ... '...'" is printed and [main] leaves with a
    failure at once, whatever follows on the command line; when it gives
    1 or more the option is accepted with that value. [atoi] gives 0 for
    an argument with no numeric prefix and the denoted value for a numeral
    within [int], so these are rejected or accepted as the specification
    says; an argument that only starts with a numeral is read as that
    numeral. *)
Theorem numeric_options_by_atoi env optarg :
  let n := Atoi.atoi optarg in
  (n < 1 ->
   forall pre rest positional ev fr,
     parse_options env pre = (ev, Next fr) ->
     main env (pre ++ PIPELINE_MAX_OPT optarg :: rest) positional
     = (ev ++ [Fprintf state_err (invalid_message "pipeline-max" optarg)]
           ++ cleanup_events fr (requests_of pre),
        Exit EXIT_FAILURE)
     /\ main env (pre ++ SOURCE_MAX_DEPTH_OPT optarg :: rest) positional
        = (ev ++ [Fprintf state_err
                    (invalid_message "source-max-depth" optarg)]
              ++ cleanup_events fr (requests_of pre),
           Exit EXIT_FAILURE))
  /\ (1 <= n ->
      forall fr,
        (exists fr',
           handle_option env (PIPELINE_MAX_OPT optarg) fr = ([], Next fr')
           /\ pipeline_max (state fr') = n)
        /\ (exists fr',
              handle_option env (SOURCE_MAX_DEPTH_OPT optarg) fr
              = ([], Next fr')
              /\ source_max_depth (state fr') = n))
  /\ (numeric_prefix optarg = false -> n = 0)
  /\ (forall v, numeral optarg = Some v -> Int.in_int v -> n = v).
Proof.
  intros n. split; [| split; [| split]].
  - intros Hn pre rest positional ev fr Hp. split.
    + apply (main_stops_at_option _ _ _ _ _ _ fr); [exact Hp |].
      simpl. apply positive_arg_rejects. exact Hn.
    + apply (main_stops_at_option _ _ _ _ _ _ fr); [exact Hp |].
      simpl. apply positive_arg_rejects. exact Hn.
  - intros Hn fr. split; eexists; simpl;
      rewrite positive_arg_accepts by exact Hn; split; reflexivity.
  - apply atoi_no_numeric_prefix.
  - apply atoi_numeral.
Qed.

Lemma numeric_options_by_atoi_witness :
  snd (main detached_env [OPT_v; SOURCE_MAX_DEPTH_OPT "-3"; OPT_h] [])
  = Exit EXIT_FAILURE
  /\ (exists fr',
        handle_option detached_env (SOURCE_MAX_DEPTH_OPT "7")
          (initial_frame detached_env) = ([], Next fr')
        /\ source_max_depth (state fr') = 7)
  /\ Atoi.atoi "seven" = 0
  /\ Atoi.atoi "-3" = -3.
Proof.
  destruct (numeric_options_by_atoi detached_env "-3") as (Hbad & _ & _ & Hnum).
  destruct (numeric_options_by_atoi detached_env "7") as (_ & Hok & _ & _).
  destruct (numeric_options_by_atoi detached_env "seven") as (_ & _ & Hpre & _).
  split; [| split; [| split]].
  - destruct (Hbad ltac:(vm_compute; reflexivity) [OPT_v] [OPT_h] [] _ _
                eq_refl) as [_ H].
    simpl app in H. rewrite H. reflexivity.
  - destruct (Hok ltac:(vm_compute; discriminate) (initial_frame detached_env))
      as [_ H]. exact H.
  - exact (Hpre eq_refl).
  - apply (Hnum (-3) eq_refl). vm_compute. split; discriminate.
Defined.

(** C4 as the specification states it fails: "5abc" is not a numeral,
    and both options accept it, as 5. *)
Lemma numeric_options_counterexample :
  positive_numeral "5abc" = false
  /\ (exists fr',
        handle_option detached_env (PIPELINE_MAX_OPT "5abc")
          (initial_frame detached_env) = ([], Next fr')
        /\ pipeline_max (state fr') = 5)
  /\ (exists fr',
        handle_option detached_env (SOURCE_MAX_DEPTH_OPT "5abc")
          (initial_frame detached_env) = ([], Next fr')
        /\ source_max_depth (state fr') = 5)
  /\ snd (main detached_env [PIPELINE_MAX_OPT "5abc"] []) = Exit EXIT_SUCCESS.
Proof.
  split; [reflexivity |].
  split; [eexists; split; reflexivity |].
  split; [eexists; split; reflexivity |].
  reflexivity.
Qed.

(** ** C5: -P without a terminal *)

(** C5. When the option loop reaches -P and the handle on the controlling
    terminal is not open, [main] prints "Cannot prompt for a password
    without a tty" on the error stream and leaves with a failure, without
    looking at the rest of the command line, connecting or entering a
    mode. When the handle is open, -P is not ignored either: it sets the
    password-prompt flag. *)
Theorem password_prompt_needs_tty env pre rest positional ev fr :
  parse_options env pre = (ev, Next fr) ->
  (tty fr = false ->
   main env (pre ++ OPT_P :: rest) positional
   = (ev ++ [Fprintf state_err no_tty_message]
         ++ cleanup_events fr (requests_of pre),
      Exit EXIT_FAILURE)
   /\ forallb quiet (fst (main env (pre ++ OPT_P :: rest) positional)) = true)
  /\ (tty fr = true ->
      exists fr',
        handle_option env OPT_P fr = ([], Next fr')
        /\ password_prompt (state fr') = true).
Proof.
  intros Hp. split.
  - apply prompt_without_tty. exact Hp.
  - intros Ht. eexists. simpl. rewrite Ht. split; reflexivity.
Qed.

Lemma password_prompt_needs_tty_witness :
  main detached_env [OPT_u "neo4j"; OPT_P] ["localhost"]
  = ([Client_init; Fprintf state_err no_tty_message;
      Shell_state_destroy; Client_cleanup],
     Exit EXIT_FAILURE).
Proof.
  destruct (password_prompt_needs_tty detached_env [OPT_u "neo4j"] []
              ["localhost"] _ _ eq_refl) as [H _].
  destruct (H eq_refl) as [Hmain _]. exact Hmain.
Defined.

(** ** C6: the bound on the requests *)

(** C6. The option loop never stores a request outside the array, and
    [main] as a whole never reads or writes it out of bounds: it always
    exits. After a loop that ran to its end the array holds exactly the
    requests of the command line, in order, and they are at most 128. A
    request met when 128 are already stored makes [main] print "Too many
    --source and/or --output args" and leave with a failure, without
    connecting, entering a mode or opening a file. *)
Theorem requests_bounded env :
  (forall opts positional,
     exists trace code, main env opts positional = (trace, Exit code))
  /\ (forall opts ev k,
        parse_options env opts = (ev, k) -> k <> Fault)
  /\ (forall opts ev fr,
        parse_options env opts = (ev, Next fr) ->
        nfile_io_requests fr = Z.of_nat (length (requests_of opts))
        /\ nfile_io_requests fr <= NEO4J_MAX_FILE_IO_ARGS
        /\ length (file_io_requests fr) = Z.to_nat NEO4J_MAX_FILE_IO_ARGS
        /\ queue fr = map Some (requests_of opts))
  /\ (forall pre c rest positional ev fr,
        is_request c = true ->
        parse_options env pre = (ev, Next fr) ->
        NEO4J_MAX_FILE_IO_ARGS <= Z.of_nat (length (requests_of pre)) ->
        main env (pre ++ c :: rest) positional
        = (ev ++ [Fprintf state_err too_many_message]
              ++ cleanup_events fr (requests_of pre),
           Exit EXIT_FAILURE)
        /\ forallb quiet (fst (main env (pre ++ c :: rest) positional))
           = true).
Proof.
  split; [| split; [| split]].
  - intros opts positional. apply main_defined.
  - intros opts ev k Hp ->. apply parse_options_sound in Hp as (_ & []).
  - intros opts ev fr Hp.
    destruct (parse_options_next _ _ _ _ Hp) as ((Hlen & Hn & Hmax & Hq) & _).
    auto.
  - intros pre c rest positional ev fr Hc Hp Hfull.
    destruct (parse_options_next _ _ _ _ Hp) as (Hh & _).
    pose proof Hh as (_ & Hn & _).
    destruct (handle_request_when_full env c fr _ Hc Hh ltac:(lia))
      as (fr' & Hstep & Ha & Hb & Ht & Hpr).
    destruct (main_stops_at_option _ _ _ rest positional _ _ _ _ _ Hp Hstep)
      as (Hmain & Hquiet).
    split; [| exact Hquiet]. rewrite Hmain.
    unfold cleanup_events. rewrite Ht, Hpr. reflexivity.
Qed.

Lemma parse_full_queue :
  parse_options detached_env full_queue = ([Client_init], Next full_frame).
Proof. vm_compute. reflexivity. Qed.

Lemma full_queue_length :
  NEO4J_MAX_FILE_IO_ARGS <= Z.of_nat (length (requests_of full_queue)).
Proof. vm_compute. discriminate. Qed.

Lemma requests_bounded_witness :
  main detached_env (full_queue ++ [OPT_i "in"]) []
  = ([Client_init] ++ [Fprintf state_err too_many_message]
       ++ cleanup_events full_frame (requests_of full_queue),
     Exit EXIT_FAILURE).
Proof.
  exact (proj1 (proj2 (proj2 (proj2 (requests_bounded detached_env)))
                  full_queue (OPT_i "in") [] [] [Client_init] full_frame
                  eq_refl parse_full_queue full_queue_length)).
Defined.

(** ** C7: the nesting depth at the entry of a mode *)

(** C7, as amended. Whenever [interact] or [batch] is entered, the state
    it receives has the nesting depth at exactly 1; a [:source] issued
    from there passes the depth guard exactly when source-max-depth is 2
    or more. *)
Theorem depth_baseline env opts positional st :
  In (Interact st) (fst (main env opts positional))
  \/ In (Batch st) (fst (main env opts positional)) ->
  source_depth st = 1
  /\ (nested_source_permitted st = true <-> 2 <= source_max_depth st).
Proof.
  intros H. apply entry_state in H as (ev & fr & _ & Hd & _).
  split; [exact Hd |]. unfold nested_source_permitted. rewrite Hd.
  rewrite Z.leb_le. lia.
Qed.

Lemma depth_2_state_entered :
  In (Interact depth_2_state)
     (fst (main detached_env [SOURCE_MAX_DEPTH_OPT "2"] []))
  \/ In (Batch depth_2_state)
       (fst (main detached_env [SOURCE_MAX_DEPTH_OPT "2"] [])).
Proof. right. vm_compute. right. right. left. reflexivity. Qed.

Lemma depth_baseline_witness :
  source_depth depth_2_state = 1
  /\ nested_source_permitted depth_2_state = true.
Proof.
  destruct (depth_baseline detached_env [SOURCE_MAX_DEPTH_OPT "2"] []
              depth_2_state depth_2_state_entered) as [Hd Hp].
  split; [exact Hd |]. apply Hp. vm_compute. discriminate.
Defined.

(** C7 as the specification states it fails: with --source-max-depth 1,
    the smallest value the option accepts, the batch on standard input is
    entered at depth 1 and the guard refuses a nested [:source]. *)
Lemma depth_baseline_counterexample :
  exists st,
    In (Batch st) (fst (main detached_env [SOURCE_MAX_DEPTH_OPT "1"] []))
    /\ source_depth st = 1
    /\ source_max_depth st = 1
    /\ nested_source_permitted st = false.
Proof.
  eexists. split; [right; right; left; reflexivity |].
  repeat split.
Qed.

(** ** C8: options that assign the same setting *)

(** C8. When an option that assigns a setting is accepted and a later
    option on the command line assigns the same setting, the state and
    the configuration at the end of the option loop are those of the
    command line without the earlier option: the earlier value is
    overwritten, and the earlier option prints nothing. This holds from
    any point of the loop, whatever stands between and after the two
    options, and in particular for the later option taken alone. *)
Theorem last_write_wins env c1 c2 f fr ev1 fr1 :
  writes c1 = Some f ->
  writes c2 = Some f ->
  handle_option env c1 fr = (ev1, Next fr1) ->
  ev1 = []
  /\ (forall ev fr',
        handle_option env c2 fr1 = (ev, Next fr')
        <-> handle_option env c2 fr = (ev, Next fr'))
  /\ (forall mid post ev fr',
        getopt_loop env (c1 :: mid ++ c2 :: post) fr = (ev, Next fr')
        <-> getopt_loop env (mid ++ c2 :: post) fr = (ev, Next fr'))
  /\ (forall pre ev0,
        parse_options env pre = (ev0, Next fr) ->
        forall mid post ev fr',
          parse_options env (pre ++ c1 :: mid ++ c2 :: post) = (ev, Next fr')
          <-> parse_options env (pre ++ mid ++ c2 :: post) = (ev, Next fr')).
Proof.
  intros Hw1 Hw2 H1.
  destruct (handle_option_writes _ _ _ _ _ _ Hw1 H1) as (-> & Hf).
  assert (Hone : forall a b ev fr',
            forget f a = forget f b ->
            handle_option env c2 a = (ev, Next fr') ->
            handle_option env c2 b = (ev, Next fr')).
  { intros a b ev fr' Hab Ha.
    destruct (handle_option_forget env c2 f a b Hab) as (Hev & _ & Hsame).
    rewrite Ha in Hev, Hsame. simpl in Hev.
    specialize (Hsame Hw2 fr' eq_refl).
    destruct (handle_option env c2 b) as [evb kb]. simpl in Hev, Hsame.
    subst. reflexivity. }
  assert (Hloop : forall mid post ev fr',
            getopt_loop env (c1 :: mid ++ c2 :: post) fr = (ev, Next fr')
            <-> getopt_loop env (mid ++ c2 :: post) fr = (ev, Next fr')).
  { intros mid post ev fr'.
    change (getopt_loop env (c1 :: mid ++ c2 :: post) fr)
      with (handle_option env c1 fr ;> getopt_loop env (mid ++ c2 :: post)).
    rewrite H1, bind_of_next. simpl app.
    rewrite <- surjective_pairing.
    split; apply getopt_loop_overwrites with (f := f); auto. }
  split; [reflexivity |]. split; [| split].
  - intros ev fr'. split; apply Hone; auto.
  - exact Hloop.
  - intros pre ev0 Hp mid post ev fr'.
    rewrite !parse_options_app, Hp, !bind_of_next.
    destruct (getopt_loop env (c1 :: mid ++ c2 :: post) fr) as [eva ka] eqn:Ea.
    destruct (getopt_loop env (mid ++ c2 :: post) fr) as [evb kb] eqn:Eb.
    simpl. split; intros [= <- ->].
    + apply (proj1 (Hloop mid post _ _)) in Ea. rewrite Eb in Ea.
      injection Ea as -> ->. reflexivity.
    + apply (proj2 (Hloop mid post _ _)) in Eb. rewrite Ea in Eb.
      injection Eb as -> ->. reflexivity.
Qed.

Lemma last_write_wins_witness :
  getopt_loop terminal_env
    (COLORIZE_OPT :: [OPT_v] ++ NO_COLORIZE_OPT :: [HISTFILE_OPT "later"])
    (initial_frame terminal_env)
  = ([],
     Next (on_state (set_histfile (Some "later"))
             (on_state (set_error_colorize no_error_colorization)
                (set_log_level 2 (initial_frame terminal_env))))).
Proof.
  destruct (last_write_wins terminal_env COLORIZE_OPT NO_COLORIZE_OPT
              Error_colorize (initial_frame terminal_env) _ _
              eq_refl eq_refl eq_refl) as (_ & _ & H & _).
  apply H. reflexivity.
Defined.

(** ** C9: the password in the configuration *)

(** C9. Every run that gets past the connection phase, with or without
    an endpoint, reaches the choice of the mode with no password in the
    configuration; the events of a mode are produced only from there, and
    the state that [interact] or [batch] receives holds no password. *)
Theorem password_removed_before_mode env opts positional :
  (forall ev fr,
     before_mode env opts positional = (ev, Next fr) ->
     password (config (state fr)) = None)
  /\ (forall e,
        In e (fst (main env opts positional)) ->
        mode_of_event e <> None ->
        exists ev fr ev' k,
          before_mode env opts positional = (ev, Next fr)
          /\ run_mode env fr = (ev', k)
          /\ In e ev'
          /\ password (config (state fr)) = None)
  /\ (forall st,
        In (Interact st) (fst (main env opts positional))
        \/ In (Batch st) (fst (main env opts positional)) ->
        password (config st) = None).
Proof.
  split; [| split].
  - apply before_mode_password.
  - intros e He Hm.
    destruct (mode_event_origin _ _ _ _ He Hm) as (ev & fr & ev' & k & Hb & Hr & Hin).
    exists ev, fr, ev', k. repeat split; try assumption.
    eapply before_mode_password. exact Hb.
  - intros st H. apply entry_state in H as (ev & fr & Hb & _ & Hc & _).
    rewrite Hc. eapply before_mode_password. exact Hb.
Qed.

Lemma prompted_state_entered :
  In (Interact prompted_state)
     (fst (main prompting_env [OPT_p "secret"] ["localhost"]))
  \/ In (Batch prompted_state)
       (fst (main prompting_env [OPT_p "secret"] ["localhost"])).
Proof. left. vm_compute. right. right. right. left. reflexivity. Qed.

Lemma password_removed_before_mode_witness :
  password (config prompted_state) = None.
Proof.
  destruct (password_removed_before_mode prompting_env [OPT_p "secret"]
              ["localhost"]) as (_ & _ & H).
  exact (H prompted_state prompted_state_entered).
Defined.

(** ** C10: --non-interactive and the terminal *)

(** C10. --non-interactive closes the handle on the controlling terminal
    and clears the interactive flag, and the handle stays closed to the
    end of the option loop. A -P met after it therefore stops [main] with
    "Cannot prompt for a password without a tty" and a failure; a -P met
    before it, with the handle still open, is accepted. And once
    --non-interactive was given, neither the unknown-host callback nor
    the authentication callback is registered: not when [db_connect] is
    called, not when the mode is chosen, whether or not /dev/tty could be
    opened. *)
Theorem non_interactive_closes_tty env :
  (forall fr, exists fr',
     handle_option env NON_INTERACTIVE_OPT fr
     = ((if tty fr then [Fclose_tty] else []), Next fr')
     /\ tty fr' = false /\ interactive (state fr') = false
     /\ password_prompt (state fr') = password_prompt (state fr))
  /\ (forall opts ev fr,
        In NON_INTERACTIVE_OPT opts ->
        parse_options env opts = (ev, Next fr) ->
        tty fr = false)
  /\ (forall pre rest positional ev fr,
        In NON_INTERACTIVE_OPT pre ->
        parse_options env pre = (ev, Next fr) ->
        main env (pre ++ OPT_P :: rest) positional
        = (ev ++ [Fprintf state_err no_tty_message]
              ++ cleanup_events fr (requests_of pre),
           Exit EXIT_FAILURE))
  /\ (forall pre ev fr,
        parse_options env pre = (ev, Next fr) ->
        tty fr = true ->
        exists fr',
          parse_options env (pre ++ [OPT_P; NON_INTERACTIVE_OPT])
          = (ev ++ [Fclose_tty], Next fr')
          /\ password_prompt (state fr') = true /\ tty fr' = false)
  /\ (forall opts positional st target,
        In NON_INTERACTIVE_OPT opts ->
        In (Db_connect st target) (fst (main env opts positional)) ->
        unverified_host_callback (config st) = false
        /\ authentication_reattempt_callback (config st) = false)
  /\ (forall opts positional ev fr,
        In NON_INTERACTIVE_OPT opts ->
        before_mode env opts positional = (ev, Next fr) ->
        unverified_host_callback (config (state fr)) = false
        /\ authentication_reattempt_callback (config (state fr)) = false).
Proof.
  split; [| split; [| split; [| split; [| split]]]].
  - intros fr. simpl. destruct (tty fr) eqn:Ht; eexists;
      (split; [reflexivity |]); simpl; auto.
  - intros opts ev fr Hin Hp.
    apply (tty_closed_after_non_interactive _ _ _ _ Hin Hp).
  - intros pre rest positional ev fr Hin Hp.
    apply prompt_without_tty; [exact Hp |].
    apply (tty_closed_after_non_interactive _ _ _ _ Hin Hp).
  - intros pre ev fr Hp Ht. eexists.
    rewrite parse_options_app, Hp. simpl. rewrite Ht. simpl. rewrite Ht.
    split; [reflexivity |]. simpl. auto.
  - intros opts positional st target Hin He.
    apply connect_event_origin in He as (ev0 & fr0 & Hp & He).
    destruct (after_options_without_tty env positional fr0) as [Hc _].
    + apply (tty_closed_after_non_interactive _ _ _ _ Hin Hp).
    + apply (parse_options_no_callbacks _ _ _ _ Hp).
    + apply (Hc _ _ He).
  - intros opts positional ev fr Hin Hb. unfold before_mode in Hb.
    apply bind_next in Hb as (ev0 & fr0 & ev1 & Hp & Ha & ->).
    destruct (after_options_without_tty env positional fr0) as [_ Hc].
    + apply (tty_closed_after_non_interactive _ _ _ _ Hin Hp).
    + apply (parse_options_no_callbacks _ _ _ _ Hp).
    + specialize (Hc fr). rewrite Ha in Hc. specialize (Hc eq_refl).
      unfold callbacks in Hc. injection Hc as -> ->. auto.
Qed.

Lemma non_interactive_closes_tty_witness :
  main terminal_env ([NON_INTERACTIVE_OPT] ++ OPT_P :: []) ["localhost"]
  = ([Client_init; Fclose_tty; Fprintf state_err no_tty_message;
      Shell_state_destroy; Client_cleanup],
     Exit EXIT_FAILURE).
Proof.
  destruct (non_interactive_closes_tty terminal_env) as (_ & _ & H & _).
  exact (H [NON_INTERACTIVE_OPT] [] ["localhost"] _ _
           (or_introl eq_refl) eq_refl).
Defined.

(** * Further properties of [main] *)

(** ** Counting events *)

Lemma count_events_app p (a b : list event) :
  count_events p (a ++ b) = (count_events p a + count_events p b)%nat.
Proof. induction a as [| e a IH]; simpl; [reflexivity | rewrite IH; lia]. Qed.

Lemma count_events_none p q (ev : list event) :
  forallb q ev = true ->
  (forall e, q e = true -> p e = false) ->
  count_events p ev = O.
Proof.
  intros Hq Hpq. induction ev as [| e ev IH]; simpl in *; [reflexivity |].
  apply andb_true_iff in Hq as [He Hev]. rewrite (Hpq e He), IH; auto.
Qed.

Lemma forallb_weaken (p q : event -> bool) ev :
  (forall e, p e = true -> q e = true) ->
  forallb p ev = true -> forallb q ev = true.
Proof.
  intros Hpq. rewrite !forallb_forall. auto.
Qed.

(** ** The phases of [main] *)

Lemma startup_shape env :
  match startup env with
  | (ev, Exit_now code) =>
      (exists msg, ev = [Perror msg]) /\ code = EXIT_FAILURE
      /\ (fopen_tty env = Failed_other \/ basename_fails env = true)
  | (ev, Goto_cleanup result fr) =>
      ev = [Client_init; Neo4j_perror "unexpected error"]
      /\ result = EXIT_FAILURE
      /\ holds fr [] /\ tty fr = opened env /\ provider fr = false
      /\ fopen_tty env <> Failed_other /\ basename_fails env = false
  | (ev, Next fr) =>
      ev = [Client_init]
      /\ holds fr [] /\ tty fr = opened env /\ provider fr = false
      /\ log_level fr = NEO4J_LOG_WARN
      /\ fopen_tty env <> Failed_other /\ basename_fails env = false
      /\ shell_state_init_fails env = false
      /\ state fr
         = set_error_colorize
             (if stderr_isatty env then ansi_error_colorization
              else no_error_colorization)
             (set_histfile (dot_dir env)
                (set_interactive (stdin_isatty env) (shell_state_init env)))
  | (_, Fault) => False
  end.
Proof.
  unfold startup, goto_cleanup.
  pose proof (holds_initial env) as Hh.
  destruct (fopen_tty env) eqn:Ho; [| | eauto];
    (destruct (basename_fails env) eqn:Hb; [eauto |]);
    (destruct (shell_state_init_fails env);
     [repeat (split; [first [exact Hh | reflexivity | discriminate] |]);
      reflexivity |]);
    (destruct (dot_dir env) as [path |] eqn:Hd;
     [| repeat (split;
                [first [ reflexivity | discriminate
                       | eapply holds_frame; [ | | exact Hh]; reflexivity ] |]);
        reflexivity ]);
    destruct (stderr_isatty env);
    repeat (split;
            [first [ reflexivity | discriminate
                   | eapply holds_frame; [ | | exact Hh]; reflexivity ] |]);
    reflexivity.
Qed.

(** ** What one turn of the option loop does besides the requests *)

Lemma handle_option_trace env c fr ev k :
  handle_option env c fr = (ev, k) ->
  forallb option_event ev = true
  /\ (forall fr', k = Next fr' \/ (exists r, k = Goto_cleanup r fr') ->
        (count_events is_fclose_tty ev + b2n (tty fr') = b2n (tty fr))%nat)
  /\ match k with
     | Next _ | Goto_cleanup EXIT_SUCCESS _ => existsb is_diagnostic ev = false
     | Goto_cleanup EXIT_FAILURE _ | Fault => True
     | Exit_now _ => False
     end.
Proof.
  intros H. destruct c; simpl in H; unfold_step; unfold store_request in H;
    repeat case_match; simplify_eq; simpl;
    (split; [reflexivity |]);
    (split; [intros fr' [Hk | [r Hk]]; simplify_eq; simpl;
             repeat match goal with
                    | E : tty _ = _ |- _ => simpl in E; rewrite E
                    | E : negb (tty _) = _ |- _ =>
                        apply negb_false_iff in E || apply negb_true_iff in E
                    end; reflexivity
            | auto]).
Qed.

Lemma handle_option_fields env c fr ev fr' :
  handle_option env c fr = (ev, Next fr') ->
  log_level fr'
  = (if is_verbose c then Int.to_uint8 (log_level fr + 1) else log_level fr)
  /\ password_prompt (state fr')
     = password_prompt (state fr) || is_password_prompt c
  /\ error_colorize (state fr')
     = default (error_colorize (state fr)) (colour_flag c)
  /\ histfile (state fr') = default (histfile (state fr)) (history_flag c)
  /\ connect_flags (state fr')
     = (if is_insecure c then Z.lor (connect_flags (state fr)) NEO4J_INSECURE
        else connect_flags (state fr)).
Proof.
  intros H. destruct c; simpl in H; unfold_step; unfold store_request in H;
    repeat case_match; simplify_eq; simpl;
    rewrite ?orb_false_r, ?orb_true_r; auto.
Qed.

(** ** The option loop as a whole *)

Lemma getopt_loop_trace env opts : forall fr ev k,
  getopt_loop env opts fr = (ev, k) ->
  forallb option_event ev = true
  /\ (forall fr', k = Next fr' \/ (exists r, k = Goto_cleanup r fr') ->
        (count_events is_fclose_tty ev + b2n (tty fr') = b2n (tty fr))%nat)
  /\ match k with
     | Next _ | Goto_cleanup EXIT_SUCCESS _ => existsb is_diagnostic ev = false
     | Goto_cleanup EXIT_FAILURE _ | Fault => True
     | Exit_now _ => False
     end.
Proof.
  induction opts as [| c opts IH]; intros fr ev k H.
  - injection H as <- <-. simpl. repeat split.
    intros fr' [[= <-] | [r [=]]]. reflexivity.
  - simpl in H.
    destruct (handle_option env c fr) as [ev1 k1] eqn:H1.
    destruct (handle_option_trace _ _ _ _ _ H1) as (Ho1 & Ht1 & Hd1).
    destruct k1 as [fr1 | r1 fr1 | code1 | ]; simpl in H.
    + destruct (getopt_loop env opts fr1) as [ev2 k2] eqn:H2.
      injection H as <- <-.
      destruct (IH _ _ _ H2) as (Ho2 & Ht2 & Hd2).
      split; [rewrite forallb_app, Ho1, Ho2; reflexivity |].
      split.
      * intros fr' Hk. rewrite count_events_app.
        specialize (Ht2 fr' Hk). specialize (Ht1 fr1 (or_introl eq_refl)). lia.
      * destruct k2 as [fr2 | [] fr2 | code2 | ]; auto;
          rewrite existsb_app, Hd1, Hd2; reflexivity.
    + injection H as <- <-. auto.
    + contradiction.
    + injection H as <- <-. auto.
Qed.

Lemma to_uint8_succ z : Int.to_uint8 (Int.to_uint8 z + 1) = Int.to_uint8 (z + 1).
Proof.
  unfold Int.to_uint8. rewrite Zplus_mod_idemp_l. reflexivity.
Qed.

Lemma last_overrides {A B} (f : A -> option B) (a : B) c l :
  default (default a (f c)) (last (omap f l))
  = default a (last (omap f (c :: l))).
Proof.
  change (omap f (c :: l))
    with (match f c with Some y => y :: omap f l | None => omap f l end).
  destruct (f c) as [b |]; [| reflexivity].
  rewrite last_cons. destruct (last (omap f l)); reflexivity.
Qed.

Lemma getopt_loop_fields env opts : forall fr ev fr',
  getopt_loop env opts fr = (ev, Next fr') ->
  Int.to_uint8 (log_level fr')
  = Int.to_uint8 (log_level fr + Z.of_nat (count_verbose opts))
  /\ (uint8 (log_level fr) -> uint8 (log_level fr'))
  /\ password_prompt (state fr')
     = password_prompt (state fr) || existsb is_password_prompt opts
  /\ error_colorize (state fr')
     = default (error_colorize (state fr)) (last (omap colour_flag opts))
  /\ histfile (state fr')
     = default (histfile (state fr)) (last (omap history_flag opts))
  /\ connect_flags (state fr')
     = (if existsb is_insecure opts
        then Z.lor (connect_flags (state fr)) NEO4J_INSECURE
        else connect_flags (state fr)).
Proof.
  induction opts as [| c opts IH]; intros fr ev fr' H.
  - injection H as <- <-. simpl. rewrite Z.add_0_r, orb_false_r.
    repeat split; auto; apply H.
  - simpl in H. apply bind_next in H as (ev1 & fr1 & ev2 & H1 & H2 & ->).
    destruct (handle_option_fields _ _ _ _ _ H1) as (Hl & Hp & Hc & Hh & Hf).
    destruct (IH _ _ _ H2) as (Hl' & Hu' & Hp' & Hc' & Hh' & Hf').
    split; [| split; [| split; [| split; [| split]]]].
    + rewrite Hl', Hl. unfold count_verbose. simpl.
      destruct (is_verbose c); simpl.
      * unfold Int.to_uint8. rewrite Zplus_mod_idemp_l. f_equal. lia.
      * reflexivity.
    + intros Hu. apply Hu'. rewrite Hl. destruct (is_verbose c); [| exact Hu].
      unfold uint8, Int.to_uint8.
      pose proof (Z.mod_pos_bound (log_level fr + 1) (2 ^ 8) ltac:(lia)). lia.
    + rewrite Hp', Hp. simpl. rewrite orb_assoc. reflexivity.
    + rewrite Hc', Hc. apply last_overrides.
    + rewrite Hh', Hh. apply last_overrides.
    + rewrite Hf', Hf. simpl. destruct (is_insecure c); simpl;
        [| reflexivity].
      destruct (existsb is_insecure opts); [| reflexivity].
      rewrite <- Z.lor_assoc, Z.lor_diag. reflexivity.
Qed.

(** When the loop stops at [cleanup], the array holds the requests of the
    options it went through. *)
Lemma getopt_loop_stops_with_prefix env opts : forall fr reqs ev r fr',
  holds fr reqs ->
  getopt_loop env opts fr = (ev, Goto_cleanup r fr') ->
  exists done rest,
    requests_of opts = done ++ rest /\ holds fr' (reqs ++ done)
    /\ provider fr' = provider fr.
Proof.
  induction opts as [| c opts IH]; intros fr reqs ev r fr' Hh H.
  - discriminate.
  - simpl in H.
    destruct (handle_option env c fr) as [ev1 k1] eqn:H1.
    destruct (handle_option_sound _ _ _ _ _ _ Hh H1) as (_ & Hk1).
    destruct k1 as [fr1 | r1 fr1 | code1 | ]; try contradiction; simpl in H.
    + destruct (handle_option_next _ _ _ _ _ _ Hh H1) as (Hh1 & _ & _ & Hp).
      destruct (getopt_loop env opts fr1) as [ev2 k2] eqn:H2.
      injection H as <- ->.
      destruct (IH _ _ _ _ _ Hh1 H2) as (done & rest & Hreq & Hh' & Hp').
      exists (request_of c ++ done), rest. split; [| split].
      * unfold requests_of in *. simpl. rewrite Hreq, app_assoc. reflexivity.
      * rewrite app_assoc. exact Hh'.
      * congruence.
    + injection H as <- <- <-. destruct Hk1 as [Hh1 Hp].
      exists [], (requests_of (c :: opts)). rewrite app_nil_r. auto.
Qed.

(** ** The statements after the loop, and the modes *)

Lemma after_options_trace env positional fr reqs ev k :
  holds fr reqs ->
  provider fr = false ->
  after_options env positional fr = (ev, k) ->
  forallb after_event ev = true
  /\ (count_events is_db_connect ev <= 1)%nat
  /\ (count_events is_logger ev <= 1)%nat
  /\ match k with
     | Next fr' =>
         holds fr' reqs /\ tty fr' = tty fr /\ provider fr' = true
         /\ existsb is_diagnostic ev = false
         /\ count_events is_logger ev = 1%nat
         /\ count_events is_db_connect ev = length positional
     | Goto_cleanup r fr' =>
         holds fr' reqs /\ tty fr' = tty fr /\ r = EXIT_FAILURE
         /\ provider fr' = (0 <? Z.of_nat (count_events is_logger ev))
                           && negb (logger_provider_fails env)
     | Exit_now _ | Fault => False
     end.
Proof.
  intros Hh Hprov. unfold after_options. unfold_after.
  cbn [tty nfile_io_requests].
  assert (Hlast : 0 < nfile_io_requests fr ->
                  exists r, load_request fr (nfile_io_requests fr - 1) = Some r).
  { intros Hpos. destruct (holds_last_load _ _ Hh Hpos) as (r & _ & Hr). eauto. }
  destruct (0 <? nfile_io_requests fr) eqn:Hpos;
    [apply Z.ltb_lt in Hpos; destruct (Hlast Hpos) as [r ->];
     destruct (is_input r) | ];
    clear Hlast; simpl;
    destruct (1 <? Z.of_nat (length positional)) eqn:Hlen;
    simpl;
    destruct (logger_provider_fails env);
    simpl;
    destruct (interactive (state fr));
    simpl;
    destruct (tty fr) eqn:Ht; simpl;
    try destruct (password_prompt (state fr)); simpl;
    destruct positional as [| tg [| tg' rest]]; simpl in Hlen |- *;
    try discriminate Hlen;
    try match goal with
        | |- context [connect_failed ?o] => destruct (connect_failed o)
        end;
    simpl; intros [= <- <-]; simpl;
    repeat match goal with
           | |- _ /\ _ => split
           end;
    try reflexivity; try lia;
    try (eapply holds_frame; [ | | exact Hh]; reflexivity);
    try exact Ht; try exact Hprov;
    try (exfalso; apply Z.ltb_ge in Hlen; simpl in Hlen; lia).
Qed.

Lemma replay_requests_list env fr reqs :
  holds fr reqs ->
  forall (left i : nat),
    (i + left = length reqs)%nat ->
    replay_requests env (Z.of_nat i) left fr
    = (map event_of_request (fst (replay env (drop i reqs))),
       if snd (replay env (drop i reqs))
       then Goto_cleanup EXIT_FAILURE fr else Next fr).
Proof.
  intros Hh. pose proof Hh as (_ & Hn & Hmax & _).
  induction left as [| left IH]; intros i Hi; cbn [replay_requests].
  - rewrite drop_ge by lia. reflexivity.
  - destruct (lookup_lt_is_Some_2 reqs i ltac:(lia)) as [r Hr].
    rewrite (holds_load _ _ _ _ Hh Hr).
    rewrite to_unsigned_id by (unfold NEO4J_MAX_FILE_IO_ARGS in *; lia).
    replace (Z.of_nat i + 1) with (Z.of_nat (S i)) by lia.
    rewrite (drop_S _ _ _ Hr). cbn [replay].
    specialize (IH (S i) ltac:(lia)). unfold request_fails.
    destruct (is_input r) eqn:Hin; cbn [negb];
      [destruct (source env (filename r)) |
       destruct (redirect_output env (filename r))];
      cbv beta iota;
      try (simpl; unfold event_of_request; rewrite Hin; reflexivity);
      rewrite bind_of_next, IH;
      destruct (replay env (drop (S i) reqs)) as [done failed]; simpl;
      unfold event_of_request; rewrite Hin; reflexivity.
Qed.

Lemma run_mode_trace env fr reqs :
  holds fr reqs ->
  exists ev k fr',
    run_mode env fr = (ev, k)
    /\ (k = Next fr' \/ k = Goto_cleanup EXIT_FAILURE fr')
    /\ holds fr' reqs /\ tty fr' = tty fr /\ provider fr' = provider fr
    /\ ev <> [] /\ forallb mode_event ev = true.
Proof.
  intros Hh.
  destruct (run_mode_spec env fr reqs Hh)
    as (ev & k & fr' & Hr & Hk & Hh' & Ht & Hp & Hne & Hm & _).
  exists ev, k, fr'.
  do 6 (split; [assumption |]).
  apply forallb_forall. intros e He. unfold mode_event. rewrite (Hm e He).
  reflexivity.
Qed.

Ltac same_trace :=
  repeat (simpl; rewrite <- ?app_assoc); rewrite ?app_nil_r; reflexivity.

Ltac split_ands := repeat match goal with |- _ /\ _ => split end.

(** [main] phase by phase: either it leaves through [exit] before
    anything is set up, or its trace is made of the events of the start,
    of the option loop, of the statements after it, of the mode and of the
    clean-up, in this order. *)
Lemma main_phases env opts positional :
  (exists msg,
     main env opts positional = ([Perror msg], Exit EXIT_FAILURE)
     /\ (fopen_tty env = Failed_other \/ basename_fails env = true))
  \/ (fopen_tty env <> Failed_other /\ basename_fails env = false
      /\ exists evs evp eva evm fr reqs rest code,
           main env opts positional
           = (Client_init :: evs ++ evp ++ eva ++ evm
                ++ cleanup_events fr reqs, Exit code)
           /\ (evs = [] \/ evs = [Neo4j_perror "unexpected error"])
           /\ forallb option_event evp = true
           /\ forallb after_event eva = true
           /\ forallb mode_event evm = true
           /\ holds fr reqs
           /\ requests_of opts = reqs ++ rest
           /\ (count_events is_fclose_tty evp + b2n (tty fr)
               = b2n (opened env))%nat
           /\ (code = EXIT_SUCCESS ->
               existsb is_diagnostic (evs ++ evp ++ eva) = false)
           /\ (count_events is_db_connect eva <= 1)%nat
           /\ (count_events is_logger eva <= 1)%nat
           /\ b2n (provider fr)
              = (if logger_provider_fails env then O
                 else count_events is_logger eva)
           /\ (forall ev1 fr1,
                 parse_options env opts = (ev1, Next fr1) ->
                 rest = [] /\ eva = fst (after_options env positional fr1))
           /\ (eva <> [] \/ evm <> [] ->
               exists ev1 fr1, parse_options env opts = (ev1, Next fr1))
           /\ (evm <> [] ->
               exists ev2 fr2,
                 before_mode env opts positional = (ev2, Next fr2)
                 /\ run_mode env fr2 = (evm, snd (run_mode env fr2))
                 /\ code = exit_of (snd (run_mode env fr2)))).
Proof.
  unfold main, before_mode, parse_options.
  pose proof (startup_shape env) as Hs.
  destruct (startup env) as [evs ks].
  destruct ks as [fr0 | r0 fr0 | code0 | ]; try contradiction.
  2: { destruct Hs as (-> & -> & Hh & Ht & Hp & Ho & Hb).
       right. split; [exact Ho |]. split; [exact Hb |].
       exists [Neo4j_perror "unexpected error"], [], [], [], fr0, [],
         (requests_of opts), EXIT_FAILURE.
       simpl. rewrite (cleanup_holds _ _ _ _ Hh).
       split_ands; auto; try discriminate; try congruence;
         try solve [intros [? | ?]; congruence];
         try solve [intros ? ? [=]].
       rewrite Hp. destruct (logger_provider_fails env); reflexivity. }
  2: { destruct Hs as ((msg & ->) & -> & Hc). left. exists msg. auto. }
  destruct Hs as (-> & Hh0 & Ht0 & Hp0 & _ & Ho & Hb & _).
  right. split; [exact Ho |]. split; [exact Hb |].
  rewrite bind_of_next.
  destruct (getopt_loop env opts fr0) as [evp kp] eqn:Hloop.
  destruct (getopt_loop_trace _ _ _ _ _ Hloop) as (Hevp & Htty & Hdiag).
  destruct (getopt_loop_sound _ _ _ _ _ _ Hh0 Hloop) as (_ & Hkp).
  destruct kp as [fr1 | r1 fr1 | code1 | ]; try contradiction.
  - (* the loop ran to its end *)
    destruct (getopt_loop_next _ _ _ _ _ _ Hh0 Hloop) as (Hh1 & _ & _ & Hp1).
    simpl app in Hh1. simpl fst. simpl snd. rewrite bind_of_next.
    destruct (after_options env positional fr1) as [eva ka] eqn:Hafter.
    destruct (after_options_trace _ _ _ _ _ _ Hh1 ltac:(congruence) Hafter)
      as (Heva & Hconn & Hlog & Hka).
    specialize (Htty fr1 (or_introl eq_refl)).
    destruct ka as [fr2 | r2 fr2 | code2 | ]; try contradiction.
    + destruct Hka as (Hh2 & Ht2 & Hp2 & Hd2 & Hl2 & _).
      simpl fst. simpl snd. rewrite bind_of_next.
      destruct (run_mode_trace env fr2 _ Hh2)
        as (evm & km & fr3 & Hrun & Hkm & Hh3 & Ht3 & Hp3 & Hne & Hevm).
      rewrite Hrun. simpl fst. simpl snd.
      assert (Hlogger : logger_provider_fails env = false).
      { destruct (logger_provider_fails env) eqn:Hf; [| reflexivity].
        exfalso. revert Hafter. unfold after_options. unfold_after.
        rewrite Hf.
        destruct (0 <? nfile_io_requests fr1);
          [destruct (load_request fr1 (nfile_io_requests fr1 - 1)) as [r |];
             [destruct (is_input r) |] |];
          simpl; try discriminate;
          destruct (1 <? Z.of_nat (length positional)); simpl; discriminate. }
      exists [], evp, eva, evm, fr3, (requests_of opts), [], (exit_of km).
      split.
      { destruct Hkm as [-> | ->]; simpl;
          rewrite (cleanup_holds _ _ _ _ Hh3); same_trace. }
      split_ands; auto;
        try solve [rewrite app_nil_r; reflexivity];
        try solve [rewrite Ht3, Ht2; rewrite <- Ht0; exact Htty];
        try solve [intros _; simpl; rewrite existsb_app, Hd2;
                   simpl in Hdiag; rewrite Hdiag; reflexivity];
        try solve [rewrite Hp3, Hp2, Hl2, Hlogger; reflexivity];
        try solve [intros ev1 fr1' [= <- <-]; rewrite Hafter; auto];
        try solve [intros _; eauto];
        try solve [intros _; exists (Client_init :: evp ++ eva), fr2;
                   rewrite Hrun; simpl; auto].
    + destruct Hka as (Hh2 & Ht2 & -> & Hp2).
      simpl.
      exists [], evp, eva, [], fr2, (requests_of opts), [], EXIT_FAILURE.
      split.
      { rewrite (cleanup_holds _ _ _ _ Hh2). same_trace. }
      split_ands; auto; try discriminate; try contradiction;
        try solve [rewrite app_nil_r; reflexivity];
        try solve [rewrite Ht2; rewrite <- Ht0; exact Htty];
        try solve [rewrite Hp2; destruct (logger_provider_fails env); simpl;
                   [rewrite andb_false_r; reflexivity |];
                   rewrite andb_true_r;
                   destruct (count_events is_logger eva) as [| [| n]]; simpl;
                   try reflexivity; lia];
        try solve [intros ev1 fr1' [= <- <-]; rewrite Hafter; auto];
        try solve [intros _; eauto].
  - (* the loop stopped *)
    destruct (getopt_loop_stops_with_prefix _ _ _ _ _ _ _ Hh0 Hloop)
      as (done & rest & Hreq & Hh1 & Hp1).
    simpl app in Hh1. simpl.
    exists [], evp, [], [], fr1, done, rest, r1.
    split.
    { rewrite (cleanup_holds _ _ _ _ Hh1). same_trace. }
    specialize (Htty fr1 (or_intror (ex_intro _ r1 eq_refl))).
    split_ands; auto; try discriminate; try contradiction;
      try solve [rewrite <- Ht0; exact Htty];
      try solve [intros ->; simpl; rewrite app_nil_r; exact Hdiag];
      try solve [rewrite Hp1, Hp0; destruct (logger_provider_fails env);
                 reflexivity];
      try solve [intros ? ? [=]];
      try solve [intros [? | ?]; congruence].
Qed.

(** ** What the statements after the loop hand on *)

Ltac crack_after fr positional env :=
  unfold after_options; unfold_after; cbn [tty nfile_io_requests];
  destruct (0 <? nfile_io_requests fr);
    [destruct (load_request fr (nfile_io_requests fr - 1)) as [r |];
       [destruct (is_input r) |] |];
  simpl;
  destruct (1 <? Z.of_nat (length positional)) eqn:Hlen;
  simpl;
  destruct (logger_provider_fails env);
  simpl;
  destruct (interactive (state fr)) eqn:Hint;
  simpl;
  destruct (tty fr) eqn:Htty; simpl;
  try destruct (password_prompt (state fr)) eqn:Hpp; simpl;
  destruct positional as [| tg [| tg' rest]]; simpl in Hlen |- *;
  try discriminate Hlen;
  try (exfalso; apply Z.ltb_ge in Hlen; cbn [length] in Hlen; lia);
  try match goal with
      | |- context [connect_failed ?o] => destruct (connect_failed o) eqn:Hcf
      end;
  simpl.

Ltac crack_in :=
  repeat match goal with
         | H : _ \/ _ |- _ => destruct H
         | H : False |- _ => contradiction
         | H : In _ [] |- _ => destruct H
         end.

Lemma after_options_fields env positional fr ev fr' :
  after_options env positional fr = (ev, Next fr') ->
  kept_fields (state fr') = kept_fields (state fr)
  /\ prompts_after fr (state fr')
  /\ log_level fr' = log_level fr.
Proof.
  unfold prompts_after, kept_fields. crack_after fr positional env;
    intros [= <- <-]; simpl;
    rewrite ?Hint, ?Hpp, ?orb_false_r, ?orb_true_r; auto.
Qed.

Lemma after_options_connect env positional fr st target :
  In (Db_connect st target) (fst (after_options env positional fr)) ->
  positional = [target]
  /\ kept_fields st = kept_fields (state fr)
  /\ prompts_after fr st
  /\ username (config st) = username (config (state fr))
  /\ password (config st) = password (config (state fr))
  /\ exists fr',
       snd (after_options env positional fr)
       = (if connect_failed (db_connect env st target)
          then Goto_cleanup EXIT_FAILURE fr' else Next fr')
       /\ tty fr' = tty fr.
Proof.
  unfold prompts_after, kept_fields. crack_after fr positional env;
    intros Hin; crack_in; simplify_eq; simpl;
    rewrite ?Hint, ?Hpp, ?orb_false_r, ?orb_true_r;
    split_ands; auto; rewrite ?Hcf; eexists;
    (split; [reflexivity | simpl; assumption]).
Qed.

Lemma after_options_logger env positional fr level flags :
  In (Std_logger_provider level flags)
     (fst (after_options env positional fr)) ->
  level = log_level fr /\ flags = logger_flags fr.
Proof.
  crack_after fr positional env; intros Hin; crack_in; simplify_eq; auto.
Qed.

(** ** The state that a mode receives *)

Lemma run_mode_interact env fr reqs st :
  holds fr reqs ->
  In (Interact st) (fst (run_mode env fr)) ->
  interactive (state fr) = true
  /\ st = set_source_depth 1
            (set_infile (Some "<interactive>")
               (set_render_flags NEO4J_RENDER_SHOW_NULLS
                  (set_render render_results_table (state fr)))).
Proof.
  intros Hh Hin. destruct (run_mode_spec env fr reqs Hh)
    as (ev & k & fr' & Hr & _ & _ & _ & _ & _ & Hm & _).
  rewrite Hr in Hin. simpl in Hin.
  pose proof (Hm _ Hin) as Hs. simpl in Hs. injection Hs as Hs.
  unfold run_mode in Hr. rewrite <- Hs in Hr. unfold run_interactive in Hr.
  injection Hr as <- _. destruct Hin as [[= <-] | []].
  split; [| reflexivity].
  unfold select_mode in Hs. destruct (interactive (state fr));
    [reflexivity | destruct (0 <? _); discriminate].
Qed.

Lemma run_mode_batch env fr reqs st :
  holds fr reqs ->
  In (Batch st) (fst (run_mode env fr)) ->
  interactive (state fr) = false
  /\ reqs = []
  /\ st = set_source_depth 1
            (set_infile (Some "<stdin>")
               (set_render render_results_csv (state fr))).
Proof.
  intros Hh Hin. destruct (run_mode_spec env fr reqs Hh)
    as (ev & k & fr' & Hr & _ & _ & _ & _ & _ & Hm & _).
  rewrite Hr in Hin. simpl in Hin.
  pose proof (Hm _ Hin) as Hs. simpl in Hs. injection Hs as Hs.
  unfold run_mode in Hr. rewrite <- Hs in Hr. unfold run_batch in Hr.
  injection Hr as <- _. destruct Hin as [[= <-] | []].
  unfold select_mode in Hs. destruct (interactive (state fr));
    [discriminate |].
  destruct (0 <? nfile_io_requests fr) eqn:Hpos; [discriminate |].
  split; [reflexivity |]. split; [| reflexivity].
  apply Z.ltb_ge in Hpos. destruct Hh as (_ & Hn & _).
  destruct reqs; [reflexivity | simpl in Hn; lia].
Qed.

(** ** Where the events of the set-up come from *)

Lemma in_forallb (p : event -> bool) e ev :
  forallb p ev = true -> In e ev -> p e = true.
Proof. rewrite forallb_forall. auto. Qed.

Lemma cleanup_events_in e fr reqs :
  In e (cleanup_events fr reqs) ->
  e = Shell_state_destroy \/ e = Logger_provider_free \/ is_free e = true
  \/ e = Fclose_tty \/ e = Client_cleanup.
Proof.
  unfold cleanup_events. rewrite !in_app_iff. simpl.
  intros [[<- | []] | [Hp | [Hf | [Ht | [<- | []]]]]]; auto.
  - destruct (provider fr); [destruct Hp as [<- | []]; auto | destruct Hp].
  - apply in_map_iff in Hf as (r & <- & _). auto.
  - destruct (tty fr); [destruct Ht as [<- | []]; auto | destruct Ht].
Qed.

(** A call of [neo4j_std_logger_provider] or of [db_connect] in the
    trace of [main] was made by the statements after a completed option
    loop. *)
Lemma setup_event_origin env opts positional e :
  In e (fst (main env opts positional)) ->
  is_db_connect e || is_logger e = true ->
  exists ev1 fr1,
    parse_options env opts = (ev1, Next fr1)
    /\ In e (fst (after_options env positional fr1)).
Proof.
  intros Hin He.
  destruct (main_phases env opts positional)
    as [(msg & Hm & _) | (_ & _ & evs & evp & eva & evm & fr & reqs & rest
                            & code & Hm & Hevs & Hevp & Heva & Hevm & _ & _
                            & _ & _ & _ & _ & _ & Hparse & Horigin & _)];
    rewrite Hm in Hin.
  - destruct Hin as [<- | []]. discriminate.
  - simpl in Hin. destruct Hin as [<- | Hin]; [discriminate |].
    rewrite !in_app_iff in Hin.
    destruct Hin as [Hin | [Hin | [Hin | [Hin | Hin]]]].
    + destruct Hevs as [-> | ->]; [destruct Hin |].
      destruct Hin as [<- | []]. discriminate.
    + apply (in_forallb _ _ _ Hevp) in Hin. destruct e; discriminate.
    + destruct Horigin as (ev1 & fr1 & Hp).
      { left. intros ->. destruct Hin. }
      exists ev1, fr1. split; [exact Hp |].
      destruct (Hparse _ _ Hp) as [_ <-]. exact Hin.
    + apply (in_forallb _ _ _ Hevm) in Hin. destruct e; discriminate.
    + apply cleanup_events_in in Hin.
      destruct Hin as [-> | [-> | [Hf | [-> | ->]]]]; try discriminate.
      destruct e; discriminate.
Qed.

(** A mode is entered from a frame that a completed option loop and the
    statements after it produced. *)
Lemma mode_entry_origin env opts positional e :
  In e (fst (main env opts positional)) ->
  mode_of_event e <> None ->
  exists ev0 fr0 ev1 fr1,
    parse_options env opts = (ev0, Next fr0)
    /\ after_options env positional fr0 = (ev1, Next fr1)
    /\ holds fr1 (requests_of opts)
    /\ In e (fst (run_mode env fr1)).
Proof.
  intros Hin He.
  destruct (mode_event_origin _ _ _ _ Hin He) as (ev & fr & ev' & k & Hb & Hr & Hin').
  destruct (before_mode_sound _ _ _ _ _ Hb) as (_ & Hh).
  unfold before_mode in Hb.
  apply bind_next in Hb as (ev0 & fr0 & ev1 & Hp & Ha & ->).
  exists ev0, fr0, ev1, fr. rewrite Hr. auto.
Qed.

(** ** What the option loop leaves in the frame, from a fresh start *)

Lemma parse_options_fields env opts ev fr :
  parse_options env opts = (ev, Next fr) ->
  log_level fr
  = Int.to_uint8 (NEO4J_LOG_WARN + Z.of_nat (count_verbose opts))
  /\ password_prompt (state fr)
     = password_prompt (shell_state_init env)
       || existsb is_password_prompt opts
  /\ error_colorize (state fr)
     = default (if stderr_isatty env then ansi_error_colorization
                else error_colorize (shell_state_init env))
         (last (omap colour_flag opts))
  /\ histfile (state fr)
     = default (dot_dir env) (last (omap history_flag opts))
  /\ connect_flags (state fr)
     = (if existsb is_insecure opts
        then Z.lor (connect_flags (shell_state_init env)) NEO4J_INSECURE
        else connect_flags (shell_state_init env)).
Proof.
  unfold parse_options. pose proof (startup_shape env) as Hs.
  destruct (startup env) as [evs [fr0 | r0 fr0 | code0 | ]];
    try contradiction; try (simpl; discriminate).
  destruct Hs as (_ & _ & _ & _ & Hl & _ & _ & _ & Hst).
  rewrite bind_of_next.
  destruct (getopt_loop env opts fr0) as [evp kp] eqn:Hloop.
  simpl. intros [= _ ->].
  destruct (getopt_loop_fields _ _ _ _ _ Hloop)
    as (Hlevel & Hu & Hpp & Hcol & Hhist & Hflags).
  rewrite Hl in Hlevel, Hu. rewrite Hst in Hpp, Hcol, Hhist, Hflags.
  split_ands.
  - rewrite <- Hlevel. unfold Int.to_uint8. symmetry. apply Z.mod_small.
    assert (H : uint8 (log_level fr))
      by (apply Hu; unfold uint8, NEO4J_LOG_WARN; lia).
    unfold uint8 in H. lia.
  - exact Hpp.
  - rewrite Hcol. destruct (stderr_isatty env); reflexivity.
  - exact Hhist.
  - exact Hflags.
Qed.

Lemma handed_state_origin env opts positional e st :
  In e (fst (main env opts positional)) ->
  state_of_event e = Some st ->
  exists ev1 fr1,
    parse_options env opts = (ev1, Next fr1)
    /\ option_fields st = option_fields (state fr1)
    /\ prompts_after fr1 st.
Proof.
  intros Hin He. destruct e; simpl in He; try discriminate;
    injection He as ->.
  - destruct (setup_event_origin _ _ _ _ Hin eq_refl)
      as (ev1 & fr1 & Hp & Hc).
    destruct (after_options_connect _ _ _ _ _ Hc) as (_ & Hk & Hpr & _).
    exists ev1, fr1. split; [exact Hp |]. split; [| exact Hpr].
    unfold kept_fields in Hk. unfold option_fields. congruence.
  - destruct (mode_entry_origin _ _ _ _ Hin ltac:(discriminate))
      as (ev0 & fr0 & ev1 & fr1 & Hp & Ha & Hh & Hr).
    destruct (run_mode_interact _ _ _ _ Hh Hr) as (_ & ->).
    destruct (after_options_fields _ _ _ _ _ Ha) as (Hk & Hpr & _).
    exists ev0, fr0. split; [exact Hp |].
    unfold kept_fields in Hk. unfold option_fields, prompts_after in *.
    destruct (state fr1); simpl in *. split; [congruence | exact Hpr].
  - destruct (mode_entry_origin _ _ _ _ Hin ltac:(discriminate))
      as (ev0 & fr0 & ev1 & fr1 & Hp & Ha & Hh & Hr).
    destruct (run_mode_batch _ _ _ _ Hh Hr) as (_ & _ & ->).
    destruct (after_options_fields _ _ _ _ _ Ha) as (Hk & Hpr & _).
    exists ev0, fr0. split; [exact Hp |].
    unfold kept_fields in Hk. unfold option_fields, prompts_after in *.
    destruct (state fr1); simpl in *. split; [congruence | exact Hpr].
Qed.

(** ** X1: the option tables and the switch *)

Ltac find_in_table :=
  first [ apply Exists_cons_hd; split; reflexivity
        | apply Exists_cons_tl; find_in_table ].

(** X1. Every long option of [longopts] and every short option of
    [shortopts] selects a case of the switch other than [default], and
    that case reads [optarg] exactly when the table declares the option
    with [required_argument] (for a short option, with a colon): no case
    reads an [optarg] that [getopt_long] leaves unset. The long names are
    pairwise distinct, long options that share a value agree on taking an
    argument, and every short option but -P has a long form of the same
    kind. *)
Theorem option_tables_agree :
  Forall (fun o => forall optarg,
            switch_label (val o) optarg <> OPT_unknown
            /\ reads_optarg (switch_label (val o) optarg)
               = takes_argument (has_arg o)) longopts
  /\ Forall (fun s => forall optarg,
               switch_label (char_code (fst s)) optarg <> OPT_unknown
               /\ reads_optarg (switch_label (char_code (fst s)) optarg)
                  = takes_argument (snd s)) (short_options shortopts)
  /\ NoDup (map option_name longopts)
  /\ Forall (fun o1 =>
       Forall (fun o2 => val o1 = val o2 -> has_arg o1 = has_arg o2)
         longopts) longopts
  /\ Forall (fun s =>
       fst s = "P"%char
       \/ Exists (fun o => val o = char_code (fst s) /\ has_arg o = snd s)
            longopts) (short_options shortopts).
Proof.
  split; [| split; [| split; [| split]]].
  - repeat constructor; discriminate.
  - repeat constructor; discriminate.
  - apply (bool_decide_unpack _). vm_compute. exact I.
  - repeat constructor; cbv; intros H;
      first [reflexivity | discriminate H].
  - unfold longopts.
    repeat apply Forall_cons_2; try apply Forall_nil_2;
      first [left; reflexivity | right; find_in_table].
Qed.

(** ** X2: --help and --version *)

(** X2. When the option loop reaches -h or --version, [main] writes the
    usage text, or the three version lines, on the output stream and
    leaves through the clean-up with EXIT_SUCCESS: the options that
    follow are not looked at, a trailing -o is not reported, nothing
    connects and no mode runs. *)
Theorem help_and_version_succeed env pre rest positional ev fr :
  parse_options env pre = (ev, Next fr) ->
  main env (pre ++ OPT_h :: rest) positional
  = (ev ++ [Usage state_out] ++ cleanup_events fr (requests_of pre),
     Exit EXIT_SUCCESS)
  /\ main env (pre ++ VERSION_OPT :: rest) positional
     = (ev ++ version_lines env ++ cleanup_events fr (requests_of pre),
        Exit EXIT_SUCCESS)
  /\ forallb quiet (fst (main env (pre ++ OPT_h :: rest) positional)) = true
  /\ forallb quiet (fst (main env (pre ++ VERSION_OPT :: rest) positional))
     = true.
Proof.
  intros Hp.
  destruct (main_stops_at_option env pre OPT_h rest positional ev fr
              [Usage state_out] EXIT_SUCCESS fr Hp eq_refl) as [H1 Hq1].
  destruct (main_stops_at_option env pre VERSION_OPT rest positional ev fr
              (version_lines env) EXIT_SUCCESS fr Hp eq_refl) as [H2 Hq2].
  auto.
Qed.

Lemma help_and_version_succeed_witness :
  main terminal_env ([OPT_o "a.csv"] ++ OPT_h :: [PIPELINE_MAX_OPT "0"])
    ["localhost"]
  = ([Client_init; Usage state_out; Shell_state_destroy; Free "a.csv";
      Fclose_tty; Client_cleanup],
     Exit EXIT_SUCCESS).
Proof.
  destruct (help_and_version_succeed terminal_env [OPT_o "a.csv"]
              [PIPELINE_MAX_OPT "0"] ["localhost"] _ _ eq_refl) as [H _].
  exact H.
Defined.

(** ** X3: usage errors *)

(** X3. An option that [getopt_long] does not recognise, and a command
    line with more than one argument left after the options, both make
    [main] write the usage text on the error stream and leave with
    EXIT_FAILURE, without connecting or entering a mode; the second is
    found only after the whole option loop and the check of the last
    request have passed. *)
Theorem usage_errors env :
  (forall pre rest positional ev fr,
     parse_options env pre = (ev, Next fr) ->
     main env (pre ++ OPT_unknown :: rest) positional
     = (ev ++ [Usage state_err] ++ cleanup_events fr (requests_of pre),
        Exit EXIT_FAILURE)
     /\ forallb quiet
          (fst (main env (pre ++ OPT_unknown :: rest) positional)) = true)
  /\ (forall opts positional ev fr,
        parse_options env opts = (ev, Next fr) ->
        match last (requests_of opts) with
        | Some r => is_input r = true
        | None => True
        end ->
        (1 < length positional)%nat ->
        main env opts positional
        = (ev ++ [Usage state_err] ++ cleanup_events fr (requests_of opts),
           Exit EXIT_FAILURE)).
Proof.
  split.
  - intros pre rest positional ev fr Hp.
    apply (main_stops_at_option _ _ _ _ _ _ fr); [exact Hp | reflexivity].
  - intros opts positional ev fr Hp Hlast Hlen.
    destruct (parse_options_next _ _ _ _ Hp) as (Hh & _).
    rewrite app_assoc. eapply main_of_before_cleanup; [| exact Hh].
    unfold before_mode, after_options. rewrite Hp, bind_of_next.
    assert (Hc : check_last_request fr = ([], Next fr)).
    { unfold check_last_request.
      destruct (0 <? nfile_io_requests fr) eqn:Hpos; [| reflexivity].
      apply Z.ltb_lt in Hpos.
      destruct (holds_last_load _ _ Hh Hpos) as (r & Hl & ->).
      rewrite Hl in Hlast. rewrite Hlast. reflexivity. }
    rewrite Hc. rewrite bind_of_next.
    assert (Hp2 : check_positional positional fr
                  = ([Usage state_err], Goto_cleanup EXIT_FAILURE fr)).
    { unfold check_positional.
      replace (1 <? Z.of_nat (length positional)) with true
        by (symmetry; apply Z.ltb_lt; lia).
      reflexivity. }
    rewrite Hp2. reflexivity.
Qed.

Lemma usage_errors_witness :
  main detached_env [OPT_i "a.cyp"] ["host1"; "host2"]
  = ([Client_init; Usage state_err; Shell_state_destroy; Free "a.cyp";
      Client_cleanup],
     Exit EXIT_FAILURE).
Proof.
  destruct (usage_errors detached_env) as [_ H].
  exact (H [OPT_i "a.cyp"] ["host1"; "host2"] _ _ eq_refl eq_refl
           ltac:(simpl; lia)).
Defined.

(** ** X4: diagnostics and the exit status *)

Lemma mode_event_no_diagnostic ev :
  forallb mode_event ev = true -> existsb is_diagnostic ev = false.
Proof.
  induction ev as [| e ev IH]; simpl; [reflexivity |].
  intros H. apply andb_true_iff in H as [He Hev].
  rewrite (IH Hev). destruct e; try discriminate; reflexivity.
Qed.

Lemma cleanup_events_no_diagnostic fr reqs :
  existsb is_diagnostic (cleanup_events fr reqs) = false.
Proof.
  unfold cleanup_events. rewrite !existsb_app. simpl.
  destruct (provider fr), (tty fr); simpl; rewrite ?orb_false_r;
    induction reqs; simpl; auto.
Qed.

(** X4. Whenever [main] itself reports an error ([perror],
    [neo4j_perror], the usage text or a message on the error stream), it
    returns EXIT_FAILURE: a run that ends with EXIT_SUCCESS has printed no
    diagnostic of [main]. *)
Theorem diagnostics_mean_failure env opts positional :
  existsb is_diagnostic (fst (main env opts positional)) = true ->
  snd (main env opts positional) = Exit EXIT_FAILURE.
Proof.
  destruct (main_phases env opts positional)
    as [(msg & -> & _) | (_ & _ & evs & evp & eva & evm & fr & reqs & rest
                            & code & -> & _ & _ & _ & Hevm & _ & _
                            & _ & Hdiag & _)];
    [reflexivity |].
  simpl. destruct code; [| reflexivity].
  specialize (Hdiag eq_refl).
  rewrite !existsb_app in *.
  rewrite (mode_event_no_diagnostic _ Hevm), cleanup_events_no_diagnostic.
  apply orb_false_iff in Hdiag as [-> Hdiag].
  apply orb_false_iff in Hdiag as [-> ->]. discriminate.
Qed.

Lemma diagnostics_mean_failure_witness :
  snd (main terminal_env [CA_FILE_OPT "ca.pem"; SOURCE_MAX_DEPTH_OPT "none"]
         ["localhost"])
  = Exit EXIT_FAILURE.
Proof.
  apply diagnostics_mean_failure. vm_compute. reflexivity.
Defined.

(** ** X5: the handle on the controlling terminal *)

Lemma count_fclose_cleanup fr reqs :
  count_events is_fclose_tty (cleanup_events fr reqs) = b2n (tty fr).
Proof.
  unfold cleanup_events. rewrite !count_events_app. simpl.
  assert (Hf : count_events is_fclose_tty
                 (map (fun r => Free (filename r)) reqs) = O)
    by (induction reqs; simpl; auto).
  rewrite Hf. destruct (provider fr), (tty fr); reflexivity.
Qed.

(** X5. On every run that gets past the two checks at the start of
    [main], the handle that [fopen] returned for /dev/tty is closed
    exactly once, by --non-interactive or else by the clean-up, and never
    twice; when /dev/tty could not be opened nothing is closed. A run that
    leaves through [exit] at the start closes nothing. *)
Theorem tty_closed_once env opts positional :
  count_events is_fclose_tty (fst (main env opts positional))
  = (if opened env && negb (basename_fails env) then 1%nat else O).
Proof.
  destruct (main_phases env opts positional)
    as [(msg & -> & Hearly) | (Ho & Hb & evs & evp & eva & evm & fr & reqs
                                 & rest & code & -> & Hevs & _ & Heva & Hevm
                                 & _ & _ & Htty & _)].
  - simpl. unfold opened.
    destruct Hearly as [-> | ->]; [reflexivity |].
    rewrite andb_false_r. reflexivity.
  - simpl. rewrite !count_events_app, count_fclose_cleanup.
    rewrite (count_events_none is_fclose_tty after_event eva Heva)
      by (intros e He; destruct e; simpl in *; try reflexivity;
          discriminate).
    rewrite (count_events_none is_fclose_tty mode_event evm Hevm)
      by (intros e He; destruct e; simpl in *; try reflexivity;
          discriminate).
    assert (Hs : count_events is_fclose_tty evs = O)
      by (destruct Hevs as [-> | ->]; reflexivity).
    rewrite Hs, Hb, andb_true_r. simpl.
    transitivity (b2n (opened env)); [lia |].
    destruct (opened env); reflexivity.
Qed.

(** ** X6: the file names copied by the option loop *)

Lemma freed_app a b : freed (a ++ b) = freed a ++ freed b.
Proof. unfold freed. apply omap_app. Qed.

Lemma freed_none (p : event -> bool) ev :
  forallb p ev = true ->
  (forall e, p e = true -> is_free e = false) ->
  freed ev = [].
Proof.
  intros Hp Hpf. induction ev as [| e ev IH]; [reflexivity |].
  simpl in Hp. apply andb_true_iff in Hp as [He Hev].
  specialize (Hpf e He). specialize (IH Hev).
  destruct e; try discriminate; exact IH.
Qed.

Lemma freed_cleanup fr reqs :
  freed (cleanup_events fr reqs) = map filename reqs.
Proof.
  unfold cleanup_events. rewrite !freed_app.
  assert (Hf : freed (map (fun r => Free (filename r)) reqs)
               = map filename reqs).
  { induction reqs as [| r reqs IH]; [reflexivity |].
    change (freed (map (fun r => Free (filename r)) (r :: reqs)))
      with (filename r :: freed (map (fun r => Free (filename r)) reqs)).
    rewrite IH. reflexivity. }
  rewrite Hf. destruct (provider fr), (tty fr); simpl;
    rewrite ?app_nil_r; reflexivity.
Qed.

(** X6. The file names that [main] frees are, in order and each once,
    those of the -i/-o options the loop went through before it stopped:
    a prefix of the requests of the command line, and all of them when the
    loop ran to its end. *)
Theorem filenames_freed env opts positional :
  exists reqs rest,
    requests_of opts = reqs ++ rest
    /\ freed (fst (main env opts positional)) = map filename reqs
    /\ (forall ev fr, parse_options env opts = (ev, Next fr) -> rest = []).
Proof.
  destruct (main_phases env opts positional)
    as [(msg & Hm & Hearly) | (Ho & Hb & evs & evp & eva & evm & fr & reqs
                                 & rest & code & -> & Hevs & Hevp & Heva
                                 & Hevm & _ & Hreq & _ & _ & _ & _ & _
                                 & Hparse & _)].
  - exists [], (requests_of opts). rewrite Hm. split; [reflexivity |].
    split; [reflexivity |]. intros ev fr Hp. exfalso.
    unfold parse_options in Hp. pose proof (startup_shape env) as Hs.
    destruct (startup env) as [evs [fr0 | r0 fr0 | code0 | ]];
      try discriminate.
    destruct Hs as (_ & _ & _ & _ & _ & Ho & Hb & _).
    destruct Hearly; congruence.
  - exists reqs, rest. split; [exact Hreq |]. split.
    + simpl. change (Client_init :: ?l) with ([Client_init] ++ l).
      rewrite !freed_app, freed_cleanup.
      rewrite (freed_none option_event evp Hevp)
        by (intros e He; destruct e; simpl in *; try reflexivity;
          discriminate).
      rewrite (freed_none after_event eva Heva)
        by (intros e He; destruct e; simpl in *; try reflexivity;
          discriminate).
      rewrite (freed_none mode_event evm Hevm)
        by (intros e He; destruct e; simpl in *; try reflexivity;
          discriminate).
      destruct Hevs as [-> | ->]; reflexivity.
    + intros ev1 fr1 Hp. apply (Hparse _ _ Hp).
Qed.

(** ** X7: what is set up is torn down *)

Lemma cleanup_events_body fr reqs :
  cleanup_events fr reqs = cleanup_body fr reqs ++ [Client_cleanup].
Proof.
  unfold cleanup_events, cleanup_body. rewrite <- !app_assoc. reflexivity.
Qed.

Lemma count_cleanup_body p fr reqs :
  (forall name, p (Free name) = false) ->
  p Fclose_tty = false ->
  count_events p (cleanup_body fr reqs)
  = (b2n (p Shell_state_destroy)
     + (if provider fr then b2n (p Logger_provider_free) else 0))%nat.
Proof.
  intros Hfree Hclose. unfold cleanup_body. rewrite !count_events_app.
  assert (Hf : count_events p (map (fun r => Free (filename r)) reqs) = O).
  { induction reqs as [| r reqs IH]; simpl; [reflexivity |].
    rewrite Hfree, IH. reflexivity. }
  rewrite Hf. simpl.
  destruct (provider fr), (tty fr); simpl; rewrite ?Hclose;
    destruct (p Shell_state_destroy), (p Logger_provider_free); reflexivity.
Qed.

Ltac by_event_kind :=
  let e := fresh "e" in
  let He := fresh "He" in
  intros e He; destruct e; simpl in *; try reflexivity; discriminate.

(** X7. On every run that gets past the two checks at the start, the
    trace of [main] opens with [neo4j_client_init] and closes with
    [neo4j_client_cleanup], neither occurring in between;
    [shell_state_destroy] is called exactly once; and the logger provider
    is freed exactly when [neo4j_std_logger_provider] was called (at most
    once) and returned one. *)
Theorem setup_and_cleanup_paired env opts positional :
  fopen_tty env <> Failed_other ->
  basename_fails env = false ->
  exists body,
    fst (main env opts positional) = Client_init :: body ++ [Client_cleanup]
    /\ count_events is_client_call body = O
    /\ count_events is_destroy body = 1%nat
    /\ (count_events is_logger body <= 1)%nat
    /\ count_events is_provider_free body
       = (if logger_provider_fails env then O
          else count_events is_logger body).
Proof.
  intros Ho Hb.
  destruct (main_phases env opts positional)
    as [(msg & _ & [Hearly | Hearly]) | (_ & _ & evs & evp & eva & evm & fr
                                 & reqs & rest & code & -> & Hevs & Hevp
                                 & Heva & Hevm & _ & _ & _ & _ & _ & Hlog
                                 & Hprov & _)];
    try congruence.
  exists (evs ++ evp ++ eva ++ evm ++ cleanup_body fr reqs).
  split; [simpl; rewrite cleanup_events_body, <- !app_assoc; reflexivity |].
  rewrite !count_events_app.
  rewrite !(count_events_none _ option_event evp Hevp) by by_event_kind.
  rewrite !(count_events_none _ mode_event evm Hevm) by by_event_kind.
  rewrite !(count_events_none is_client_call after_event eva Heva),
          !(count_events_none is_destroy after_event eva Heva),
          !(count_events_none is_provider_free after_event eva Heva)
    by by_event_kind.
  rewrite !count_cleanup_body by reflexivity. simpl.
  assert (Hs : count_events is_client_call evs = O
               /\ count_events is_destroy evs = O
               /\ count_events is_logger evs = O
               /\ count_events is_provider_free evs = O)
    by (destruct Hevs as [-> | ->]; auto).
  destruct Hs as (-> & -> & -> & ->).
  destruct (provider fr); simpl in *;
    destruct (logger_provider_fails env); simpl; split_ands; lia.
Qed.

Lemma setup_and_cleanup_paired_witness :
  exists body,
    fst (main terminal_env [OPT_v; OPT_i "a.cyp"] ["localhost"])
    = Client_init :: body ++ [Client_cleanup]
    /\ count_events is_client_call body = O
    /\ count_events is_destroy body = 1%nat
    /\ (count_events is_logger body <= 1)%nat
    /\ count_events is_provider_free body
       = (if logger_provider_fails terminal_env then O
          else count_events is_logger body).
Proof.
  apply (setup_and_cleanup_paired terminal_env [OPT_v; OPT_i "a.cyp"]
           ["localhost"]); [discriminate | reflexivity].
Defined.

(** ** X8: the requests are replayed in the order of the command line *)

Lemma replay_prefix env reqs :
  exists rest,
    reqs = fst (replay env reqs) ++ rest
    /\ (snd (replay env reqs) = false ->
        rest = []
        /\ forallb (fun r => negb (request_fails env r)) reqs = true)
    /\ (snd (replay env reqs) = true ->
        exists before r,
          fst (replay env reqs) = before ++ [r]
          /\ request_fails env r = true
          /\ forallb (fun r => negb (request_fails env r)) before = true).
Proof.
  induction reqs as [| r reqs IH]; simpl.
  - exists []. split_ands; [reflexivity | auto | discriminate].
  - destruct (request_fails env r) eqn:Hr; simpl.
    + exists reqs. split_ands; [reflexivity | discriminate |].
      intros _. exists [], r. auto.
    + destruct IH as (rest & Hreq & Hok & Hfail).
      destruct (replay env reqs) as [done failed]; simpl in *.
      exists rest. split_ands; [congruence | exact Hok |].
      intros Hf. destruct (Hfail Hf) as (before & r' & -> & Hr' & Hb).
      exists (r :: before), r'. simpl. rewrite Hr, Hb. auto.
Qed.

Lemma cleanup_events_frame fr fr' reqs :
  provider fr' = provider fr -> tty fr' = tty fr ->
  cleanup_events fr' reqs = cleanup_events fr reqs.
Proof. intros Hp Ht. unfold cleanup_events. rewrite Hp, Ht. reflexivity. Qed.

(** X8. When the options and the connection have gone through, the
    standard input is no terminal and at least one -i or -o was given,
    [main] carries the requests out in the order of the command line,
    [source] for each -i and [redirect_output] for each -o, and stops at
    the first that fails: the requests after it are not carried out (their
    names are still freed), and the status is EXIT_FAILURE exactly when
    one failed. *)
Theorem requests_replayed_in_order env opts positional ev fr :
  before_mode env opts positional = (ev, Next fr) ->
  interactive (state fr) = false ->
  requests_of opts <> [] ->
  main env opts positional
  = (ev ++ map event_of_request (fst (replay env (requests_of opts)))
        ++ cleanup_events fr (requests_of opts),
     Exit (if snd (replay env (requests_of opts))
           then EXIT_FAILURE else EXIT_SUCCESS))
  /\ exists rest,
       requests_of opts = fst (replay env (requests_of opts)) ++ rest
       /\ (snd (replay env (requests_of opts)) = false ->
           rest = []
           /\ forallb (fun r => negb (request_fails env r))
                (requests_of opts) = true)
       /\ (snd (replay env (requests_of opts)) = true ->
           exists before r,
             fst (replay env (requests_of opts)) = before ++ [r]
             /\ request_fails env r = true
             /\ forallb (fun r => negb (request_fails env r)) before = true).
Proof.
  intros Hb Hi Hne. split; [| apply replay_prefix].
  destruct (before_mode_sound _ _ _ _ _ Hb) as (_ & Hh).
  pose proof Hh as (_ & Hn & _).
  set (fr' := on_state (set_render render_results_csv) fr).
  assert (Hh' : holds fr' (requests_of opts))
    by (eapply holds_frame; [ | | exact Hh]; reflexivity).
  assert (Hrun : run_mode env fr
                 = (map event_of_request
                      (fst (replay env (requests_of opts))),
                    if snd (replay env (requests_of opts))
                    then Goto_cleanup EXIT_FAILURE fr' else Next fr')).
  { unfold run_mode, select_mode. rewrite Hi.
    replace (0 <? nfile_io_requests fr) with true
      by (symmetry; apply Z.ltb_lt; rewrite Hn;
          destruct (requests_of opts); [congruence | simpl; lia]).
    unfold run_file_io. fold fr'.
    replace (nfile_io_requests fr') with (nfile_io_requests fr)
      by reflexivity.
    rewrite Hn, Nat2Z.id.
    exact (replay_requests_list env fr' _ Hh' _ O eq_refl). }
  unfold main. rewrite Hb, bind_of_next, Hrun.
  destruct (snd (replay env (requests_of opts))); simpl;
    rewrite (cleanup_holds _ _ _ _ Hh'), <- app_assoc;
    rewrite (cleanup_events_frame fr fr') by reflexivity; reflexivity.
Qed.

Lemma replayed_frame_reached :
  before_mode failing_source_env replayed_options []
  = ([Client_init;
      Std_logger_provider NEO4J_LOG_WARN NEO4J_STD_LOGGER_NO_PREFIX],
     Next replayed_frame).
Proof. vm_compute. reflexivity. Qed.

Lemma requests_replayed_in_order_witness :
  main failing_source_env replayed_options []
  = ([Client_init;
      Std_logger_provider NEO4J_LOG_WARN NEO4J_STD_LOGGER_NO_PREFIX;
      Source "a.cyp"; Redirect_output "b.csv"; Source "b.cyp";
      Shell_state_destroy; Logger_provider_free;
      Free "a.cyp"; Free "b.csv"; Free "b.cyp"; Free "c.cyp";
      Client_cleanup],
     Exit EXIT_FAILURE).
Proof.
  destruct (requests_replayed_in_order _ _ _ _ _ replayed_frame_reached
              eq_refl ltac:(discriminate)) as [H _].
  rewrite H. vm_compute. reflexivity.
Defined.

(** ** X9: the prompt and the two callbacks *)

(** X9. In every state that [main] hands to [db_connect], [interact] or
    [batch], the password prompt is on exactly when -P was given or the
    shell stays interactive (the standard input is a terminal and neither
    --non-interactive nor -i was given); the callback for unverified
    hosts is registered exactly when /dev/tty was opened and no
    --non-interactive closed it; the callback for a second attempt at
    authentication is registered exactly when both hold. *)
Theorem callbacks_follow_terminal env opts positional e st :
  In e (fst (main env opts positional)) ->
  state_of_event e = Some st ->
  interactive st = stays_interactive env opts
  /\ password_prompt st = prompt_wanted env opts
  /\ unverified_host_callback (config st)
     = unverified_host_callback (config (shell_state_init env))
       || terminal_kept env opts
  /\ authentication_reattempt_callback (config st)
     = authentication_reattempt_callback (config (shell_state_init env))
       || terminal_kept env opts && prompt_wanted env opts.
Proof.
  intros Hin He.
  destruct (handed_state_origin _ _ _ _ _ Hin He)
    as (ev1 & fr1 & Hp & Hf & Hpp & Hu & Ha).
  destruct (parse_options_next _ _ _ _ Hp) as (_ & Ht & Hi & _).
  destruct (parse_options_fields _ _ _ _ Hp) as (_ & Hprompt & _).
  pose proof (parse_options_no_callbacks _ _ _ _ Hp) as Hc.
  unfold callbacks in Hc. injection Hc as Hc1 Hc2.
  unfold option_fields in Hf. injection Hf as Hf _ _ _ _ _ _.
  unfold prompt_wanted, stays_interactive, terminal_kept, opened.
  rewrite Hf, Hpp, Hu, Ha, Hc1, Hc2, Ht, Hi, Hprompt. auto.
Qed.

Lemma asked_state_handed :
  In (Db_connect asked_state "localhost")
     (fst (main terminal_env asked_options ["localhost"])).
Proof. vm_compute. right; right; left; reflexivity. Qed.

Lemma callbacks_follow_terminal_witness :
  interactive asked_state = false
  /\ password_prompt asked_state = true
  /\ unverified_host_callback (config asked_state) = true
  /\ authentication_reattempt_callback (config asked_state) = true.
Proof.
  exact (callbacks_follow_terminal terminal_env asked_options ["localhost"]
           (Db_connect asked_state "localhost") asked_state
           asked_state_handed eq_refl).
Defined.

(** ** X10: the level of the logger *)

(** X10. The logger provider is created with the level NEO4J_LOG_WARN
    plus the number of -v on the command line, counted in an uint8_t (so
    modulo 256), and without the prefix exactly when that level is below
    NEO4J_LOG_DEBUG. *)
Theorem logger_verbosity env opts positional level flags :
  In (Std_logger_provider level flags) (fst (main env opts positional)) ->
  level = Int.to_uint8 (NEO4J_LOG_WARN + Z.of_nat (count_verbose opts))
  /\ flags = (if level <? NEO4J_LOG_DEBUG
              then NEO4J_STD_LOGGER_NO_PREFIX else 0).
Proof.
  intros Hin.
  destruct (setup_event_origin _ _ _ _ Hin eq_refl) as (ev1 & fr1 & Hp & Hl).
  destruct (after_options_logger _ _ _ _ _ Hl) as (-> & ->).
  destruct (parse_options_fields _ _ _ _ Hp) as (Hlevel & _).
  split; [exact Hlevel | reflexivity].
Qed.

Lemma wrapping_verbosity_logged :
  In (Std_logger_provider 0 NEO4J_STD_LOGGER_NO_PREFIX)
     (fst (main terminal_env wrapping_verbosity [])).
Proof. vm_compute. right; left; reflexivity. Qed.

Lemma logger_verbosity_witness :
  0 = Int.to_uint8 (NEO4J_LOG_WARN + Z.of_nat (count_verbose wrapping_verbosity))
  /\ NEO4J_STD_LOGGER_NO_PREFIX
     = (if 0 <? NEO4J_LOG_DEBUG then NEO4J_STD_LOGGER_NO_PREFIX else 0).
Proof.
  exact (logger_verbosity terminal_env wrapping_verbosity [] 0
           NEO4J_STD_LOGGER_NO_PREFIX wrapping_verbosity_logged).
Defined.

(** ** X11: the colour of the diagnostics and the history file *)

(** X11. In every state that [main] hands to [db_connect], [interact] or
    [batch], the colour of the diagnostics is that of the last --colorize
    or --no-colorize, and without either it is ANSI exactly when the
    standard error is a terminal; the history file is that of the last
    --history-file or --no-history, where an empty file name and
    --no-history both mean none, and without either it is the file of
    [neo4j_dot_dir]. *)
Theorem colour_and_history env opts positional e st :
  In e (fst (main env opts positional)) ->
  state_of_event e = Some st ->
  error_colorize st
  = default (if stderr_isatty env then ansi_error_colorization
             else error_colorize (shell_state_init env))
      (last (omap colour_flag opts))
  /\ histfile st = default (dot_dir env) (last (omap history_flag opts)).
Proof.
  intros Hin He.
  destruct (handed_state_origin _ _ _ _ _ Hin He)
    as (ev1 & fr1 & Hp & Hf & _).
  destruct (parse_options_fields _ _ _ _ Hp) as (_ & _ & Hc & Hh & _).
  unfold option_fields in Hf. injection Hf as _ Hf1 Hf2 _ _ _ _.
  rewrite Hf1, Hf2. auto.
Qed.

Lemma display_state_handed :
  In (Interact display_state) (fst (main terminal_env display_options [])).
Proof. vm_compute. right; right; left; reflexivity. Qed.

Lemma colour_and_history_witness :
  error_colorize display_state = no_error_colorization
  /\ histfile display_state = None.
Proof.
  exact (colour_and_history terminal_env display_options []
           (Interact display_state) display_state
           display_state_handed eq_refl).
Defined.

(** ** X12: --insecure *)

(** X12. In every state that [main] hands to [db_connect], [interact] or
    [batch], the connect flags are those of [shell_state_init] with the
    bit NEO4J_INSECURE set when --insecure was given, however often and
    wherever among the options, and unchanged when it was not. *)
Theorem insecure_flag_kept env opts positional e st :
  In e (fst (main env opts positional)) ->
  state_of_event e = Some st ->
  connect_flags st
  = (if existsb is_insecure opts
     then Z.lor (connect_flags (shell_state_init env)) NEO4J_INSECURE
     else connect_flags (shell_state_init env)).
Proof.
  intros Hin He.
  destruct (handed_state_origin _ _ _ _ _ Hin He)
    as (ev1 & fr1 & Hp & Hf & _).
  destruct (parse_options_fields _ _ _ _ Hp) as (_ & _ & _ & _ & Hc).
  unfold option_fields in Hf. injection Hf as _ _ _ Hf _ _ _.
  rewrite Hf. exact Hc.
Qed.

Lemma insecure_state_handed :
  In (Db_connect insecure_state "localhost")
     (fst (main detached_env [INSECURE_OPT] ["localhost"])).
Proof. vm_compute. right; right; left; reflexivity. Qed.

Lemma insecure_flag_kept_witness :
  connect_flags insecure_state = NEO4J_INSECURE.
Proof.
  exact (insecure_flag_kept detached_env [INSECURE_OPT] ["localhost"]
           (Db_connect insecure_state "localhost") insecure_state
           insecure_state_handed eq_refl).
Defined.

(** ** X13: the two limits stay in range *)

Lemma handle_option_limits env c fr ev fr' :
  handle_option env c fr = (ev, Next fr') ->
  limits_in_range (state fr) -> limits_in_range (state fr').
Proof.
  intros H Hl.
  assert (Hatoi : forall s, (Atoi.atoi s <? 1) = false ->
                            1 <= Atoi.atoi s <= Int.INT_MAX).
  { intros s Hs. apply Z.ltb_ge in Hs. pose proof (atoi_range s) as Hr.
    unfold Int.in_int in Hr. lia. }
  unfold limits_in_range in *.
  destruct c; simpl in H; unfold_step; unfold store_request in H;
    try (destruct (Atoi.atoi optarg <? 1) eqn:Hlt);
    repeat case_match; simplify_eq; simpl; try exact Hl;
    destruct Hl as [Hl1 Hl2]; split; auto.
Qed.

Lemma getopt_loop_limits env opts : forall fr ev fr',
  getopt_loop env opts fr = (ev, Next fr') ->
  limits_in_range (state fr) -> limits_in_range (state fr').
Proof.
  induction opts as [| c opts IH]; intros fr ev fr' H Hl.
  - injection H as _ <-. exact Hl.
  - simpl in H.
    destruct (handle_option env c fr) as [ev1 k1] eqn:H1.
    destruct k1 as [fr1 | r1 fr1 | code1 | ]; simpl in H; try discriminate.
    destruct (getopt_loop env opts fr1) as [ev2 k2] eqn:H2.
    injection H as _ ->.
    exact (IH _ _ _ H2 (handle_option_limits _ _ _ _ _ H1 Hl)).
Qed.

(** X13. If the two limits that [shell_state_init] sets lie between 1
    and INT_MAX, then so do the pipeline limit and the limit on the depth
    of nested sources in every state that [main] hands to [db_connect],
    [interact] or [batch], whatever --pipeline-max and --source-max-depth
    were given. *)
Theorem limits_stay_in_range env opts positional e st :
  limits_in_range (shell_state_init env) ->
  In e (fst (main env opts positional)) ->
  state_of_event e = Some st ->
  limits_in_range st.
Proof.
  intros Hl Hin He.
  destruct (handed_state_origin _ _ _ _ _ Hin He)
    as (ev1 & fr1 & Hp & Hf & _).
  unfold option_fields in Hf. injection Hf as _ _ _ _ Hf1 Hf2 _.
  unfold limits_in_range. rewrite Hf1, Hf2.
  revert Hp. unfold parse_options. pose proof (startup_shape env) as Hs.
  destruct (startup env) as [evs [fr0 | r0 fr0 | code0 | ]];
    try contradiction; try (simpl; discriminate).
  destruct Hs as (_ & _ & _ & _ & _ & _ & _ & _ & Hst).
  rewrite bind_of_next.
  destruct (getopt_loop env opts fr0) as [evp kp] eqn:Hloop.
  simpl. intros [= _ ->].
  apply (getopt_loop_limits _ _ _ _ _ Hloop).
  rewrite Hst. exact Hl.
Qed.

Lemma widest_state_handed :
  In (Batch widest_state)
     (fst (main detached_env [PIPELINE_MAX_OPT "2147483647"] [])).
Proof. vm_compute. right; right; left; reflexivity. Qed.

Lemma limits_stay_in_range_witness : limits_in_range widest_state.
Proof.
  apply (limits_stay_in_range detached_env [PIPELINE_MAX_OPT "2147483647"] []
           (Batch widest_state) widest_state).
  - vm_compute. repeat split; discriminate.
  - exact widest_state_handed.
  - reflexivity.
Defined.

(** ** X14: the connection *)

Lemma count_events_pos p (ev : list event) :
  (0 < count_events p ev)%nat -> exists e, In e ev /\ p e = true.
Proof.
  induction ev as [| e ev IH]; simpl; [lia |].
  destruct (p e) eqn:He; [eauto |].
  intros H. destruct (IH H) as (e' & Hin & He'). eauto.
Qed.

Lemma count_db_connect_cleanup fr reqs :
  count_events is_db_connect (cleanup_events fr reqs) = O.
Proof.
  rewrite cleanup_events_body, count_events_app, count_cleanup_body
    by reflexivity.
  destruct (provider fr); reflexivity.
Qed.

(** X14. [main] calls [db_connect] at most once, and only when exactly
    one argument is left after the options, with that argument. When the
    call fails, [main] returns EXIT_FAILURE and enters no mode; when it
    succeeds, a mode is entered. *)
Theorem connects_at_most_once env opts positional :
  (count_events is_db_connect (fst (main env opts positional)) <= 1)%nat
  /\ forall st target,
       In (Db_connect st target) (fst (main env opts positional)) ->
       positional = [target]
       /\ (connect_failed (db_connect env st target) = true ->
           snd (main env opts positional) = Exit EXIT_FAILURE
           /\ forallb no_mode (fst (main env opts positional)) = true)
       /\ (connect_failed (db_connect env st target) = false ->
           exists m, mode_runs m (fst (main env opts positional))).
Proof.
  split.
  - destruct (main_phases env opts positional)
      as [(msg & -> & _) | (_ & _ & evs & evp & eva & evm & fr & reqs & rest
                              & code & -> & Hevs & Hevp & _ & Hevm & _ & _
                              & _ & _ & Hc & _)];
      [simpl; lia |].
    simpl. rewrite !count_events_app, count_db_connect_cleanup.
    rewrite (count_events_none is_db_connect option_event evp Hevp)
      by by_event_kind.
    rewrite (count_events_none is_db_connect mode_event evm Hevm)
      by by_event_kind.
    destruct Hevs as [-> | ->]; simpl; lia.
  - intros st target Hin.
    destruct (setup_event_origin _ _ _ _ Hin eq_refl)
      as (ev1 & fr1 & Hp & Hc).
    destruct (after_options_connect _ _ _ _ _ Hc)
      as (Hpos & _ & _ & _ & _ & fr' & Hk & _).
    split; [exact Hpos |].
    destruct (after_options env positional fr1) as [eva ka] eqn:Ha.
    simpl in Hk.
    assert (Hb : before_mode env opts positional = (ev1 ++ eva, ka))
      by (unfold before_mode; rewrite Hp, bind_of_next, Ha; reflexivity).
    destruct (before_mode_sound _ _ _ _ _ Hb) as (Hno & Hh).
    split; intros Hf; rewrite Hf in Hk; subst ka.
    + destruct (main_stops_before_mode _ _ _ _ _ Hb ltac:(discriminate))
        as (_ & tail & -> & Hq).
      split; [reflexivity |].
      simpl. rewrite forallb_app, Hno, (forallb_quiet_no_mode _ Hq).
      reflexivity.
    + destruct (main_reaches_mode _ _ _ _ _ Hb)
        as (ev' & k & fr2 & Hrun & _ & ->).
      destruct (run_mode_spec env fr' _ Hh)
        as (ev2 & k2 & fr3 & Hrun2 & _ & _ & _ & _ & Hne & Hm & _).
      rewrite Hrun in Hrun2. injection Hrun2 as <- <-.
      destruct ev' as [| e ev']; [congruence |].
      exists (select_mode fr'), e. split; [| apply Hm; left; reflexivity].
      cbn [fst]. apply in_or_app. right. apply in_or_app. left. left.
      reflexivity.
Qed.

Lemma refused_state_handed :
  In (Db_connect refused_state "localhost")
     (fst (main refusing_env [OPT_i "a.cyp"] ["localhost"])).
Proof. vm_compute. right; right; left; reflexivity. Qed.

Lemma connects_at_most_once_witness :
  snd (main refusing_env [OPT_i "a.cyp"] ["localhost"]) = Exit EXIT_FAILURE
  /\ forallb no_mode (fst (main refusing_env [OPT_i "a.cyp"] ["localhost"]))
     = true.
Proof.
  destruct (connects_at_most_once refusing_env [OPT_i "a.cyp"] ["localhost"])
    as [_ H].
  destruct (H refused_state "localhost" refused_state_handed) as (_ & Hf & _).
  exact (Hf eq_refl).
Defined.

(** ** X15: a setter of the library that fails *)

(** X15. When the setter of the client library that an option calls
    (--ca-file, --ca-directory, -u, -p, --known-hosts, --no-known-hosts)
    reports a failure, [main] prints "unexpected error" through
    [neo4j_perror] and leaves through the clean-up with EXIT_FAILURE: the
    options that follow are not looked at, nothing connects and no mode
    runs. *)
Theorem setter_failure_stops env pre c rest positional ev fr call :
  parse_options env pre = (ev, Next fr) ->
  config_call_of c = Some call ->
  config_call_fails env call = true ->
  main env (pre ++ c :: rest) positional
  = (ev ++ [Neo4j_perror "unexpected error"]
        ++ cleanup_events fr (requests_of pre),
     Exit EXIT_FAILURE)
  /\ forallb quiet (fst (main env (pre ++ c :: rest) positional)) = true.
Proof.
  intros Hp Hc Hf.
  apply (main_stops_at_option _ _ _ _ _ _ fr); [exact Hp |].
  destruct c; simpl in Hc; try discriminate; injection Hc as <-;
    simpl; unfold neo4j_config_set; rewrite Hf; reflexivity.
Qed.

Lemma setter_failure_stops_witness :
  main strict_env ([OPT_u "neo4j"] ++ KNOWN_HOSTS_OPT "hosts" :: [OPT_v])
    ["localhost"]
  = ([Client_init; Neo4j_perror "unexpected error"; Shell_state_destroy;
      Fclose_tty; Client_cleanup],
     Exit EXIT_FAILURE).
Proof.
  destruct (setter_failure_stops strict_env [OPT_u "neo4j"]
              (KNOWN_HOSTS_OPT "hosts") [OPT_v] ["localhost"] _ _ _
              eq_refl eq_refl eq_refl) as [H _].
  exact H.
Defined.

(** ** X16: failures before the option loop *)

(** X16. When /dev/tty cannot be opened for a reason other than its
    absence, or the program name cannot be taken, [main] prints through
    [perror] and leaves through [exit]: the library is not initialised
    and nothing is cleaned up, an opened /dev/tty included. When
    [shell_state_init] or [neo4j_dot_dir] fails, [main] prints "unexpected
    error" through [neo4j_perror] and goes through the whole clean-up.
    In each case the status is EXIT_FAILURE and the command line is not
    looked at. *)
Theorem early_failures env opts positional :
  (fopen_tty env = Failed_other ->
   main env opts positional
   = ([Perror "can't open /dev/tty"], Exit EXIT_FAILURE))
  /\ (fopen_tty env <> Failed_other ->
      basename_fails env = true ->
      main env opts positional
      = ([Perror "unexpected error"], Exit EXIT_FAILURE))
  /\ (fopen_tty env <> Failed_other ->
      basename_fails env = false ->
      shell_state_init_fails env = true \/ dot_dir env = None ->
      main env opts positional
      = ([Client_init; Neo4j_perror "unexpected error"; Shell_state_destroy]
           ++ (if opened env then [Fclose_tty] else [])
           ++ [Client_cleanup],
         Exit EXIT_FAILURE)).
Proof.
  split_ands.
  - intros Ho. unfold main, before_mode, parse_options, startup.
    rewrite Ho. reflexivity.
  - intros Ho Hb. unfold main, before_mode, parse_options, startup.
    rewrite Hb. destruct (fopen_tty env); [reflexivity .. | congruence].
  - intros Ho Hb Hf.
    pose proof (startup_shape env) as Hs.
    assert (Hstart : exists fr,
               startup env
               = ([Client_init; Neo4j_perror "unexpected error"],
                  Goto_cleanup EXIT_FAILURE fr)
               /\ holds fr [] /\ tty fr = opened env /\ provider fr = false).
    { destruct (startup env) as [evs [fr0 | r0 fr0 | code0 | ]] eqn:Hst;
        try contradiction.
      - exfalso. destruct Hs as (_ & _ & _ & _ & _ & _ & _ & Hi & _).
        destruct Hf as [Hf | Hf]; [congruence |].
        revert Hst. unfold startup. rewrite Hb, Hi, Hf.
        destruct (fopen_tty env); discriminate.
      - destruct Hs as (-> & -> & Hh & Ht & Hp & _). eauto.
      - destruct Hs as (_ & _ & [Hs | Hs]); congruence. }
    destruct Hstart as (fr & Hst & Hh & Ht & Hp).
    unfold main, before_mode, parse_options. rewrite Hst. simpl.
    rewrite (cleanup_holds _ _ _ _ Hh). unfold cleanup_events.
    rewrite Ht, Hp. reflexivity.
Qed.

Lemma early_failures_witness :
  main homeless_env [OPT_h] []
  = ([Client_init; Neo4j_perror "unexpected error"; Shell_state_destroy;
      Fclose_tty; Client_cleanup],
     Exit EXIT_FAILURE).
Proof.
  destruct (early_failures homeless_env [OPT_h] []) as (_ & _ & H).
  exact (H ltac:(discriminate) eq_refl (or_intror eq_refl)).
Defined.

(** ** X17: options that write different things commute *)

Lemma slot_pair_commutes env c1 c2 s1 s2 fr :
  slot_of c1 = Some s1 -> slot_of c2 = Some s2 -> s1 <> s2 ->
  setter_rejected env c1 = false -> setter_rejected env c2 = false ->
  handle_option env c1 fr ;> handle_option env c2
  = handle_option env c2 fr ;> handle_option env c1.
Proof.
  intros H1 H2 Hne Hr1 Hr2.
  destruct c1; try discriminate H1; destruct c2; try discriminate H2;
    simpl in H1, H2; try congruence;
    simpl in Hr1, Hr2;
    do 3 (simpl; unfold_step; rewrite ?Hr1, ?Hr2); reflexivity.
Qed.

Lemma slot_option_rejected env c s :
  slot_of c = Some s -> setter_rejected env c = true ->
  exists msg, forall fr,
    handle_option env c fr = (msg, Goto_cleanup EXIT_FAILURE fr).
Proof.
  intros Hs Hr.
  destruct c; try discriminate Hs; simpl in Hr; try discriminate Hr;
    simpl; unfold_step; rewrite Hr; eauto.
Qed.

Lemma slot_option_accepted env c s fr :
  slot_of c = Some s -> setter_rejected env c = false ->
  exists fr',
    handle_option env c fr = ([], Next fr')
    /\ tty fr' = tty fr /\ provider fr' = provider fr.
Proof.
  intros Hs Hr.
  destruct c; try discriminate Hs; simpl in Hr;
    simpl; unfold_step; rewrite ?Hr; eauto.
Qed.

Lemma slot_no_request c s : slot_of c = Some s -> request_of c = [].
Proof. destruct c; try discriminate; reflexivity. Qed.

Lemma requests_of_app a b :
  requests_of (a ++ b) = requests_of a ++ requests_of b.
Proof. apply flat_map_app. Qed.

Lemma main_of_parse env opts opts' positional :
  parse_options env opts = parse_options env opts' ->
  main env opts positional = main env opts' positional.
Proof. intros H. unfold main, before_mode. rewrite H. reflexivity. Qed.

Lemma main_stops_after_one env pre c1 c2 post positional s1 s2 :
  slot_of c1 = Some s1 -> slot_of c2 = Some s2 ->
  setter_rejected env c1 = true -> setter_rejected env c2 = false ->
  main env (pre ++ c1 :: c2 :: post) positional
  = main env (pre ++ c2 :: c1 :: post) positional.
Proof.
  intros H1 H2 Hr1 Hr2.
  destruct (parse_options env pre) as [ev [fr | r fr | code | ]] eqn:Hp.
  - destruct (slot_option_rejected _ _ _ H1 Hr1) as (msg & Hmsg).
    destruct (slot_option_accepted env _ _ fr H2 Hr2)
      as (fr2 & Hc2 & Ht & Hpv).
    destruct (main_stops_at_option env pre c1 (c2 :: post) positional
                _ _ _ _ _ Hp (Hmsg fr)) as [-> _].
    assert (Hp2 : parse_options env (pre ++ [c2]) = (ev, Next fr2)).
    { rewrite parse_options_app, Hp, bind_of_next. simpl.
      rewrite Hc2. simpl. rewrite !app_nil_r. reflexivity. }
    replace (pre ++ c2 :: c1 :: post) with ((pre ++ [c2]) ++ c1 :: post)
      by (rewrite <- app_assoc; reflexivity).
    destruct (main_stops_at_option env (pre ++ [c2]) c1 post positional
                _ _ _ _ _ Hp2 (Hmsg fr2)) as [-> _].
    rewrite requests_of_app. simpl.
    rewrite (slot_no_request _ _ H2), !app_nil_r.
    rewrite (cleanup_events_frame fr fr2) by assumption. reflexivity.
  - apply main_of_parse. rewrite !parse_options_app, Hp. reflexivity.
  - apply main_of_parse. rewrite !parse_options_app, Hp. reflexivity.
  - apply main_of_parse. rewrite !parse_options_app, Hp. reflexivity.
Qed.

(** X17. Two neighbouring options that write different things (one of
    the settings, the level of the logger, the connect flags) can be
    swapped without changing what [main] does, unless both are rejected:
    then the diagnostic is that of the one that comes first. *)
Theorem independent_options_commute env pre c1 c2 post positional s1 s2 :
  slot_of c1 = Some s1 -> slot_of c2 = Some s2 -> s1 <> s2 ->
  setter_rejected env c1 && setter_rejected env c2 = false ->
  main env (pre ++ c1 :: c2 :: post) positional
  = main env (pre ++ c2 :: c1 :: post) positional.
Proof.
  intros H1 H2 Hne Hr.
  destruct (setter_rejected env c1) eqn:Hr1;
    destruct (setter_rejected env c2) eqn:Hr2; try discriminate Hr.
  - exact (main_stops_after_one _ _ _ _ _ _ _ _ H1 H2 Hr1 Hr2).
  - symmetry. exact (main_stops_after_one _ _ _ _ _ _ _ _ H2 H1 Hr2 Hr1).
  - apply main_of_parse. rewrite !parse_options_app.
    destruct (parse_options env pre) as [ev [fr | r fr | code | ]];
      try reflexivity.
    rewrite !bind_of_next. f_equal.
    + f_equal.
      change (getopt_loop env (c1 :: c2 :: post) fr)
        with (handle_option env c1 fr
              ;> (fun fr => handle_option env c2 fr ;> getopt_loop env post)).
      change (getopt_loop env (c2 :: c1 :: post) fr)
        with (handle_option env c2 fr
              ;> (fun fr => handle_option env c1 fr ;> getopt_loop env post)).
      rewrite <- !bind_assoc.
      rewrite (slot_pair_commutes _ _ _ _ _ _ H1 H2 Hne Hr1 Hr2).
      reflexivity.
    + change (getopt_loop env (c1 :: c2 :: post) fr)
        with (handle_option env c1 fr
              ;> (fun fr => handle_option env c2 fr ;> getopt_loop env post)).
      change (getopt_loop env (c2 :: c1 :: post) fr)
        with (handle_option env c2 fr
              ;> (fun fr => handle_option env c1 fr ;> getopt_loop env post)).
      rewrite <- !bind_assoc.
      rewrite (slot_pair_commutes _ _ _ _ _ _ H1 H2 Hne Hr1 Hr2).
      reflexivity.
Qed.

Lemma independent_options_commute_witness :
  main terminal_env
    ([OPT_u "neo4j"] ++ PIPELINE_MAX_OPT "0" :: OPT_v :: [OPT_i "a.cyp"])
    ["localhost"]
  = main terminal_env
      ([OPT_u "neo4j"] ++ OPT_v :: PIPELINE_MAX_OPT "0" :: [OPT_i "a.cyp"])
      ["localhost"].
Proof.
  apply (independent_options_commute terminal_env [OPT_u "neo4j"]
           (PIPELINE_MAX_OPT "0") OPT_v [OPT_i "a.cyp"] ["localhost"]
           (Setting Pipeline_max) Log_level);
    [reflexivity | reflexivity | discriminate | reflexivity].
Defined.

(** ** X18: what EXIT_SUCCESS stands for *)

Lemma handle_option_success env c fr ev fr' :
  handle_option env c fr = (ev, Goto_cleanup EXIT_SUCCESS fr') ->
  c = OPT_h \/ c = VERSION_OPT.
Proof.
  intros H. destruct c; auto; simpl in H; unfold_step;
    unfold store_request in H; repeat case_match; discriminate.
Qed.

Lemma getopt_loop_success env opts : forall fr ev fr',
  getopt_loop env opts fr = (ev, Goto_cleanup EXIT_SUCCESS fr') ->
  In OPT_h opts \/ In VERSION_OPT opts.
Proof.
  induction opts as [| c opts IH]; intros fr ev fr' H; [discriminate |].
  simpl in H.
  destruct (handle_option env c fr) as [ev1 k1] eqn:H1.
  destruct k1 as [fr1 | r1 fr1 | code1 | ]; simpl in H; try discriminate.
  - destruct (getopt_loop env opts fr1) as [ev2 k2] eqn:H2.
    injection H as _ ->.
    destruct (IH _ _ _ H2) as [Hin | Hin]; [left | right]; right; exact Hin.
  - injection H as _ -> ->.
    destruct (handle_option_success _ _ _ _ _ H1) as [-> | ->];
      [left | right]; left; reflexivity.
Qed.

Lemma before_mode_stops env opts positional ev k :
  before_mode env opts positional = (ev, k) ->
  match k with
  | Next _ => True
  | Goto_cleanup r _ =>
      r = EXIT_SUCCESS -> In OPT_h opts \/ In VERSION_OPT opts
  | Exit_now code => code = EXIT_FAILURE
  | Fault => False
  end.
Proof.
  unfold before_mode. intros Hb.
  destruct (parse_options env opts) as [ev1 k1] eqn:Hp.
  destruct k1 as [fr1 | r1 fr1 | code1 | ].
  - rewrite bind_of_next in Hb.
    destruct (parse_options_next _ _ _ _ Hp) as (Hh & _ & _ & Hpv).
    destruct (after_options env positional fr1) as [ev2 k2] eqn:Ha.
    destruct (after_options_trace _ _ _ _ _ _ Hh Hpv Ha) as (_ & _ & _ & Hk).
    simpl in Hb. injection Hb as _ <-.
    destruct k2 as [fr2 | r2 fr2 | code2 | ]; try contradiction; auto.
    destruct Hk as (_ & _ & -> & _). discriminate.
  - simpl in Hb. injection Hb as _ <-. intros ->.
    revert Hp. unfold parse_options. pose proof (startup_shape env) as Hs.
    destruct (startup env) as [evs [fr0 | r0 fr0 | code0 | ]];
      try contradiction.
    + rewrite bind_of_next.
      destruct (getopt_loop env opts fr0) as [evp kp] eqn:Hloop.
      simpl. intros [= _ ->].
      exact (getopt_loop_success _ _ _ _ _ Hloop).
    + destruct Hs as (_ & -> & _). simpl. discriminate.
    + simpl. discriminate.
  - simpl in Hb. injection Hb as _ <-.
    revert Hp. unfold parse_options. pose proof (startup_shape env) as Hs.
    destruct (startup env) as [evs [fr0 | r0 fr0 | code0 | ]];
      try contradiction.
    + rewrite bind_of_next.
      destruct (getopt_loop env opts fr0) as [evp kp] eqn:Hloop.
      destruct (getopt_loop_trace _ _ _ _ _ Hloop) as (_ & _ & Hk).
      simpl. intros [= _ ->]. contradiction.
    + simpl. discriminate.
    + destruct Hs as (_ & -> & _). simpl. intros [= _ <-]. reflexivity.
  - destruct (before_mode_sound env opts positional ev k) as (_ & Hk).
    { unfold before_mode. rewrite Hp. exact Hb. }
    simpl in Hb. injection Hb as _ <-. exact Hk.
Qed.

(** X18. [main] returns EXIT_SUCCESS only when -h or --version is among
    the options, or when a mode was entered and came back without a
    failure: in the second case the trace holds a call of [interact],
    [source], [redirect_output] or [batch], and every such call
    returned 0. *)
Theorem success_needs_a_mode env opts positional :
  snd (main env opts positional) = Exit EXIT_SUCCESS ->
  In OPT_h opts \/ In VERSION_OPT opts
  \/ exists ev fr,
       before_mode env opts positional = (ev, Next fr)
       /\ (exists m, mode_runs m (fst (main env opts positional)))
       /\ exists fr', snd (run_mode env fr) = Next fr'.
Proof.
  intros Hs.
  destruct (before_mode env opts positional) as [ev k] eqn:Hb.
  pose proof (before_mode_stops _ _ _ _ _ Hb) as Hk.
  destruct k as [fr | r fr | code | ]; try contradiction.
  - right. right. exists ev, fr. split; [reflexivity |].
    destruct (before_mode_sound _ _ _ _ _ Hb) as (_ & Hh).
    destruct (main_reaches_mode _ _ _ _ _ Hb)
      as (ev' & k & fr2 & Hrun & Hk2 & Hm).
    destruct (run_mode_spec env fr _ Hh)
      as (ev2 & k2 & fr3 & Hrun2 & _ & _ & _ & _ & Hne & Hmode & _).
    rewrite Hrun in Hrun2. injection Hrun2 as <- <-.
    rewrite Hm in Hs |- *. rewrite Hrun. simpl in Hs |- *. split.
    + destruct ev' as [| e ev']; [congruence |].
      exists (select_mode fr), e. split; [| apply Hmode; left; reflexivity].
      apply in_or_app. right. apply in_or_app. left. left. reflexivity.
    + destruct Hk2 as [-> | ->]; [eauto | discriminate Hs].
  - destruct (main_stops_before_mode _ _ _ _ _ Hb ltac:(discriminate))
      as (_ & tail & Hm & _).
    rewrite Hm in Hs. simpl in Hs. injection Hs as ->.
    destruct (Hk eq_refl) as [H | H]; auto.
  - destruct (main_stops_before_mode _ _ _ _ _ Hb ltac:(discriminate))
      as (_ & tail & Hm & _).
    rewrite Hm in Hs. simpl in Hs. congruence.
Qed.

Lemma success_needs_a_mode_witness :
  In OPT_h [OPT_i "a.cyp"] \/ In VERSION_OPT [OPT_i "a.cyp"]
  \/ exists ev fr,
       before_mode detached_env [OPT_i "a.cyp"] [] = (ev, Next fr)
       /\ (exists m,
             mode_runs m (fst (main detached_env [OPT_i "a.cyp"] [])))
       /\ exists fr', snd (run_mode detached_env fr) = Next fr'.
Proof.
  apply success_needs_a_mode. vm_compute. reflexivity.
Defined.

(** ** X19: no logger, no work *)

Lemma after_options_without_logger env positional fr ev k :
  logger_provider_fails env = true ->
  after_options env positional fr = (ev, k) ->
  forallb quiet ev = true /\ forall fr', k <> Next fr'.
Proof.
  intros Hf. revert Hf. crack_after fr positional env;
    intros Hf; try discriminate Hf; intros [= <- <-];
    (split; [reflexivity | intros fr'; discriminate]).
Qed.

Lemma before_mode_without_logger env opts positional ev k :
  logger_provider_fails env = true ->
  before_mode env opts positional = (ev, k) ->
  forallb quiet ev = true /\ forall fr, k <> Next fr.
Proof.
  intros Hf. unfold before_mode.
  destruct (parse_options env opts) as [ev1 k1] eqn:Hp.
  destruct (parse_options_sound _ _ _ _ Hp) as (Hq & _).
  destruct k1 as [fr1 | r1 fr1 | code1 | ].
  - rewrite bind_of_next.
    destruct (after_options env positional fr1) as [ev2 k2] eqn:Ha.
    destruct (after_options_without_logger _ _ _ _ _ Hf Ha) as (Hq2 & Hk).
    simpl. intros [= <- <-]. rewrite forallb_app, Hq, Hq2. auto.
  - simpl. intros [= <- <-]. split; [exact Hq | discriminate].
  - simpl. intros [= <- <-]. split; [exact Hq | discriminate].
  - simpl. intros [= <- <-]. split; [exact Hq | discriminate].
Qed.

(** X19. When [neo4j_std_logger_provider] cannot create a provider,
    [main] never connects and never enters a mode, whatever the command
    line; it returns EXIT_SUCCESS only when -h or --version is among the
    options. *)
Theorem logger_failure_stops env opts positional :
  logger_provider_fails env = true ->
  forallb quiet (fst (main env opts positional)) = true
  /\ (snd (main env opts positional) = Exit EXIT_SUCCESS ->
      In OPT_h opts \/ In VERSION_OPT opts).
Proof.
  intros Hf.
  destruct (before_mode env opts positional) as [ev k] eqn:Hb.
  destruct (before_mode_without_logger _ _ _ _ _ Hf Hb) as (Hq & Hk).
  destruct (main_stops_before_mode _ _ _ _ _ Hb Hk)
    as (_ & tail & -> & Hqt).
  pose proof (before_mode_stops _ _ _ _ _ Hb) as Hstop.
  split; [simpl; rewrite forallb_app, Hq, Hqt; reflexivity |].
  simpl. intros [= Hs].
  destruct k as [fr | r fr | code | ]; simpl in Hs;
    [exfalso; exact (Hk fr eq_refl) | auto | congruence | contradiction].
Qed.

Lemma logger_failure_stops_witness :
  forallb quiet (fst (main mute_env [OPT_v; OPT_i "a.cyp"] ["localhost"]))
  = true
  /\ (snd (main mute_env [OPT_v; OPT_i "a.cyp"] ["localhost"])
      = Exit EXIT_SUCCESS ->
      In OPT_h [OPT_v; OPT_i "a.cyp"]
      \/ In VERSION_OPT [OPT_v; OPT_i "a.cyp"]).
Proof.
  apply (logger_failure_stops mute_env [OPT_v; OPT_i "a.cyp"] ["localhost"]).
  reflexivity.
Defined.

(** ** X20: the settings of the interactive shell and of the batch *)

(** X20. [interact] is called only when the standard input is a terminal
    and neither --non-interactive nor -i was given, and then with the
    password prompt on, the table renderer, NEO4J_RENDER_SHOW_NULLS and
    the input name "<interactive>". [batch] is called only when the shell
    is not interactive and no -i or -o was given, and then with the CSV
    renderer and the input name "<stdin>". *)
Theorem mode_entry_settings env opts positional st :
  (In (Interact st) (fst (main env opts positional)) ->
   stays_interactive env opts = true
   /\ interactive st = true
   /\ password_prompt st = true
   /\ render st = render_results_table
   /\ render_flags st = NEO4J_RENDER_SHOW_NULLS
   /\ infile st = Some "<interactive>")
  /\ (In (Batch st) (fst (main env opts positional)) ->
      stays_interactive env opts = false
      /\ requests_of opts = []
      /\ interactive st = false
      /\ render st = render_results_csv
      /\ infile st = Some "<stdin>").
Proof.
  split; intros Hin.
  - destruct (mode_entry_origin _ _ _ _ Hin ltac:(discriminate))
      as (ev0 & fr0 & ev1 & fr1 & Hp & Ha & Hh & Hr).
    destruct (run_mode_interact _ _ _ _ Hh Hr) as (Hi & ->).
    destruct (after_options_fields _ _ _ _ _ Ha) as (Hk & (Hpp & _) & _).
    destruct (parse_options_next _ _ _ _ Hp) as (_ & _ & Hi0 & _).
    unfold kept_fields in Hk. injection Hk as Hk _ _ _ _ _ _ _.
    unfold stays_interactive. rewrite <- Hi0, <- Hk, Hi.
    simpl. rewrite Hpp, <- Hk, Hi, orb_true_r. auto 10.
  - destruct (mode_entry_origin _ _ _ _ Hin ltac:(discriminate))
      as (ev0 & fr0 & ev1 & fr1 & Hp & Ha & Hh & Hr).
    destruct (run_mode_batch _ _ _ _ Hh Hr) as (Hi & Hreq & ->).
    destruct (after_options_fields _ _ _ _ _ Ha) as (Hk & _ & _).
    destruct (parse_options_next _ _ _ _ Hp) as (_ & _ & Hi0 & _).
    unfold kept_fields in Hk. injection Hk as Hk _ _ _ _ _ _ _.
    unfold stays_interactive. rewrite <- Hi0, <- Hk, Hi.
    simpl. rewrite Hi. auto 10.
Qed.

Lemma interactive_state_handed :
  In (Interact interactive_state)
     (fst (main terminal_env [] ["localhost"])).
Proof. vm_compute. right; right; right; left; reflexivity. Qed.

Lemma mode_entry_settings_witness :
  stays_interactive terminal_env [] = true
  /\ interactive interactive_state = true
  /\ password_prompt interactive_state = true
  /\ render interactive_state = render_results_table
  /\ render_flags interactive_state = NEO4J_RENDER_SHOW_NULLS
  /\ infile interactive_state = Some "<interactive>".
Proof.
  destruct (mode_entry_settings terminal_env [] ["localhost"]
              interactive_state) as [H _].
  exact (H interactive_state_handed).
Defined.
